(** * l10n-i18n-issue-miner: the date-windowed search crawler

    A shallow embedding of [mine_issues.py] (the crawler: pager, window
    loop, per-quarter deduplication, campaign driver) and of the keyword
    filter of [clean_data.py], followed by the properties of the
    specification that are proved or refuted on it. *)

From Stdlib Require Import ZArith List String Ascii Bool Lia.
From Stdlib Require Import Sorted.
From stdpp Require Import gmap strings.
Import ListNotations.

#[local] Set Warnings "-clear-no-such-hyp".

Local Open Scope Z_scope.

(** ** Python values used by both scripts *)

Module Py.

(** Exceptions that escape [main]. *)
Inductive PyError := OverflowError | ValueError.

(** Outcome of a loop whose termination depends on its inputs: the
    [while] loop of [main] is run with a bound on its iterations. *)
Inductive Result (A : Type) :=
| Ok (a : A)
| Raised (e : PyError)
| OutOfFuel.
Arguments Ok {A} a.
Arguments Raised {A} e.
Arguments OutOfFuel {A}.

(** [range(start, stop)]. *)
Definition range (start stop : Z) : list Z :=
  map (fun i => start + Z.of_nat i) (seq 0 (Z.to_nat (stop - start))).

(** [range(start, stop, -1)]. *)
Definition range_down (start stop : Z) : list Z :=
  map (fun i => start - Z.of_nat i) (seq 0 (Z.to_nat (start - stop))).

(** [x or ""] for an optional string. *)
Definition or_empty (x : option string) : string :=
  match x with
  | Some s => s
  | None => EmptyString
  end.

(** A [str] is represented by the sequence of its UTF-8 bytes; the
    substring test of Python ([needle in hay]) is the substring test on
    that sequence. *)
Fixpoint startswith (s p : string) {struct p} : bool :=
  match p with
  | EmptyString => true
  | String c p' =>
      match s with
      | EmptyString => false
      | String d s' => if Ascii.eqb c d then startswith s' p' else false
      end
  end.

Fixpoint str_in (needle hay : string) : bool :=
  startswith hay needle ||
  match hay with
  | EmptyString => false
  | String _ hay' => str_in needle hay'
  end.

(** What the substring test decides: [needle] occurs in [hay]. *)
Definition occurs_in (needle hay : string) : Prop :=
  exists pre post : string, hay = pre +:+ needle +:+ post.

(** [x in l] for a list of strings [l]. *)
Definition list_in (x : string) (l : list string) : bool :=
  existsb (String.eqb x) l.

(** [any(p(k) for k in l)]. *)
Definition any {A} (p : A -> bool) (l : list A) : bool := existsb p l.

(** [str.lower] on ASCII text; used to evaluate the functions below on
    concrete inputs.  The functions themselves take [lower] as an
    argument, so what is proved about them does not depend on how the
    case mapping treats other characters. *)
Definition ascii_lower_char (c : ascii) : ascii :=
  let n := nat_of_ascii c in
  if ((65 <=? n) && (n <=? 90))%nat then ascii_of_nat (n + 32) else c.

Fixpoint ascii_lower (s : string) : string :=
  match s with
  | EmptyString => EmptyString
  | String c s' => String (ascii_lower_char c) (ascii_lower s')
  end.

(** Last element of [s.split(sep)] for a non-empty [sep]: scan from the
    left, restart the current piece after each occurrence of [sep].
    [skip] counts the characters of an occurrence still to be passed. *)
Fixpoint split_last_from (sep s : string) (skip : nat) (cur : string) : string :=
  match s with
  | EmptyString => cur
  | String c s' =>
      match skip with
      | S k => split_last_from sep s' k cur
      | O =>
          if startswith s sep
          then split_last_from sep s' (String.length sep - 1) EmptyString
          else split_last_from sep s' O (cur +:+ String c EmptyString)
      end
  end.

Definition split_last (sep s : string) : string :=
  split_last_from sep s O EmptyString.

End Py.

(** ** Calendar arithmetic of [datetime] *)

Module Calendar.

(** [datetime.min] and [datetime.max] as proleptic Gregorian ordinals
    ([date.toordinal()]): 0001-01-01 is day 1, 9999-12-31 is day
    3652059. *)
Definition MINYEAR : Z := 1.
Definition MAXYEAR : Z := 9999.
Definition MAXORDINAL : Z := 3652059.

Definition is_leap (year : Z) : bool :=
  (year mod 4 =? 0) && (negb (year mod 100 =? 0) || (year mod 400 =? 0)).

(** The calendar's month lengths, the reference for "the true last
    day of a month". *)
Definition days_in_month (year month : Z) : Z :=
  if month =? 2 then (if is_leap year then 29 else 28)
  else if (month =? 4) || (month =? 6) || (month =? 9) || (month =? 11) then 30
  else 31.

Definition days_before_year (year : Z) : Z :=
  let y := year - 1 in
  y * 365 + y / 4 - y / 100 + y / 400.

Definition days_before_month (year month : Z) : Z :=
  nth (Z.to_nat month) [0; 0; 31; 59; 90; 120; 151; 181; 212; 243; 273; 304; 334] 0
  + (if (2 <? month) && is_leap year then 1 else 0).

Definition ymd2ord (year month day : Z) : Z :=
  days_before_year year + days_before_month year month + day.

(** [datetime(year, month, day)]: midnight of that day, as its ordinal;
    [None] stands for the [ValueError] of an out-of-range field. *)
Definition datetime (year month day : Z) : option Z :=
  if (MINYEAR <=? year) && (year <=? MAXYEAR)
     && (1 <=? month) && (month <=? 12)
     && (1 <=? day) && (day <=? days_in_month year month)
  then Some (ymd2ord year month day)
  else None.

(** [d - timedelta(days=k)] for a [datetime] at midnight with ordinal
    [d]; [None] stands for the [OverflowError] raised when the result
    leaves [datetime.min .. datetime.max] (or when [timedelta] itself
    refuses [k]). *)
Definition sub_days (d k : Z) : option Z :=
  let r := d - k in
  if (1 <=? r) && (r <=? MAXORDINAL) then Some r else None.

(** A [datetime] with a time of day: ordinal of the day and
    microseconds since midnight.  [datetime.utcnow()] is of this kind. *)
Record DateTime := { dt_day : Z; dt_micro : Z }.

Definition midnight (d : Z) : DateTime := {| dt_day := d; dt_micro := 0 |}.

(** [a > b] on [datetime]s. *)
Definition dt_gt (a b : DateTime) : bool :=
  (dt_day b <? dt_day a) || ((dt_day a =? dt_day b) && (dt_micro b <? dt_micro a)).

End Calendar.

(** ** [mine_issues.py] *)

Module Miner.

Import Py Calendar.
Local Open Scope string_scope.
Local Open Scope list_scope.
Local Open Scope Z_scope.

Definition SEARCH_TERMS : list string :=
  [ "i18n"; "l10n"; "localization"; "internationalization"; "translation";
    "missing translation"; "mistranslation"; "locale"; "date format";
    "time format"; "currency";
    "rtl"; "right-to-left";
    "wrong translation"; "not translated"; "text direction"; "mirrored layout" ].

Definition BUG_TYPES : list (string * list string) :=
  [ ("truncation", ["truncate"; "truncated"; "cut off"; "clipping"; "overflow"]);
    ("missing_translation", ["missing translation"; "not translated"; "no translation"]);
    ("mistranslation", ["wrong translation"; "incorrect translation"; "mistranslation"]);
    ("locale_issue", ["locale"; "region"; "timezone"; "date format"; "time format"]);
    ("overlap_ui", ["overlap"; "misalignment"; "layout issue"; "UI issue"]);
    ("encoding", ["encoding"; "utf-8"; "unicode"; "character set"]);
    ("rtl_issue", ["rtl"; "right-to-left"; "bidirectional"; "bidi"; "text direction";
                   "mirrored layout"]) ].

(** Module-level defaults, overwritten by [main] from the command line. *)
Definition DATE_INTERVAL_DAYS : Z := 30.
Definition MAX_PAGES : Z := 1.
Definition RESULTS_PER_PAGE : Z := 10.
Definition START_YEAR : Z := 2025.
Definition END_YEAR : Z := 2015.

(** The parsed command line ([args] of [main]). *)
Record Args := {
  start_year : Z;
  end_year : Z;
  interval_days : Z;
  max_pages : Z;
  per_page : Z;
  start_quarter : Z
}.

(** [parser.parse_args()] on an empty command line: every option takes
    its [default=]. *)
Definition default_args : Args :=
  {| start_year := START_YEAR;
     end_year := END_YEAR;
     interval_days := DATE_INTERVAL_DAYS;
     max_pages := MAX_PAGES;
     per_page := RESULTS_PER_PAGE;
     start_quarter := 1 |}.

(** An item of the search endpoint's [items] array, with the fields the
    crawler reads. *)
Record RawItem := {
  raw_id : option Z;
  raw_title : string;
  raw_body : option string;
  raw_html_url : option string;
  raw_comments_url : option string;
  raw_repository_url : string;
  raw_labels : list string;
  raw_created_at : option string
}.

(** The dictionary appended to [issues] by [fetch_issues_by_date]. *)
Record Issue := {
  issue_id : option Z;
  repo_full : string;
  repo : string;
  title : string;
  url : option string;
  body : string;
  labels : list string;
  image_urls : list string;
  bug_types : list string;
  search_terms_found : list string;
  created_at : option string
}.

(** The parameters of one [requests.get] on the search endpoint: the
    query is built from the term and the two dates. *)
Record SearchRequest := {
  rq_term : string;
  rq_since : Z;
  rq_until : Z;
  rq_page : Z;
  rq_per_page : Z
}.

(** What [requests.get] does on the search endpoint: it raises a
    [RequestException], or returns a response with a status code and,
    in its JSON body, the [items]. *)
Inductive SearchResponse :=
| ConnectionError
| HttpReply (status_code : Z) (items : list RawItem).

(** The same for the comments endpoint; a comment is its [body]. *)
Inductive CommentsResponse :=
| CommentsError
| CommentsReply (status_code : Z) (comments : list (option string)).

(** What the crawler does to the outside, in order. *)
Inductive Event :=
| EvSearch (rq : SearchRequest) (rs : SearchResponse)
| EvComments (comments_url : option string)
| EvSleep (seconds : Z).

Definition searched_page (e : Event) : option Z :=
  match e with
  | EvSearch rq _ => Some (rq_page rq)
  | _ => None
  end.

(** Page numbers requested, in order. *)
Definition searched_pages (evs : list Event) : list Z :=
  omap searched_page evs.

Definition is_throttled (e : Event) : bool :=
  match e with
  | EvSearch _ (HttpReply status _) => status =? 403
  | _ => false
  end.

Definition is_sleep (seconds : Z) (e : Event) : bool :=
  match e with
  | EvSleep s => s =? seconds
  | _ => false
  end.

(** Number of 60-second cooldown waits. *)
Definition cooldown_waits (evs : list Event) : nat :=
  length (List.filter (is_sleep 60) evs).

Definition throttled_responses (evs : list Event) : nat :=
  length (List.filter is_throttled evs).

(** A date window as passed to the pager: [(since, until)], inclusive. *)
Definition Window : Type := Z * Z.

(** Days of a window, ascending. *)
Definition window_days (w : Window) : list Z := range (fst w) (snd w + 1).

(** Each window of a newest-first list ends the day before the start of
    the window before it. *)
Fixpoint contiguous_desc (ws : list Window) : Prop :=
  match ws with
  | a :: (b :: _) as tl => snd b = fst a - 1 /\ contiguous_desc tl
  | _ => True
  end.

(** First occurrences of each URL, in order: the reference for
    "first writer wins". *)
Fixpoint keep_first (seen : gset (option string)) (l : list Issue) : list Issue :=
  match l with
  | [] => []
  | i :: l' =>
      if decide (url i ∈ seen) then keep_first seen l'
      else i :: keep_first ({[url i]} ∪ seen) l'
  end.

(** The local state of one quarter in [main].  [seen_urls] and
    [quarter_issues] are the variables of the source; the two history
    fields are not in the source: [windows_visited] records the
    [(interval_start, current_end)] pairs in the order in which the
    [while] loop computed them, [observed] every issue returned by
    [fetch_issues_by_date], in order, before deduplication. *)
Record Crawl := {
  seen_urls : gset (option string);
  quarter_issues : list Issue;
  windows_visited : list Window;
  observed : list Issue
}.

(** What holds of the quarter's state between two fetches: the URLs
    seen are those of the issues observed so far, and the issues
    collected are the first occurrences of each URL among them. *)
Definition first_writer_wins (c : Crawl) : Prop :=
  seen_urls c = list_to_set (map url (observed c))
  /\ quarter_issues c = keep_first ∅ (observed c).

(** A newest-first list of windows that covers [q_start .. q_end] day
    by day, each window of at most [n] days. *)
Definition partitions_span (n q_start q_end : Z) (ws : list Window) : Prop :=
  concat (map window_days (rev ws)) = range q_start (q_end + 1)
  /\ Forall (fun win => fst win <= snd win /\ snd win - fst win + 1 <= n) ws
  /\ contiguous_desc ws
  /\ (q_start <= q_end ->
      snd <$> head ws = Some q_end /\ fst <$> last ws = Some q_start)
  /\ (q_end < q_start -> ws = []).

(** What [save_to_csv] and [save_to_json] receive for one quarter. *)
Record Persisted := {
  p_year : Z;
  p_quarter : Z;
  p_total_collected : Z;
  p_total_saved : Z;
  p_issues : list Issue
}.

(** A quarter that [main] processes. *)
Record Job := {
  job_year : Z;
  job_quarter : Z;
  job_start : Z;
  job_end : Z
}.

(** [enumerate(quarters, start=1)]. *)
Definition quarters : list (Z * (Z * Z)) :=
  [ (1, (1, 3)); (2, (4, 6)); (3, (7, 9)); (4, (10, 12)) ].

(** Last day of the month [m_end], as [main] computes it. *)
Definition last_day (year m_end : Z) : Z :=
  if existsb (Z.eqb m_end) [1; 3; 5; 7; 8; 10; 12] then 31
  else if m_end =? 2 then
    (if (year mod 4 =? 0) && (negb (year mod 100 =? 0) || (year mod 400 =? 0))
     then 29 else 28)
  else 30.

(** [q_start] and [q_end] of a quarter; [None] when a [datetime]
    constructor raises [ValueError]. *)
Definition quarter_span (year m_start m_end : Z) : option (Z * Z) :=
  match datetime year m_start 1 with
  | None => None
  | Some q_start =>
      match datetime year m_end 1 with
      | None => None
      | Some _ =>
          match datetime year m_end (last_day year m_end) with
          | None => None
          | Some q_end => Some (q_start, q_end)
          end
      end
  end.

(** The [for q_index, (m_start, m_end) in enumerate(quarters, start=1)]
    loop of one year, up to the point where the quarter is crawled:
    [continue] below the start quarter, [break] at the first quarter
    that starts in the future.  The result is the quarters to crawl and
    the exception, if any, that ends the run after them. *)
Fixpoint quarters_loop (args : Args) (today : DateTime) (year : Z)
    (qs : list (Z * (Z * Z))) : list Job * option PyError :=
  match qs with
  | [] => ([], None)
  | (q_index, (m_start, m_end)) :: rest =>
      if q_index <? start_quarter args then quarters_loop args today year rest
      else
        match quarter_span year m_start m_end with
        | None => ([], Some ValueError)
        | Some (q_start, q_end) =>
            if dt_gt (midnight q_start) today then ([], None)
            else
              let '(jobs, err) := quarters_loop args today year rest in
              ({| job_year := year; job_quarter := q_index;
                  job_start := q_start; job_end := q_end |} :: jobs, err)
        end
  end.

(** [range(END_YEAR, START_YEAR - 1, -1)] after [main] has stored the
    options in the globals. *)
Definition year_range (args : Args) : list Z :=
  range_down (end_year args) (start_year args - 1).

Fixpoint years_loop (args : Args) (today : DateTime) (years : list Z)
    : list Job * option PyError :=
  match years with
  | [] => ([], None)
  | year :: rest =>
      match quarters_loop args today year quarters with
      | (jobs, Some e) => (jobs, Some e)
      | (jobs, None) =>
          let '(jobs', err) := years_loop args today rest in
          (jobs ++ jobs', err)
      end
  end.

(** The quarters [main] crawls, in order. *)
Definition campaign (args : Args) (today : DateTime) : list Job * option PyError :=
  years_loop args today (year_range args).

Definition has_images (i : Issue) : bool :=
  match image_urls i with
  | [] => false
  | _ :: _ => true
  end.

Section Crawler.

(** [str.lower]. *)
Variable lower : string -> string.
(** [re.findall(pattern, text, flags=re.IGNORECASE)] with the image
    URL pattern of [extract_image_urls]. *)
Variable findall_images : string -> list string.
(** The outside world: its state and what the two endpoints answer. *)
Variable World : Type.
Variable get_search : World -> SearchRequest -> World * SearchResponse.
Variable get_comments : World -> option string -> World * CommentsResponse.

Definition extract_image_urls (text : option string) : list string :=
  match text with
  | None => []
  | Some EmptyString => []
  | Some t => findall_images t
  end.

Definition detect_bug_types (title body : option string) : list string :=
  let text := lower (or_empty title +:+ " " +:+ or_empty body) in
  map fst (List.filter (fun '(_, keywords) => any (fun k => str_in k text) keywords)
                       BUG_TYPES).

Definition detect_search_terms (text : option string) (term : string) : list string :=
  let found_terms :=
    List.filter (fun t => str_in (lower t) (lower (or_empty text))) SEARCH_TERMS in
  if negb (list_in term found_terms) then found_terms ++ [term] else found_terms.

(** Without a URL, [requests.get] raises before anything is sent, and
    the [except Exception] gives the empty list. *)
Definition fetch_issue_comments (comments_url : option string) (w : World)
    : list string * World * list Event :=
  match comments_url with
  | None => ([], w, [])
  | Some _ =>
      let '(w1, response) := get_comments w comments_url in
      match response with
      | CommentsError => ([], w1, [EvComments comments_url])
      | CommentsReply status comments =>
          if negb (status =? 200) then ([], w1, [EvComments comments_url])
          else (flat_map extract_image_urls comments, w1, [EvComments comments_url])
      end
  end.

(** The query and [params] of the request for one page. *)
Definition request (args : Args) (term : string) (since_date until_date page : Z)
    : SearchRequest :=
  {| rq_term := term; rq_since := since_date; rq_until := until_date;
     rq_page := page; rq_per_page := per_page args |}.

(** The [for item in items] loop of [fetch_issues_by_date]; the result
    is what it appends to [issues]. *)
Fixpoint items_loop (term : string) (items : list RawItem) (w : World)
    : list Issue * World * list Event :=
  match items with
  | [] => ([], w, [])
  | item :: rest =>
      let body := or_empty (raw_body item) in
      let '(comment_images, w1, evs1) := fetch_issue_comments (raw_comments_url item) w in
      let images := extract_image_urls (Some body) ++ comment_images in
      let repo_full_name := split_last "repos/" (raw_repository_url item) in
      let text := raw_title item +:+ " " +:+ body in
      let issue :=
        {| issue_id := raw_id item;
           repo_full := repo_full_name;
           repo := split_last "/" repo_full_name;
           title := raw_title item;
           url := raw_html_url item;
           body := body;
           labels := raw_labels item;
           image_urls := images;
           bug_types := detect_bug_types (Some (raw_title item)) (Some body);
           search_terms_found := detect_search_terms (Some text) term;
           created_at := raw_created_at item |} in
      let '(more, w2, evs2) := items_loop term rest w1 in
      (issue :: more, w2, evs1 ++ evs2)
  end.

(** The [for page in range(1, MAX_PAGES + 1)] loop of
    [fetch_issues_by_date], on the pages still to come. *)
Fixpoint pages_loop (args : Args) (term : string) (since_date until_date : Z)
    (pages : list Z) (issues : list Issue) (w : World)
    : list Issue * World * list Event :=
  match pages with
  | [] => (issues, w, [])
  | page :: rest =>
      let rq := request args term since_date until_date page in
      let '(w1, response) := get_search w rq in
      match response with
      | ConnectionError =>
          (* except RequestException: continue *)
          let '(r, w2, evs) := pages_loop args term since_date until_date rest issues w1 in
          (r, w2, EvSearch rq response :: evs)
      | HttpReply status items =>
          if status =? 403 then
            (* sleep(60); continue *)
            let '(r, w2, evs) :=
              pages_loop args term since_date until_date rest issues w1 in
            (r, w2, EvSearch rq response :: EvSleep 60 :: evs)
          else if negb (status =? 200) then
            (* break *)
            (issues, w1, [EvSearch rq response])
          else
            match items with
            | [] => (* break *) (issues, w1, [EvSearch rq response])
            | _ :: _ =>
                let '(new, w2, evs_items) := items_loop term items w1 in
                let '(r, w3, evs) :=
                  pages_loop args term since_date until_date rest (issues ++ new) w2 in
                (r, w3, EvSearch rq response :: evs_items ++ EvSleep 1 :: evs)
            end
      end
  end.

Definition fetch_issues_by_date (args : Args) (term : string)
    (since_date until_date : Z) (w : World) : list Issue * World * list Event :=
  pages_loop args term since_date until_date (range 1 (max_pages args + 1)) [] w.

(** [for issue in issues: if issue["url"] not in seen_urls: ...]. *)
Fixpoint dedup_loop (issues : list Issue) (c : Crawl) : Crawl :=
  match issues with
  | [] => c
  | issue :: rest =>
      if decide (url issue ∈ seen_urls c) then dedup_loop rest c
      else
        dedup_loop rest
          {| seen_urls := {[url issue]} ∪ seen_urls c;
             quarter_issues := quarter_issues c ++ [issue];
             windows_visited := windows_visited c;
             observed := observed c |}
  end.

(** [for term in SEARCH_TERMS] for one window. *)
Fixpoint terms_loop (args : Args) (terms : list string) (since_date until_date : Z)
    (c : Crawl) (w : World) : Crawl * World * list Event :=
  match terms with
  | [] => (c, w, [])
  | term :: rest =>
      let '(issues, w1, evs1) := fetch_issues_by_date args term since_date until_date w in
      let c1 :=
        dedup_loop issues
          {| seen_urls := seen_urls c;
             quarter_issues := quarter_issues c;
             windows_visited := windows_visited c;
             observed := observed c ++ issues |} in
      let '(c2, w2, evs2) := terms_loop args rest since_date until_date c1 w1 in
      (c2, w2, evs1 ++ evs2)
  end.

(** [while current_start >= q_start], at most [fuel] evaluations of
    its condition. *)
Fixpoint window_loop (fuel : nat) (args : Args) (q_start current_start : Z)
    (c : Crawl) (w : World) : Result (Crawl * World * list Event) :=
  match fuel with
  | O => OutOfFuel
  | S fuel' =>
      if q_start <=? current_start then
        let current_end := current_start in
        match sub_days current_start (interval_days args - 1) with
        | None => Raised OverflowError
        | Some earliest =>
            let interval_start := Z.max q_start earliest in
            let c0 :=
              {| seen_urls := seen_urls c;
                 quarter_issues := quarter_issues c;
                 windows_visited := windows_visited c ++ [(interval_start, current_end)];
                 observed := observed c |} in
            let '(c1, w1, evs1) :=
              terms_loop args SEARCH_TERMS interval_start current_end c0 w in
            match sub_days interval_start 1 with
            | None => Raised OverflowError
            | Some next_start =>
                match window_loop fuel' args q_start next_start c1 w1 with
                | Ok (c2, w2, evs2) => Ok (c2, w2, evs1 ++ evs2)
                | Raised e => Raised e
                | OutOfFuel => OutOfFuel
                end
            end
        end
      else Ok (c, w, [])
  end.

Definition new_crawl : Crawl :=
  {| seen_urls := ∅; quarter_issues := []; windows_visited := []; observed := [] |}.

(** The crawl of one quarter: [current_start = q_end], empty
    [seen_urls] and [quarter_issues], then the [while] loop. *)
Definition crawl_quarter (fuel : nat) (args : Args) (q_start q_end : Z) (w : World)
    : Result (Crawl * World * list Event) :=
  window_loop fuel args q_start q_end new_crawl w.

(** The body of the quarter loop from [current_start = q_end] on: the
    crawl, the image filter and what is handed to the two writers. *)
Definition process_quarter (fuel : nat) (args : Args) (j : Job) (w : World)
    : Result (Persisted * World * list Event) :=
  match crawl_quarter fuel args (job_start j) (job_end j) w with
  | Ok (c, w1, evs) =>
      let issues_with_images := List.filter has_images (quarter_issues c) in
      Ok ({| p_year := job_year j;
             p_quarter := job_quarter j;
             p_total_collected := Z.of_nat (length (quarter_issues c));
             p_total_saved := Z.of_nat (length issues_with_images);
             p_issues := issues_with_images |}, w1, evs)
  | Raised e => Raised e
  | OutOfFuel => OutOfFuel
  end.

Fixpoint run_jobs (fuel : nat) (args : Args) (jobs : list Job) (w : World)
    : Result (list Persisted * World * list Event) :=
  match jobs with
  | [] => Ok ([], w, [])
  | j :: rest =>
      match process_quarter fuel args j w with
      | Ok (p, w1, evs1) =>
          match run_jobs fuel args rest w1 with
          | Ok (ps, w2, evs2) => Ok (p :: ps, w2, evs1 ++ evs2)
          | Raised e => Raised e
          | OutOfFuel => OutOfFuel
          end
      | Raised e => Raised e
      | OutOfFuel => OutOfFuel
      end
  end.

(** [main]: the quarters of the campaign are crawled and persisted in
    order; an exception ends the run. *)
Definition main (fuel : nat) (args : Args) (today : DateTime) (w : World)
    : Result (list Persisted * World * list Event) :=
  let '(jobs, err) := campaign args today in
  match run_jobs fuel args jobs w with
  | Ok r =>
      match err with
      | None => Ok r
      | Some e => Raised e
      end
  | Raised e => Raised e
  | OutOfFuel => OutOfFuel
  end.

End Crawler.

End Miner.

(** ** [clean_data.py]: the bug-keyword filter *)

Module Cleaner.

Import Py.
Local Open Scope string_scope.

(** The list literal of the source.  No comma follows ["not working"],
    so Python joins it with the next literal, ["not translated"]. *)
Definition BUG_KEYWORDS : list string :=
  [ "bug"; "fix"; "error"; "fail"; "failure"; "issue"; "problem";
    "broken"; "incorrect"; "wrong"; "unexpected"; "missing";
    "lost"; "typo"; "properly"; "failing"; "failed"; "does not work";
    "doesn't work"; "not working" +:+ "not translated";
    "wrong translation"; "missing translation";
    "mistranslation"; "translation missing" ].

Section Filter.

(** [str.lower]. *)
Variable lower : string -> string.

Definition contains_bug_keyword (text : string) : bool :=
  match text with
  | EmptyString => false
  | _ =>
      let t := lower text in
      any (fun k => str_in k t) BUG_KEYWORDS
  end.

End Filter.

End Cleaner.

(** ** A scripted service, to run the crawler on concrete responses *)

Module Script.

Import Py Calendar Miner.
Local Open Scope string_scope.
Local Open Scope list_scope.
Local Open Scope Z_scope.

(** The world is the list of search responses still to be served; when
    the script is exhausted the service answers with an empty page. *)
Definition World : Type := list SearchResponse.

Definition get_search (w : World) (rq : SearchRequest) : World * SearchResponse :=
  match w with
  | [] => ([], HttpReply 200 [])
  | r :: rest => (rest, r)
  end.

(** Comment threads are empty. *)
Definition get_comments (w : World) (comments_url : option string)
    : World * CommentsResponse :=
  (w, CommentsReply 200 []).

(** The value of the image pattern's [re.findall] on the texts of the
    items below: a body that is one image URL gives that URL, the other
    texts give none. *)
Definition findall_images (text : string) : list string :=
  if String.eqb text "https://example.org/shot.png" then [text] else [].

Definition item1 : RawItem :=
  {| raw_id := Some 101;
     raw_title := "Menu is not translated";
     raw_body := Some "The settings menu stays in English.";
     raw_html_url := Some "https://github.com/acme/app/issues/7";
     raw_comments_url := Some "https://api.github.com/repos/acme/app/issues/7/comments";
     raw_repository_url := "https://api.github.com/repos/acme/app";
     raw_labels := ["i18n"];
     raw_created_at := Some "2024-03-05T10:00:00Z" |}.

Definition Throttled : SearchResponse := HttpReply 403 [].
Definition Success (items : list RawItem) : SearchResponse := HttpReply 200 items.

Definition with_max_pages (n : Z) : Args :=
  {| start_year := start_year default_args;
     end_year := end_year default_args;
     interval_days := interval_days default_args;
     max_pages := n;
     per_page := per_page default_args;
     start_quarter := start_quarter default_args |}.

(** The pager on the scripted service, for the term ["i18n"] and the
    window 2024-03-02 .. 2024-03-31. *)
Definition fetch (args : Args) (script : World) : list Issue * World * list Event :=
  fetch_issues_by_date ascii_lower findall_images World get_search get_comments
    args "i18n" (ymd2ord 2024 3 2) (ymd2ord 2024 3 31) script.

(** The issue the pager builds from [item1] under the term ["i18n"]. *)
Definition issue1 : Issue :=
  {| issue_id := Some 101;
     repo_full := "acme/app";
     repo := "app";
     title := "Menu is not translated";
     url := Some "https://github.com/acme/app/issues/7";
     body := "The settings menu stays in English.";
     labels := ["i18n"];
     image_urls := [];
     bug_types := ["missing_translation"];
     search_terms_found := ["not translated"; "i18n"];
     created_at := Some "2024-03-05T10:00:00Z" |}.

(** A second report, of another URL, whose body is an image link. *)
Definition item2 : RawItem :=
  {| raw_id := Some 102;
     raw_title := "Label overflow in German locale";
     raw_body := Some "https://example.org/shot.png";
     raw_html_url := Some "https://github.com/acme/app/issues/9";
     raw_comments_url := Some "https://api.github.com/repos/acme/app/issues/9/comments";
     raw_repository_url := "https://api.github.com/repos/acme/app";
     raw_labels := [];
     raw_created_at := Some "2024-03-20T08:30:00Z" |}.

(** The issue the pager builds from [item2] under the term ["l10n"]. *)
Definition issue2 : Issue :=
  {| issue_id := Some 102;
     repo_full := "acme/app";
     repo := "app";
     title := "Label overflow in German locale";
     url := Some "https://github.com/acme/app/issues/9";
     body := "https://example.org/shot.png";
     labels := [];
     image_urls := ["https://example.org/shot.png"];
     bug_types := ["truncation"; "locale_issue"];
     search_terms_found := ["locale"; "l10n"];
     created_at := Some "2024-03-20T08:30:00Z" |}.

Definition with_interval (n : Z) : Args :=
  {| start_year := start_year default_args;
     end_year := end_year default_args;
     interval_days := n;
     max_pages := max_pages default_args;
     per_page := per_page default_args;
     start_quarter := start_quarter default_args |}.

(** The crawl of one quarter on the scripted service. *)
Definition crawl (fuel : nat) (args : Args) (q_start q_end : Z) (script : World)
    : Result (Crawl * World * list Event) :=
  crawl_quarter ascii_lower findall_images World get_search get_comments
    fuel args q_start q_end script.

Definition process (fuel : nat) (args : Args) (j : Job) (script : World)
    : Result (Persisted * World * list Event) :=
  process_quarter ascii_lower findall_images World get_search get_comments
    fuel args j script.

Definition q1_2024 : Job :=
  {| job_year := 2024; job_quarter := 1;
     job_start := ymd2ord 2024 1 1; job_end := ymd2ord 2024 3 31 |}.

(** [--start-year 2020 --end-year 2021 --start-quarter 3]. *)
Definition two_years_from_q3 : Args :=
  {| start_year := 2020;
     end_year := 2021;
     interval_days := interval_days default_args;
     max_pages := max_pages default_args;
     per_page := per_page default_args;
     start_quarter := 3 |}.

(** [--start-year 2015 --end-year 2025]: the two default years, the
    other way round. *)
Definition years_2015_to_2025 : Args :=
  {| start_year := 2015;
     end_year := 2025;
     interval_days := interval_days default_args;
     max_pages := max_pages default_args;
     per_page := per_page default_args;
     start_quarter := start_quarter default_args |}.

(** A [datetime.utcnow()]: noon of 3 November 2026. *)
Definition noon_2026_11_03 : DateTime :=
  {| dt_day := ymd2ord 2026 11 3; dt_micro := 43200000000 |}.

(** Years and quarter indices of the quarters of a campaign. *)
Definition campaign_quarters (args : Args) (today : DateTime) : list (Z * Z) :=
  map (fun j => (job_year j, job_quarter j)) (fst (campaign args today)).

(** Projections of a finished crawl, empty when it did not finish. *)
Definition crawled_issues (r : Result (Crawl * World * list Event)) : list Issue :=
  match r with
  | Ok (c, _, _) => quarter_issues c
  | _ => []
  end.

Definition crawled_windows (r : Result (Crawl * World * list Event)) : list Window :=
  match r with
  | Ok (c, _, _) => windows_visited c
  | _ => []
  end.

Definition crawled_observed (r : Result (Crawl * World * list Event)) : list Issue :=
  match r with
  | Ok (c, _, _) => observed c
  | _ => []
  end.

End Script.

(** ** Python text helpers of the writers and of the cleaning stage *)

Module Text.

Local Open Scope string_scope.

(** [sep.join(l)]. *)
Fixpoint join (sep : string) (l : list string) : string :=
  match l with
  | [] => ""
  | x :: rest =>
      match rest with
      | [] => x
      | _ :: _ => x +:+ sep +:+ join sep rest
      end
  end.

(** [s.split(c)] for a separator [c] of one ASCII character. *)
Fixpoint split_on (c : ascii) (s : string) : list string :=
  match s with
  | EmptyString => [""]
  | String d s' =>
      if Ascii.eqb d c then "" :: split_on c s'
      else
        match split_on c s' with
        | [] => [String d ""]
        | piece :: pieces => String d piece :: pieces
        end
  end.

(** Truth value of a string: it is not empty. *)
Definition truthy (s : string) : bool :=
  match s with
  | EmptyString => false
  | String _ _ => true
  end.

(** [c in s] for one character. *)
Fixpoint has_char (c : ascii) (s : string) : bool :=
  match s with
  | EmptyString => false
  | String d s' => Ascii.eqb d c || has_char c s'
  end.

(** [str.strip] on text whose leading and trailing whitespace is
    ASCII; used to evaluate the cleaning functions on concrete inputs.
    The functions themselves take [strip] as an argument. *)
Definition is_ascii_space (c : ascii) : bool :=
  let n := nat_of_ascii c in
  ((n =? 32) || ((9 <=? n) && (n <=? 13)) || ((28 <=? n) && (n <=? 31)))%nat.

Fixpoint ascii_lstrip (s : string) : string :=
  match s with
  | EmptyString => EmptyString
  | String c s' => if is_ascii_space c then ascii_lstrip s' else s
  end.

Fixpoint string_rev (s : string) : string :=
  match s with
  | EmptyString => EmptyString
  | String c s' => string_rev s' +:+ String c EmptyString
  end.

Definition ascii_strip (s : string) : string :=
  string_rev (ascii_lstrip (string_rev (ascii_lstrip s))).

End Text.

(** ** [mine_issues.py]: what the two writers are given *)

Module Output.

Import Py Calendar Miner Text.
Local Open Scope string_scope.
Local Open Scope list_scope.
Local Open Scope Z_scope.

(** Items of the responses that the pager enriches: those of the
    responses with status 200. *)
Definition served_items (e : Event) : list RawItem :=
  match e with
  | EvSearch _ (HttpReply status items) => if status =? 200 then items else []
  | _ => []
  end.

(** An issue whose tags and matched terms are those computed from its
    own title and body, the matched terms for the term [term]. *)
Definition enriched_for (lower : string -> string) (term : string) (i : Issue) : Prop :=
  bug_types i = detect_bug_types lower (Some (title i)) (Some (body i))
  /\ search_terms_found i
     = detect_search_terms lower (Some (title i +:+ " " +:+ body i)) term.

(** An issue as the pager builds it from an item of a response, under
    the term [term]: the fields copied from the item, the repository
    names cut out of the repository URL, the images of the body followed
    by those of the comment thread, the tags and the matched terms. *)
Definition built_from (lower : string -> string) (findall_images : string -> list string)
    (term : string) (i : Issue) (item : RawItem) : Prop :=
  issue_id i = raw_id item
  /\ title i = raw_title item
  /\ url i = raw_html_url item
  /\ body i = or_empty (raw_body item)
  /\ labels i = raw_labels item
  /\ created_at i = raw_created_at item
  /\ repo_full i = split_last "repos/" (raw_repository_url item)
  /\ repo i = split_last "/" (repo_full i)
  /\ (exists comment_images,
        image_urls i = extract_image_urls findall_images (Some (body i)) ++ comment_images)
  /\ enriched_for lower term i.

(** What a search request of the crawl of a quarter may be. *)
Definition request_within (args : Args) (q_start q_end : Z) (e : Event) : Prop :=
  match e with
  | EvSearch rq _ =>
      In (rq_term rq) SEARCH_TERMS
      /\ q_start <= rq_since rq <= rq_until rq
      /\ rq_until rq <= q_end
      /\ rq_until rq - rq_since rq + 1 <= interval_days args
      /\ 1 <= rq_page rq <= max_pages args
      /\ rq_per_page rq = per_page args
  | _ => True
  end.

(** The dictionary [save_to_csv] hands to [writer.writerow]. *)
Record CsvRow := {
  c_issue_id : option Z;
  c_repo_full : string;
  c_repo : string;
  c_title : string;
  c_body : string;
  c_url : option string;
  c_labels : string;
  c_image_urls : string;
  c_bug_types : string;
  c_search_terms_found : string;
  c_created_at : option string
}.

Definition csv_keys : list string :=
  [ "issue_id"; "repo_full"; "repo"; "title"; "body"; "url";
    "labels"; "image_urls"; "bug_types"; "search_terms_found"; "created_at" ].

Definition csv_row (issue : Issue) : CsvRow :=
  {| c_issue_id := issue_id issue;
     c_repo_full := repo_full issue;
     c_repo := repo issue;
     c_title := title issue;
     c_body := body issue;
     c_url := url issue;
     c_labels := join ", " (labels issue);
     c_image_urls := join ", " (image_urls issue);
     c_bug_types := join ", " (bug_types issue);
     c_search_terms_found := join ", " (search_terms_found issue);
     c_created_at := created_at issue |}.

(** [save_to_csv]: the header and the rows written, in order. *)
Definition save_to_csv (issues : list Issue) : list string * list CsvRow :=
  (csv_keys, map csv_row issues).

(** [Counter(tags)]: each tag met adds one to its count. *)
Definition counter_add (m : gmap string Z) (tag : string) : gmap string Z :=
  <[tag := default 0 (m !! tag) + 1]> m.

Definition Counter (tags : list string) : gmap string Z :=
  fold_left counter_add tags ∅.

(** The [summary] of [save_to_json], without [fetched_at] (the local
    time of the call). *)
Record Summary := {
  s_total_collected : Z;
  s_total_saved : Z;
  s_bugtype_counts : gmap string Z;
  s_script : string;
  s_search_type : string;
  s_search_terms : list string;
  s_date_interval_days : Z
}.

(** [save_to_json] with the default [search_type]; [DATE_INTERVAL_DAYS]
    is the global that [main] has set from the command line. *)
Definition save_to_json (args : Args) (issues : list Issue) (total_collected : Z)
    (search_terms : list string) : Summary * list Issue :=
  let bugtype_counter := Counter (flat_map bug_types issues) in
  ({| s_total_collected := total_collected;
      s_total_saved := Z.of_nat (length issues);
      s_bugtype_counts := bugtype_counter;
      s_script := "v3";
      s_search_type := "date-based";
      s_search_terms := search_terms;
      s_date_interval_days := interval_days args |}, issues).

(** The two calls at the end of a quarter in [main]. *)
Definition persist (args : Args) (p : Persisted)
    : (list string * list CsvRow) * (Summary * list Issue) :=
  (save_to_csv (p_issues p),
   save_to_json args (p_issues p) (p_total_collected p) SEARCH_TERMS).

(** The year and quarter that name the two files of a quarter. *)
Definition job_key (j : Job) : Z * Z := (job_year j, job_quarter j).

Definition persisted_key (p : Persisted) : Z * Z := (p_year p, p_quarter p).

(** The order of [main]'s two loops: a later year first, and within a
    year the quarters upwards. *)
Definition newest_first (a b : Z * Z) : Prop :=
  fst b < fst a \/ (fst a = fst b /\ snd a < snd b).

(** The state of the world after the requests of a trace made from the
    state [w]: a search or a comments request moves the world as the
    endpoint says, a sleep leaves it. *)
Definition world_step (World : Type)
    (get_search : World -> SearchRequest -> World * SearchResponse)
    (get_comments : World -> option string -> World * CommentsResponse)
    (w : World) (e : Event) : World :=
  match e with
  | EvSearch rq _ => fst (get_search w rq)
  | EvComments comments_url => fst (get_comments w comments_url)
  | EvSleep _ => w
  end.

Definition world_after (World : Type)
    (get_search : World -> SearchRequest -> World * SearchResponse)
    (get_comments : World -> option string -> World * CommentsResponse)
    (w : World) (evs : list Event) : World :=
  fold_left (world_step World get_search get_comments) evs w.

(** An issue as the pager builds it from an item under the term [term],
    its comment thread being asked for in the state [w0] of the world:
    the images are those of the body followed by those that
    [fetch_issue_comments] returns for the item's [comments_url] in that
    state. *)
Definition fetched_from (lower : string -> string) (findall_images : string -> list string)
    (World : Type) (get_comments : World -> option string -> World * CommentsResponse)
    (term : string) (w0 : World) (i : Issue) (item : RawItem) : Prop :=
  issue_id i = raw_id item
  /\ title i = raw_title item
  /\ url i = raw_html_url item
  /\ body i = or_empty (raw_body item)
  /\ labels i = raw_labels item
  /\ created_at i = raw_created_at item
  /\ repo_full i = split_last "repos/" (raw_repository_url item)
  /\ repo i = split_last "/" (repo_full i)
  /\ image_urls i
     = extract_image_urls findall_images (Some (body i))
       ++ fst (fst (fetch_issue_comments findall_images World get_comments
                      (raw_comments_url item) w0))
  /\ enriched_for lower term i.

(** The traversal of a quarter in the words of the specification: the
    (window, term) pairs are gone through in the order given, the pager
    is run once for each, and every issue it returns is put down with
    the pair that met it. *)
Fixpoint traverse (lower : string -> string) (findall_images : string -> list string)
    (World : Type)
    (get_search : World -> SearchRequest -> World * SearchResponse)
    (get_comments : World -> option string -> World * CommentsResponse)
    (args : Args) (pairs : list (Window * string)) (w : World)
    : list (Window * string * Issue) * World * list Event :=
  match pairs with
  | [] => ([], w, [])
  | (win, term) :: rest =>
      let '(issues, w1, evs1) :=
        fetch_issues_by_date lower findall_images World get_search get_comments
          args term (fst win) (snd win) w in
      let '(more, w2, evs2) :=
        traverse lower findall_images World get_search get_comments args rest w1 in
      (map (fun i => (win, term, i)) issues ++ more, w2, evs1 ++ evs2)
  end.

(** The pairs of a list of windows: window by window, and for each
    window the search terms in declared order. *)
Definition traversal_pairs (windows : list Window) : list (Window * string) :=
  flat_map (fun win => map (fun term => (win, term)) SEARCH_TERMS) windows.

End Output.

(** ** [csv]: row dictionaries and [DictWriter] *)

Module Csv.

Import Py.
Local Open Scope string_scope.
Local Open Scope list_scope.

(** A row as [csv.DictReader] yields it for a line that has as many
    cells as the header has names: a dictionary from column name to
    cell, as the list of its items in insertion order. *)
Definition Row : Type := list (string * string).

(** [row.keys()]. *)
Definition keys (row : Row) : list string := map fst row.

Fixpoint row_lookup (row : Row) (key : string) : option string :=
  match row with
  | [] => None
  | (k, v) :: rest => if String.eqb k key then Some v else row_lookup rest key
  end.

(** [row.get(key, "")]. *)
Definition row_get (row : Row) (key : string) : string :=
  default "" (row_lookup row key).

(** [row.pop(key, None)], and [del row[key]] under [if key in row]. *)
Definition row_pop (key : string) (row : Row) : Row :=
  List.filter (fun item => negb (String.eqb (fst item) key)) row.

(** [d[key] = value]: the value of a key of the dictionary is replaced
    where it stands, a new key is put last. *)
Fixpoint row_set (key value : string) (row : Row) : Row :=
  match row with
  | [] => [(key, value)]
  | (k, v) :: rest =>
      if String.eqb k key then (k, value) :: rest else (k, v) :: row_set key value rest
  end.

(** [dict(zip(fieldnames, line))], the row that [csv.DictReader] makes
    of a line with one cell for each name. *)
Definition zip_dict (fieldnames line : list string) : Row :=
  fold_left (fun row item => row_set (fst item) (snd item) row) (combine fieldnames line) [].

(** The columns but ["body"]: [[c for c in ... if c != "body"]]. *)
Definition without_body (cols : list string) : list string :=
  List.filter (fun c => negb (String.eqb c "body")) cols.

(** A CSV file as [csv.DictWriter] writes it: the header and the lines
    of cells. *)
Record CsvFile := {
  fieldnames : list string;
  lines : list (list string)
}.

(** [DictWriter._dict_to_list] with the default [extrasaction] and
    [restval]: [ValueError] ([None] here) when the dictionary has a key
    that is no field name; else the cell of each field name, empty where
    the dictionary has none. *)
Definition dict_to_list (fieldnames : list string) (row : Row) : option (list string) :=
  if forallb (fun k => list_in k fieldnames) (keys row)
  then Some (map (row_get row) fieldnames)
  else None.

(** The rows written one after the other; the writing stops at the
    first [ValueError].  The result is the lines written and whether all
    rows were written. *)
Fixpoint write_rows (fieldnames : list string) (rows : list Row)
    : list (list string) * bool :=
  match rows with
  | [] => ([], true)
  | row :: rest =>
      match dict_to_list fieldnames row with
      | None => ([], false)
      | Some line =>
          let '(written, ok) := write_rows fieldnames rest in
          (line :: written, ok)
      end
  end.

End Csv.

(** ** [clean_data.py]: the cleaning of the miner's CSV files *)

Module Cleaning.

Import Py Text Cleaner Csv.
Local Open Scope string_scope.
Local Open Scope list_scope.
Local Open Scope Z_scope.

(** The search terms of the cleaning stage. *)
Definition SEARCH_TERMS : list string :=
  [ "i18n"; "l10n"; "localization"; "internationalization"; "translation";
    "missing translation"; "mistranslation"; "locale"; "date format";
    "time format"; "currency";
    "rtl"; "right-to-left"; "right to left";
    "wrong translation"; "not translated"; "text direction"; "mirrored layout" ].

Definition MIN_IMAGE_SIZE : Z := 80.

(** What [requests.get(url, timeout=10)] and [Image.open] give for an
    image URL: an exception of the request, or a status code and, when
    the content is an image that PIL can open, its width and height. *)
Inductive ImageResponse :=
| ImageError
| ImageReply (status_code : Z) (size : option (Z * Z)).

Record Counters := {
  total_scanned : Z;
  kept : Z;
  removed_bug_keyword : Z;
  removed_search_term : Z;
  removed_image : Z
}.

(** A line of [cleaning_log.csv]. *)
Record LogRow := {
  log_issue_id : string;
  log_csv_file : string;
  log_removed_by : string;
  log_title : string
}.

(** The counters at the start of [main]. *)
Definition no_counts : Counters :=
  {| total_scanned := 0; kept := 0; removed_bug_keyword := 0;
     removed_search_term := 0; removed_image := 0 |}.

(** What [process_single_csv] leaves for one input file: no cleaned file
    when no row is valid; else the cleaned file, or the part of it
    written when [writer.writerow] raises [ValueError]. *)
Inductive Outcome :=
| NoValidIssues
| Saved (cleaned : CsvFile)
| WriteFailed (partial : CsvFile).

(** The number of lines of [cleaning_log.csv] with a given verdict. *)
Definition logged_as (verdict : string) (log : list LogRow) : Z :=
  Z.of_nat (length (List.filter (fun l => String.eqb (log_removed_by l) verdict) log)).

Section Pipeline.

(** [str.lower] and [str.strip]. *)
Variable lower : string -> string.
Variable strip : string -> string.
(** The outside world: its state and what an image URL answers. *)
Variable World : Type.
Variable get_image : World -> string -> World * ImageResponse.

(** What the cleaning has changed so far: the shared counters, the log
    lines written, the content of [cleaning_stats.csv] (absent until
    [save_stats] is first called), the world, and the image URLs
    requested, in order. *)
Record State := {
  st_counters : Counters;
  st_log : list LogRow;
  st_stats : option Counters;
  st_world : World;
  st_requests : list string
}.

Definition contains_valid_search_term (text : string) : bool :=
  match text with
  | EmptyString => false
  | _ =>
      let t := lower text in
      any (fun term => str_in term t) SEARCH_TERMS
  end.

Definition image_is_valid (url : string) (w : World) : bool * World :=
  let '(w1, resp) := get_image w url in
  match resp with
  | ImageError => (false, w1)
  | ImageReply status size =>
      if negb (status =? 200) then (false, w1)
      else
        match size with
        | None => (false, w1)
        | Some (width, height) =>
            ((MIN_IMAGE_SIZE <? width) && (MIN_IMAGE_SIZE <? height), w1)
        end
  end.

(** [[u.strip() for u in urls_str.split(",") if u.strip()]]. *)
Definition split_urls (urls_str : string) : list string :=
  map strip (List.filter (fun u => truthy (strip u)) (split_on "," urls_str)).

(** [any(image_is_valid(url) for url in urls)]: the URLs are tried in
    order, up to the first valid one.  The result comes with the world
    after the requests and with the URLs requested. *)
Fixpoint any_image_is_valid (urls : list string) (w : World)
    : bool * World * list string :=
  match urls with
  | [] => (false, w, [])
  | url :: rest =>
      let '(ok, w1) := image_is_valid url w in
      if ok then (true, w1, [url])
      else
        let '(r, w2, requested) := any_image_is_valid rest w1 in
        (r, w2, url :: requested)
  end.

Definition any_valid_image (urls_str : string) (w : World) : bool * World * list string :=
  match urls_str with
  | EmptyString => (false, w, [])
  | _ => any_image_is_valid (split_urls urls_str) w
  end.

(** [counters[key] += 1]. *)
Definition scanned (c : Counters) : Counters :=
  {| total_scanned := total_scanned c + 1; kept := kept c;
     removed_bug_keyword := removed_bug_keyword c;
     removed_search_term := removed_search_term c;
     removed_image := removed_image c |}.

Definition count_bug_keyword (c : Counters) : Counters :=
  {| total_scanned := total_scanned c; kept := kept c;
     removed_bug_keyword := removed_bug_keyword c + 1;
     removed_search_term := removed_search_term c;
     removed_image := removed_image c |}.

Definition count_search_term (c : Counters) : Counters :=
  {| total_scanned := total_scanned c; kept := kept c;
     removed_bug_keyword := removed_bug_keyword c;
     removed_search_term := removed_search_term c + 1;
     removed_image := removed_image c |}.

Definition count_image (c : Counters) : Counters :=
  {| total_scanned := total_scanned c; kept := kept c;
     removed_bug_keyword := removed_bug_keyword c;
     removed_search_term := removed_search_term c;
     removed_image := removed_image c + 1 |}.

Definition count_kept (c : Counters) : Counters :=
  {| total_scanned := total_scanned c; kept := kept c + 1;
     removed_bug_keyword := removed_bug_keyword c;
     removed_search_term := removed_search_term c;
     removed_image := removed_image c |}.

(** [combined_text] of a row. *)
Definition combined_text (row : Row) : string :=
  lower (row_get row "title" +:+ " " +:+ row_get row "body" +:+ " "
         +:+ row_get row "labels").

(** The two rules on the text of a row. *)
Definition passes_text_rules (row : Row) : bool :=
  contains_bug_keyword lower (combined_text row)
  && contains_valid_search_term (combined_text row).

(** The end of each branch of the row loop: the log line, then
    [save_stats(counters)]. *)
Definition record_row (csv_name : string) (row : Row) (removed_by : string)
    (c : Counters) (w : World) (requested : list string) (st : State) : State :=
  {| st_counters := c;
     st_log := st_log st ++
               [{| log_issue_id := row_get row "issue_id";
                   log_csv_file := csv_name;
                   log_removed_by := removed_by;
                   log_title := row_get row "title" |}];
     st_stats := Some c;
     st_world := w;
     st_requests := st_requests st ++ requested |}.

(** The [for row in tqdm(reader, ...)] loop of [process_single_csv]. *)
Fixpoint rows_loop (csv_name : string) (reader : list Row) (valid_rows : list Row)
    (st : State) : list Row * State :=
  match reader with
  | [] => (valid_rows, st)
  | row :: rest =>
      let c := scanned (st_counters st) in
      let text := combined_text row in
      if negb (contains_bug_keyword lower text) then
        rows_loop csv_name rest valid_rows
          (record_row csv_name row "bug_keyword" (count_bug_keyword c) (st_world st) [] st)
      else if negb (contains_valid_search_term text) then
        rows_loop csv_name rest valid_rows
          (record_row csv_name row "search_term" (count_search_term c) (st_world st) [] st)
      else
        let '(ok, w1, requested) := any_valid_image (row_get row "image_urls") (st_world st) in
        if negb ok then
          rows_loop csv_name rest valid_rows
            (record_row csv_name row "image" (count_image c) w1 requested st)
        else
          rows_loop csv_name rest (valid_rows ++ [row])
            (record_row csv_name row "kept" (count_kept c) w1 requested st)
  end.

(** [process_single_csv] on the rows [reader] read from the file
    [csv_name].  The cleaned file has the keys of the first valid row
    but ["body"] as its columns; each valid row is written after its
    ["body"] has been taken out. *)
Definition process_single_csv (csv_name : string) (reader : list Row) (st : State)
    : Outcome * State :=
  let '(valid_rows, st') := rows_loop csv_name reader [] st in
  match valid_rows with
  | [] => (NoValidIssues, st')
  | first :: _ =>
      let names := without_body (keys first) in
      let '(written, ok) := write_rows names (map (row_pop "body") valid_rows) in
      let file := {| fieldnames := names; lines := written |} in
      (if ok then Saved file else WriteFailed file, st')
  end.

(** The [for csv_file in csv_files] loop of [main]; a [ValueError] of
    the writer ends the run. *)
Fixpoint files_loop (csv_files : list (string * list Row)) (st : State)
    : list (string * Outcome) * State :=
  match csv_files with
  | [] => ([], st)
  | (name, reader) :: rest =>
      let '(out, st1) := process_single_csv name reader st in
      match out with
      | WriteFailed _ => ([("cleaned_" +:+ name, out)], st1)
      | _ =>
          let '(more, st2) := files_loop rest st1 in
          (("cleaned_" +:+ name, out) :: more, st2)
      end
  end.

(** [main] on the CSV files of [output/] in sorted order, each with the
    rows read from it: nothing is done when there is none; else the log
    is opened and the files are cleaned in turn, with one set of
    counters and one log. *)
Definition main (csv_files : list (string * list Row)) (w : World)
    : option (list (string * Outcome) * State) :=
  match csv_files with
  | [] => None
  | _ :: _ =>
      Some (files_loop csv_files
              {| st_counters := no_counts; st_log := []; st_stats := None;
                 st_world := w; st_requests := [] |})
  end.

End Pipeline.

End Cleaning.

(** ** [combine_csv.py]: the merge of the CSV files *)

Module Combine.

Import Py Csv.
Local Open Scope string_scope.
Local Open Scope list_scope.

(** What reading one file of [output/] gives: the names of its header
    (none when the file cannot be opened or has no header) and the rows
    that the reader yields before the file ends or an exception stops
    the reading. *)
Record Reading := {
  header : list string;
  rows_read : list Row
}.

(** The state of the merge: [merged_rows] and the set [all_fieldnames]. *)
Record Merge := {
  merged_rows : list Row;
  all_fieldnames : gset string
}.

(** The body of [for csv_file in csv_files]. *)
Definition read_file (f : Reading) (m : Merge) : Merge :=
  match header f with
  | [] => m
  | _ :: _ =>
      {| merged_rows := merged_rows m ++ map (row_pop "body") (rows_read f);
         all_fieldnames := all_fieldnames m ∪ list_to_set (without_body (header f)) |}
  end.

(** The first half of the script: it exits when [output/] has no CSV
    file; else it reads the files in turn. *)
Definition collect (csv_files : list Reading) : option Merge :=
  match csv_files with
  | [] => None
  | _ :: _ =>
      Some (fold_left (fun m f => read_file f m) csv_files
              {| merged_rows := []; all_fieldnames := ∅ |})
  end.

(** The second half: [merged_issues.csv] is written under the columns
    [cols], which is [list(all_fieldnames)], the names of the set in an
    order that is not fixed.  The result is the file and whether all
    rows were written (a [ValueError] is caught and ends the writing). *)
Definition write_merged (cols : list string) (m : Merge) : CsvFile * bool :=
  let '(written, ok) := write_rows cols (merged_rows m) in
  ({| fieldnames := cols; lines := written |}, ok).

(** [merged_issues.csv] lies in [output/]: a later run of the script
    finds it among the files it reads. *)
Definition read_back (file : CsvFile) : Reading :=
  {| header := fieldnames file;
     rows_read := map (zip_dict (fieldnames file)) (lines file) |}.

End Combine.

(** ** Concrete runs *)

Module Demo.

Import Py Calendar Miner Text Output Csv.
Local Open Scope string_scope.
Local Open Scope list_scope.
Local Open Scope Z_scope.

(** Two pages served to the first two requests of a crawl: the first
    report alone, then the first report again with a second one. *)
Definition two_pages : Script.World :=
  [Script.Success [Script.item1]; Script.Success [Script.item1; Script.item2]].

(** Image URLs that answer: a screenshot of 640 by 480 pixels, an icon
    of 16 by 16, a picture exactly 80 pixels wide, a missing file. *)
Definition get_image (w : unit) (url : string) : unit * Cleaning.ImageResponse :=
  if String.eqb url "https://example.org/shot.png"
  then (w, Cleaning.ImageReply 200 (Some (640, 480)))
  else if String.eqb url "https://example.org/icon.png"
  then (w, Cleaning.ImageReply 200 (Some (16, 16)))
  else if String.eqb url "https://example.org/edge.png"
  then (w, Cleaning.ImageReply 200 (Some (80, 600)))
  else if String.eqb url "https://example.org/gone.png"
  then (w, Cleaning.ImageReply 404 None)
  else (w, Cleaning.ImageError).

Definition make_row (issue_id title body labels image_urls : string) : Row :=
  [ ("issue_id", issue_id); ("repo_full", "acme/app"); ("repo", "app");
    ("title", title); ("body", body);
    ("url", "https://github.com/acme/app/issues/" +:+ issue_id);
    ("labels", labels); ("image_urls", image_urls);
    ("bug_types", EmptyString); ("search_terms_found", EmptyString);
    ("created_at", "2024-03-05T10:00:00Z") ].

(** Kept: a bug keyword, a search term and, after an icon, a valid
    image. *)
Definition row_kept : Row :=
  make_row "1" "Wrong date format in German locale" "The date is broken." "bug"
    "https://example.org/icon.png, https://example.org/shot.png".

(** No bug keyword of the table (the phrase "not translated" is none). *)
Definition row_no_keyword : Row :=
  make_row "2" "Menu is not translated" "The settings menu stays in English." "i18n"
    "https://example.org/shot.png".

(** A bug keyword but no search term. *)
Definition row_no_term : Row :=
  make_row "3" "Crash on startup" "An error is shown." EmptyString
    "https://example.org/shot.png".

(** A bug keyword and a search term, but no valid image. *)
Definition row_no_image : Row :=
  make_row "4" "Currency symbol missing" "Wrong currency." EmptyString
    "https://example.org/edge.png, https://example.org/gone.png".

Definition quarter_rows : list Row :=
  [row_no_keyword; row_kept; row_no_term; row_no_image].

Definition quarter_file_name : string := "l10n_i18n_issues_2024_Q1.csv".

(** Two files read by the merge, the second without a ["labels"]
    column. *)
Definition reading_a : Combine.Reading :=
  {| Combine.header := csv_keys; Combine.rows_read := [row_kept; row_no_term] |}.

Definition reading_b : Combine.Reading :=
  {| Combine.header := ["issue_id"; "title"; "body"];
     Combine.rows_read := [[("issue_id", "9"); ("title", "RTL layout"); ("body", "x")]] |}.

(** An issue with two images. *)
Definition issue_two_images : Issue :=
  {| issue_id := Some 103;
     repo_full := "acme/app";
     repo := "app";
     title := "Wrong date format in German locale";
     url := Some "https://github.com/acme/app/issues/11";
     body := "The date is broken.";
     labels := ["bug"];
     image_urls := ["https://example.org/icon.png"; "https://example.org/shot.png"];
     bug_types := ["locale_issue"];
     search_terms_found := ["locale"; "date format"];
     created_at := Some "2024-03-05T10:00:00Z" |}.

(** A service that answers by the dates and the term of the request,
    not by its position: the report of [Script.item1] is served to the
    term ["l10n"] for the window that ends on 2024-03-31, and an older
    copy of it, under the same URL and with another title, to the term
    ["i18n"] for the window that ends on 2024-03-01. *)
Definition item1_older : RawItem :=
  {| raw_id := Some 101;
     raw_title := "Menu not translated (first report)";
     raw_body := Some "The settings menu stays in English.";
     raw_html_url := Some "https://github.com/acme/app/issues/7";
     raw_comments_url := Some "https://api.github.com/repos/acme/app/issues/7/comments";
     raw_repository_url := "https://api.github.com/repos/acme/app";
     raw_labels := ["i18n"];
     raw_created_at := Some "2024-02-05T10:00:00Z" |}.

Definition dated_search (w : unit) (rq : SearchRequest) : unit * SearchResponse :=
  if (rq_page rq =? 1) && String.eqb (rq_term rq) "l10n"
     && (rq_until rq =? ymd2ord 2024 3 31)
  then (w, Script.Success [Script.item1])
  else if (rq_page rq =? 1) && String.eqb (rq_term rq) "i18n"
          && (rq_until rq =? ymd2ord 2024 3 1)
  then (w, Script.Success [item1_older])
  else (w, HttpReply 200 []).

Definition no_comments (w : unit) (comments_url : option string)
    : unit * CommentsResponse :=
  (w, CommentsReply 200 []).

(** The copy of the report that the pager builds for ["l10n"]. *)
Definition issue1_l10n : Issue :=
  {| issue_id := Some 101;
     repo_full := "acme/app";
     repo := "app";
     title := "Menu is not translated";
     url := Some "https://github.com/acme/app/issues/7";
     body := "The settings menu stays in English.";
     labels := ["i18n"];
     image_urls := [];
     bug_types := ["missing_translation"];
     search_terms_found := ["not translated"; "l10n"];
     created_at := Some "2024-03-05T10:00:00Z" |}.

End Demo.

(** * Properties *)

Import Py Calendar Miner.
Local Open Scope string_scope.
Local Open Scope list_scope.
Local Open Scope Z_scope.

(** Closed comparisons of integers. *)
Ltac decide_bounds :=
  vm_compute; repeat split; let H := fresh in intro H; discriminate H.

(** ** Strings *)

Lemma startswith_spec (p s : string) :
  startswith s p = true <-> exists rest, s = p +:+ rest.
Proof.
  revert s; induction p as [|c p IH]; intros s; simpl.
  - split; [intros _; exists s; reflexivity | reflexivity].
  - destruct s as [|d s].
    + split; [discriminate | intros [rest H]; discriminate].
    + destruct (Ascii.eqb_spec c d) as [->|Hne].
      * rewrite IH. split; intros [rest H]; exists rest.
        -- now rewrite H.
        -- now inversion H.
      * split; [discriminate | intros [rest H]; inversion H; congruence].
Qed.

Lemma str_in_spec (needle hay : string) :
  str_in needle hay = true <-> occurs_in needle hay.
Proof.
  unfold occurs_in.
  induction hay as [|d hay IH].
  - simpl. rewrite orb_false_r, startswith_spec. split.
    + intros [rest H]. exists EmptyString, rest. exact H.
    + intros [pre [post H]]. destruct pre; simpl in H.
      * exists post. exact H.
      * discriminate.
  - cbn [str_in]. rewrite orb_true_iff, IH, startswith_spec. split.
    + intros [[rest H] | [pre [post H]]].
      * exists EmptyString, rest. exact H.
      * exists (String d pre), post. simpl. now rewrite H.
    + intros [pre [post H]]. destruct pre as [|e pre]; simpl in H.
      * left. exists post. exact H.
      * right. inversion H; subst. exists pre, post. reflexivity.
Qed.

Lemma str_in_false (needle hay : string) :
  str_in needle hay = false <-> ~ occurs_in needle hay.
Proof.
  rewrite <- str_in_spec. destruct (str_in needle hay); split; congruence.
Qed.

Lemma list_in_spec (x : string) (l : list string) :
  list_in x l = true <-> In x l.
Proof.
  unfold list_in. rewrite existsb_exists. split.
  - intros [y [Hy He]]. apply String.eqb_eq in He. now subst.
  - intros H. exists x. split; [exact H | apply String.eqb_refl].
Qed.

(** ** Matched terms ([detect_search_terms]) *)

Lemma SEARCH_TERMS_NoDup : NoDup SEARCH_TERMS.
Proof. apply (bool_decide_unpack _). vm_compute. reflexivity. Qed.

Lemma found_terms_spec (lower : string -> string) (text t : string) :
  In t (List.filter (fun t => str_in (lower t) (lower text)) SEARCH_TERMS) <->
  In t SEARCH_TERMS /\ occurs_in (lower t) (lower text).
Proof. rewrite filter_In, str_in_spec. reflexivity. Qed.

(** C9. For every combined text and every triggering term, the terms
    returned by [detect_search_terms] are exactly the configured search
    terms whose lowercase form occurs in the lowercased text, plus the
    triggering term; the triggering term is always among them, whether
    or not it occurs in the text; every configured term is checked, and
    no term is returned twice. *)
Theorem detect_search_terms_exact (lower : string -> string)
    (text : option string) (term : string) :
  (forall t : string,
      In t (detect_search_terms lower text term) <->
      (In t SEARCH_TERMS /\ occurs_in (lower t) (lower (or_empty text))) \/ t = term)
  /\ In term (detect_search_terms lower text term)
  /\ NoDup (detect_search_terms lower text term).
Proof.
  unfold detect_search_terms.
  set (found := List.filter _ SEARCH_TERMS).
  assert (Hfound : forall t, In t found <->
            In t SEARCH_TERMS /\ occurs_in (lower t) (lower (or_empty text)))
    by (intros t; apply found_terms_spec).
  assert (Hnd : NoDup found).
  { apply NoDup_ListNoDup, List.NoDup_filter, NoDup_ListNoDup, SEARCH_TERMS_NoDup. }
  destruct (list_in term found) eqn:Hin; simpl.
  - apply list_in_spec in Hin. repeat split.
    + intros H. left. now apply Hfound.
    + intros [H | ->]; [now apply Hfound | exact Hin].
    + exact Hin.
    + exact Hnd.
  - assert (Hnot : ~ In term found).
    { intros H. apply list_in_spec in H. congruence. }
    repeat split.
    + intros H. apply in_app_or in H as [H | [<- | []]].
      * left. now apply Hfound.
      * now right.
    + intros [H | ->]; apply in_or_app.
      * left. now apply Hfound.
      * right. now left.
    + apply in_or_app. right. now left.
    + apply NoDup_app. repeat split.
      * exact Hnd.
      * intros x Hx Hx'. apply list_elem_of_In in Hx, Hx'.
        destruct Hx' as [<- | []]. contradiction.
      * apply NoDup_singleton.
Qed.

Lemma detect_search_terms_exact_witness :
  In "rtl" (detect_search_terms ascii_lower (Some "Dates use the wrong Locale") "rtl")
  /\ In "locale" (detect_search_terms ascii_lower (Some "Dates use the wrong Locale") "rtl")
  /\ ~ In "i18n" (detect_search_terms ascii_lower (Some "Dates use the wrong Locale") "rtl").
Proof.
  destruct (detect_search_terms_exact ascii_lower (Some "Dates use the wrong Locale") "rtl")
    as (Hexact & Hterm & _).
  split; [exact Hterm | split].
  - apply Hexact. left. split.
    + vm_compute. auto 20.
    + apply str_in_spec. vm_compute. reflexivity.
  - intros H. apply Hexact in H as [[_ H] | H].
    + apply str_in_spec in H. vm_compute in H. discriminate H.
    + discriminate H.
Defined.

(** ** The bug-keyword filter ([contains_bug_keyword]) *)

(** C10. The keyword table holds the single keyword
    "not workingnot translated" where the two phrases "not working" and
    "not translated" were meant: neither phrase is a keyword of its own,
    and the table has 24 entries.  So for every text whose lowercase form
    contains "not translated" or "not working" but no keyword of the
    table, [contains_bug_keyword] is false; the two phrases themselves
    are such texts. *)
Theorem contains_bug_keyword_misses_joined_phrases :
  (In "not workingnot translated" Cleaner.BUG_KEYWORDS
   /\ ~ In "not translated" Cleaner.BUG_KEYWORDS
   /\ ~ In "not working" Cleaner.BUG_KEYWORDS
   /\ length Cleaner.BUG_KEYWORDS = 24%nat)
  /\ (forall (lower : string -> string) (text : string),
        occurs_in "not translated" (lower text) \/ occurs_in "not working" (lower text) ->
        (forall k, In k Cleaner.BUG_KEYWORDS -> ~ occurs_in k (lower text)) ->
        Cleaner.contains_bug_keyword lower text = false)
  /\ Cleaner.contains_bug_keyword ascii_lower "not translated" = false
  /\ Cleaner.contains_bug_keyword ascii_lower "not working" = false
  /\ Cleaner.contains_bug_keyword ascii_lower "The menu is NOT translated" = false.
Proof.
  split; [|split; [|repeat split; reflexivity]].
  - repeat split.
    + rewrite <- list_elem_of_In. apply (bool_decide_unpack _). vm_compute. reflexivity.
    + rewrite <- list_elem_of_In. apply (bool_decide_unpack _). vm_compute. reflexivity.
    + rewrite <- list_elem_of_In. apply (bool_decide_unpack _). vm_compute. reflexivity.
  - intros lower text _ Hnone. unfold Cleaner.contains_bug_keyword.
    destruct text as [|c text]; [reflexivity|].
    unfold any. apply not_true_is_false. intros Hex.
    apply existsb_exists in Hex as [k [Hk Hin]].
    apply str_in_spec in Hin. exact (Hnone k Hk Hin).
Qed.

Lemma no_bug_keyword_occurs (text : string) :
  forallb (fun k => negb (str_in k text)) Cleaner.BUG_KEYWORDS = true ->
  forall k, In k Cleaner.BUG_KEYWORDS -> ~ occurs_in k text.
Proof.
  intros H k Hk. rewrite forallb_forall in H. specialize (H k Hk).
  apply str_in_false. now destruct (str_in k text).
Qed.

Lemma contains_bug_keyword_misses_joined_phrases_witness :
  Cleaner.contains_bug_keyword ascii_lower "a label is not translated" = false.
Proof.
  apply (proj1 (proj2 contains_bug_keyword_misses_joined_phrases)).
  - left. apply str_in_spec. vm_compute. reflexivity.
  - apply no_bug_keyword_occurs. vm_compute. reflexivity.
Defined.

(** ** Quarter bounds *)

Lemma leap_rule (year : Z) :
  is_leap year = true <->
  year mod 4 = 0 /\ (year mod 100 <> 0 \/ year mod 400 = 0).
Proof.
  unfold is_leap.
  rewrite andb_true_iff, orb_true_iff, negb_true_iff, !Z.eqb_eq, Z.eqb_neq.
  reflexivity.
Qed.

Lemma month_cases (m : Z) :
  1 <= m <= 12 ->
  m = 1 \/ m = 2 \/ m = 3 \/ m = 4 \/ m = 5 \/ m = 6 \/
  m = 7 \/ m = 8 \/ m = 9 \/ m = 10 \/ m = 11 \/ m = 12.
Proof. lia. Qed.

Lemma last_day_is_days_in_month (year m : Z) :
  1 <= m <= 12 -> last_day year m = days_in_month year m.
Proof.
  intros Hm. apply month_cases in Hm.
  unfold last_day, days_in_month, is_leap.
  repeat (destruct Hm as [-> | Hm]); try subst m; reflexivity.
Qed.

Lemma days_before_year_nonneg (year : Z) : 1 <= year -> 0 <= days_before_year year.
Proof.
  intros H. unfold days_before_year. cbv zeta.
  assert (H4 : 0 <= (year - 1) / 400) by (apply Z.div_pos; lia).
  assert (H100 : (year - 1) / 100 <= (year - 1) / 4)
    by (apply Z.div_le_compat_l; lia).
  nia.
Qed.

Lemma days_before_year_max (year : Z) :
  1 <= year <= 9999 ->
  days_before_year year + (if is_leap year then 1 else 0) <= 3651694.
Proof.
  intros H. unfold days_before_year. cbv zeta.
  destruct (Z.eq_dec year 9999) as [-> | Hne]; [vm_compute; discriminate|].
  assert (Hleap : (if is_leap year then 1 else 0) <= 1) by (destruct (is_leap year); lia).
  assert (H4 : (year - 1) / 4 < 2500) by (apply Z.div_lt_upper_bound; lia).
  assert (H100 : 0 <= (year - 1) / 100) by (apply Z.div_pos; lia).
  assert (H400 : (year - 1) / 400 < 25) by (apply Z.div_lt_upper_bound; lia).
  lia.
Qed.

Lemma quarter_cases (q m_start m_end : Z) :
  In (q, (m_start, m_end)) quarters ->
  (q = 1 /\ m_start = 1 /\ m_end = 3) \/ (q = 2 /\ m_start = 4 /\ m_end = 6) \/
  (q = 3 /\ m_start = 7 /\ m_end = 9) \/ (q = 4 /\ m_start = 10 /\ m_end = 12).
Proof.
  unfold quarters. simpl.
  intros [H | [H | [H | [H | []]]]]; inversion H; auto 10.
Qed.

Lemma datetime_valid (year month day : Z) :
  1 <= year <= 9999 -> 1 <= month <= 12 -> 1 <= day <= days_in_month year month ->
  datetime year month day = Some (ymd2ord year month day).
Proof.
  intros Hy Hm Hd. unfold datetime, MINYEAR, MAXYEAR.
  repeat match goal with
         | |- context [?a <=? ?b] =>
             destruct (Z.leb_spec a b); [| lia]
         end.
  reflexivity.
Qed.

Lemma datetime_year_range (year month day d : Z) :
  datetime year month day = Some d -> 1 <= year <= 9999.
Proof.
  unfold datetime, MINYEAR, MAXYEAR.
  destruct (Z.leb_spec 1 year), (Z.leb_spec year 9999); simpl; try discriminate.
  lia.
Qed.

(** The span of a quarter of a year that [datetime] accepts. *)
Lemma quarter_span_valid (year q m_start m_end : Z) :
  1 <= year <= 9999 -> In (q, (m_start, m_end)) quarters ->
  quarter_span year m_start m_end =
    Some (ymd2ord year m_start 1, ymd2ord year m_end (days_in_month year m_end)).
Proof.
  intros Hy Hq. unfold quarter_span.
  assert (Hms : 1 <= m_start <= 12 /\ 1 <= m_end <= 12)
    by (apply quarter_cases in Hq; lia).
  assert (Hdim : 28 <= days_in_month year m_end).
  { unfold days_in_month. repeat destruct (_ =? _); simpl; try destruct (is_leap year); lia. }
  assert (Hdim' : 28 <= days_in_month year m_start).
  { unfold days_in_month. repeat destruct (_ =? _); simpl; try destruct (is_leap year); lia. }
  rewrite last_day_is_days_in_month by lia.
  rewrite !datetime_valid by lia. reflexivity.
Qed.

Lemma quarter_span_inv (year q m_start m_end q_start q_end : Z) :
  In (q, (m_start, m_end)) quarters ->
  quarter_span year m_start m_end = Some (q_start, q_end) ->
  1 <= year <= 9999
  /\ q_start = ymd2ord year m_start 1
  /\ q_end = ymd2ord year m_end (days_in_month year m_end).
Proof.
  intros Hq Hs.
  assert (Hy : 1 <= year <= 9999).
  { unfold quarter_span in Hs.
    destruct (datetime year m_start 1) eqn:E; [|discriminate].
    eapply datetime_year_range; eauto. }
  rewrite (quarter_span_valid year q) in Hs by assumption.
  inversion Hs; subst. auto.
Qed.

(** A quarter starts on or after day 1, ends on or before
    [datetime.max], and does not end before it starts. *)
Lemma quarter_span_bounds (year q m_start m_end q_start q_end : Z) :
  In (q, (m_start, m_end)) quarters ->
  quarter_span year m_start m_end = Some (q_start, q_end) ->
  1 <= q_start /\ q_start <= q_end /\ q_end <= MAXORDINAL /\ q_end - q_start <= 91.
Proof.
  intros Hq Hs.
  destruct (quarter_span_inv _ _ _ _ _ _ Hq Hs) as (Hy & -> & ->).
  pose proof (days_before_year_nonneg year ltac:(lia)) as H0.
  pose proof (days_before_year_max year Hy) as H1.
  unfold ymd2ord, days_before_month, days_in_month, MAXORDINAL.
  apply quarter_cases in Hq.
  destruct Hq as [(-> & -> & ->) | [(-> & -> & ->) | [(-> & -> & ->) | (-> & -> & ->)]]];
    simpl; destruct (is_leap year); simpl; lia.
Qed.


(** C5 (as amended). In every year that [datetime] accepts, the end
    date computed for Q1 is March 31, in leap years and in common years
    alike, since Q1 is January to March; each quarter's end date is the
    last calendar day of the quarter's final month (March 31, June 30,
    September 30, December 31).  The leap-year rule is in the day
    computation (29 for February exactly when
    [year % 4 == 0 and (year % 100 != 0 or year % 400 == 0)], 28
    otherwise), but no quarter ends in February. *)
Theorem quarter_end_is_last_day_of_final_month (year : Z) :
  1 <= year <= 9999 ->
  quarter_span year 1 3 = Some (ymd2ord year 1 1, ymd2ord year 3 31)
  /\ (forall q m_start m_end,
        In (q, (m_start, m_end)) quarters ->
        quarter_span year m_start m_end =
          Some (ymd2ord year m_start 1, ymd2ord year m_end (days_in_month year m_end))
        /\ last_day year m_end = days_in_month year m_end
        /\ m_end <> 2)
  /\ (last_day year 2 = 29 <->
        year mod 4 = 0 /\ (year mod 100 <> 0 \/ year mod 400 = 0))
  /\ (last_day year 2 = 28 <->
        ~ (year mod 4 = 0 /\ (year mod 100 <> 0 \/ year mod 400 = 0))).
Proof.
  intros Hy. split; [|split; [|split]].
  - rewrite (quarter_span_valid year 1) by (simpl; auto). reflexivity.
  - intros q ms me Hq. split; [|split].
    + now apply (quarter_span_valid year q).
    + apply last_day_is_days_in_month. apply quarter_cases in Hq. lia.
    + apply quarter_cases in Hq. lia.
  - rewrite <- leap_rule. rewrite last_day_is_days_in_month by lia.
    unfold days_in_month. simpl. destruct (is_leap year); split; congruence.
  - rewrite <- leap_rule. rewrite last_day_is_days_in_month by lia.
    unfold days_in_month. simpl. destruct (is_leap year); split; congruence.
Qed.

Lemma quarter_end_is_last_day_of_final_month_witness :
  quarter_span 2024 1 3 = Some (ymd2ord 2024 1 1, ymd2ord 2024 3 31).
Proof.
  apply (proj1 (quarter_end_is_last_day_of_final_month 2024 ltac:(lia))).
Defined.

(** C5, refuted as stated: 2024 is a leap year, and the end date of its
    Q1 is March 31 (day 738976), not February 29 (day 738945); 2023 is
    not, and the end date of its Q1 is March 31, not February 28. *)
Lemma q1_2024_does_not_end_on_feb_29 :
  (2024 mod 4 = 0 /\ (2024 mod 100 <> 0 \/ 2024 mod 400 = 0))
  /\ nth_error quarters 0 = Some (1, (1, 3))
  /\ snd <$> quarter_span 2024 1 3 = datetime 2024 3 31
  /\ snd <$> quarter_span 2024 1 3 <> datetime 2024 2 29
  /\ snd <$> quarter_span 2023 1 3 = datetime 2023 3 31
  /\ snd <$> quarter_span 2023 1 3 <> datetime 2023 2 28.
Proof.
  vm_compute. repeat split; try discriminate. left. discriminate.
Qed.

(** ** Ranges *)

Lemma range_nil (a b : Z) : b <= a -> range a b = [].
Proof.
  intros H. unfold range. replace (Z.to_nat (b - a)) with O by lia. reflexivity.
Qed.

Lemma range_cons (a b : Z) : a < b -> range a b = a :: range (a + 1) b.
Proof.
  intros H. unfold range.
  replace (Z.to_nat (b - a)) with (S (Z.to_nat (b - (a + 1)))) by lia.
  cbn [seq map]. f_equal; [lia|].
  rewrite <- seq_shift, map_map. apply map_ext. intros i. lia.
Qed.

Lemma range_app (a m b : Z) : a <= m <= b -> range a b = range a m ++ range m b.
Proof.
  intros H. remember (Z.to_nat (m - a)) as n eqn:Hn.
  revert a H Hn. induction n as [|n IH]; intros a H Hn.
  - assert (m = a) by lia. subst m. rewrite (range_nil a a) by lia. reflexivity.
  - rewrite (range_cons a b), (range_cons a m) by lia.
    rewrite (IH (a + 1)) by lia. reflexivity.
Qed.

Lemma range_split (a b p : Z) (before after : list Z) :
  range a b = before ++ p :: after ->
  a <= p < b /\ before = range a p /\ after = range (p + 1) b.
Proof.
  revert a. induction before as [|x before IH]; intros a H.
  - destruct (Z_lt_le_dec a b) as [Hlt | Hge].
    + rewrite range_cons in H by assumption. simpl in H. inversion H; subst.
      rewrite range_nil by lia. auto with zarith.
    + rewrite range_nil in H by assumption. discriminate.
  - destruct (Z_lt_le_dec a b) as [Hlt | Hge].
    + rewrite range_cons in H by assumption. simpl in H. inversion H; subst.
      destruct (IH _ H2) as (Hp & Hb & Ha).
      repeat split; try lia; [|exact Ha].
      rewrite (range_cons x p) by lia. now f_equal.
    + rewrite range_nil in H by assumption. discriminate.
Qed.

Lemma range_NoDup (a b : Z) : NoDup (range a b).
Proof.
  unfold range. apply NoDup_ListNoDup, Finite.Injective_map_NoDup; [|apply seq_NoDup].
  intros i j. lia.
Qed.

Lemma range_In (a b x : Z) : In x (range a b) <-> a <= x < b.
Proof.
  unfold range. rewrite in_map_iff. split.
  - intros [i [<- Hi]]. apply in_seq in Hi. lia.
  - intros H. exists (Z.to_nat (x - a)). split; [lia|]. apply in_seq. lia.
Qed.

(** ** The pager ([fetch_issues_by_date]) *)

Section Pager.

Variable lower : string -> string.
Variable findall_images : string -> list string.
Variable World : Type.
Variable get_search : World -> SearchRequest -> World * SearchResponse.
Variable get_comments : World -> option string -> World * CommentsResponse.

Abbreviation items_loop := (items_loop lower findall_images World get_comments).
Abbreviation pages_loop := (pages_loop lower findall_images World get_search get_comments).
Abbreviation fetch_issues_by_date :=
  (fetch_issues_by_date lower findall_images World get_search get_comments).

Lemma fetch_issue_comments_events (comments_url : option string) (w : World) :
  Forall (fun e => searched_page e = None /\ is_sleep 60 e = false)
         (snd (fetch_issue_comments findall_images World get_comments comments_url w)).
Proof.
  unfold fetch_issue_comments.
  destruct comments_url as [u|]; [|constructor].
  destruct (get_comments w (Some u)) as [w1 [|status comments]];
    [repeat constructor|].
  destruct (negb (status =? 200)); repeat constructor.
Qed.

(** The item loop only fetches comment threads. *)
Lemma items_loop_events (term : string) (items : list RawItem) (w : World) :
  Forall (fun e => searched_page e = None /\ is_sleep 60 e = false)
         (snd (items_loop term items w)).
Proof.
  revert w. induction items as [|item rest IH]; intros w; simpl.
  - constructor.
  - pose proof (fetch_issue_comments_events (raw_comments_url item) w) as Hc.
    destruct (fetch_issue_comments _ _ _ _ w) as [[imgs w1] evs1]. simpl in Hc.
    specialize (IH w1). destruct (items_loop term rest w1) as [[more w2] evs2].
    simpl in *. apply Forall_app. split; assumption.
Qed.

Lemma items_loop_length (term : string) (items : list RawItem) (w : World) :
  length (fst (fst (items_loop term items w))) = length items.
Proof.
  revert w. induction items as [|item rest IH]; intros w; simpl; [reflexivity|].
  destruct (fetch_issue_comments _ _ _ _ w) as [[imgs w1] evs1].
  specialize (IH w1). destruct (items_loop term rest w1) as [[more w2] evs2].
  simpl in *. now rewrite IH.
Qed.

(** One iteration on a connection error: nothing is appended, nothing
    is slept, and the loop goes on with the pages that remain. *)
Lemma pages_loop_connection_error (args : Args) (term : string) (since_date until_date : Z)
    (page : Z) (rest : list Z) (issues : list Issue) (w w1 : World) :
  get_search w (request args term since_date until_date page) = (w1, ConnectionError) ->
  pages_loop args term since_date until_date (page :: rest) issues w =
    let '(r, w2, evs) := pages_loop args term since_date until_date rest issues w1 in
    (r, w2, EvSearch (request args term since_date until_date page) ConnectionError :: evs).
Proof. intros H. cbn [Miner.pages_loop]. rewrite H. reflexivity. Qed.

(** One iteration on a 403: nothing is appended, the loop sleeps 60
    seconds and goes on with the pages that remain. *)
Lemma pages_loop_throttled (args : Args) (term : string) (since_date until_date : Z)
    (page : Z) (rest : list Z) (issues : list Issue) (w w1 : World) (items : list RawItem) :
  get_search w (request args term since_date until_date page) = (w1, HttpReply 403 items) ->
  pages_loop args term since_date until_date (page :: rest) issues w =
    let '(r, w2, evs) := pages_loop args term since_date until_date rest issues w1 in
    (r, w2, EvSearch (request args term since_date until_date page) (HttpReply 403 items)
              :: EvSleep 60 :: evs).
Proof. intros H. cbn [Miner.pages_loop]. rewrite H. reflexivity. Qed.

(** The events of the loop on a non-empty page list: the request for
    the first page, then events that are not requests, then either
    nothing (a [break]) or the events of the loop on the other pages. *)
Lemma pages_loop_step (args : Args) (term : string) (since_date until_date : Z)
    (page : Z) (rest : list Z) (issues : list Issue) (w : World) :
  exists (w1 : World) (response : SearchResponse) (mid : list Event),
    get_search w (request args term since_date until_date page) = (w1, response)
    /\ Forall (fun e => searched_page e = None) mid
    /\ length (List.filter (is_sleep 60) mid)
       = length (List.filter is_throttled
                   [EvSearch (request args term since_date until_date page) response])
    /\ (snd (pages_loop args term since_date until_date (page :: rest) issues w)
          = EvSearch (request args term since_date until_date page) response :: mid
        \/ exists issues' w',
            snd (pages_loop args term since_date until_date (page :: rest) issues w)
            = EvSearch (request args term since_date until_date page) response
                :: mid ++ snd (pages_loop args term since_date until_date rest issues' w')).
Proof.
  cbn [Miner.pages_loop].
  destruct (get_search w (request args term since_date until_date page))
    as [w1 [|status items]] eqn:Hg.
  - exists w1, ConnectionError, []. repeat split; [constructor|].
    right. exists issues, w1.
    destruct (pages_loop args term since_date until_date rest issues w1) as [[r w2] evs].
    reflexivity.
  - destruct (status =? 403) eqn:H403.
    + exists w1, (HttpReply status items), [EvSleep 60]. repeat split.
      * repeat constructor.
      * simpl. rewrite H403. reflexivity.
      * right. exists issues, w1.
        destruct (pages_loop args term since_date until_date rest issues w1) as [[r w2] evs].
        reflexivity.
    + destruct (negb (status =? 200)) eqn:H200.
      * exists w1, (HttpReply status items), []. repeat split; [constructor | |now left].
        simpl. rewrite H403. reflexivity.
      * destruct items as [|item items'].
        -- exists w1, (HttpReply status []), []. repeat split; [constructor | |now left].
           simpl. rewrite H403. reflexivity.
        -- pose proof (items_loop_events term (item :: items') w1) as Hev.
           destruct (items_loop term (item :: items') w1) as [[new w2] evs_items].
           simpl in Hev.
           exists w1, (HttpReply status (item :: items')), (evs_items ++ [EvSleep 1]).
           repeat split.
           ++ apply Forall_app. split.
              ** eapply Forall_impl; [exact Hev|]. intros e [He _]. exact He.
              ** repeat constructor.
           ++ rewrite List.filter_app, length_app. simpl. rewrite H403. simpl.
              rewrite Nat.add_0_r. apply length_zero_iff_nil.
              clear -Hev. induction Hev as [|e l [_ He] _ IH]; simpl; [reflexivity|].
              rewrite He. exact IH.
           ++ right. exists (issues ++ new), w2.
              destruct (pages_loop args term since_date until_date rest (issues ++ new) w2)
                as [[r w3] evs].
              simpl. rewrite <- app_assoc. reflexivity.
Qed.

Lemma no_search_split (mid tail pre post : list Event) (rq : SearchRequest)
    (rs : SearchResponse) :
  Forall (fun e => searched_page e = None) mid ->
  mid ++ tail = pre ++ EvSearch rq rs :: post ->
  exists pre', pre = mid ++ pre' /\ tail = pre' ++ EvSearch rq rs :: post.
Proof.
  intros Hmid. revert pre. induction Hmid as [|m mid Hm _ IH]; intros pre H.
  - exists pre. auto.
  - destruct pre as [|e pre]; simpl in H; inversion H; subst.
    + discriminate.
    + destruct (IH _ H2) as [pre' [-> Ht]]. exists pre'. auto.
Qed.

Lemma no_search_pages (mid : list Event) :
  Forall (fun e => searched_page e = None) mid ->
  searched_pages mid = [] /\ List.filter is_throttled mid = [].
Proof.
  induction 1 as [|e mid He _ [IH1 IH2]]; [auto|].
  destruct e as [rq rs| |]; try discriminate; simpl; auto.
Qed.

(** Every request in the trace of the page loop opens an iteration of
    that loop: the pages before it have all been requested, once each,
    and what follows is the rest of the loop from that page on. *)
Lemma pages_loop_search_event (args : Args) (term : string) (since_date until_date : Z)
    (pages : list Z) (issues : list Issue) (w : World)
    (pre post : list Event) (rq : SearchRequest) (rs : SearchResponse) :
  snd (pages_loop args term since_date until_date pages issues w)
    = pre ++ EvSearch rq rs :: post ->
  exists (rest : list Z) (issues0 : list Issue) (w0 w1 : World),
    pages = searched_pages pre ++ rq_page rq :: rest
    /\ rq = request args term since_date until_date (rq_page rq)
    /\ get_search w0 rq = (w1, rs)
    /\ snd (pages_loop args term since_date until_date (rq_page rq :: rest) issues0 w0)
        = EvSearch rq rs :: post.
Proof.
  revert issues w pre. induction pages as [|page rest0 IH]; intros issues w pre H.
  - simpl in H. destruct pre; discriminate.
  - destruct (pages_loop_step args term since_date until_date page rest0 issues w)
      as (w1 & resp & mid & Hg & Hmid & _ & Hev).
    destruct pre as [|e pre].
    + assert (Hhd : EvSearch (request args term since_date until_date page) resp
                    = EvSearch rq rs).
      { destruct Hev as [Hev | (i' & w' & Hev)]; rewrite Hev in H; now inversion H. }
      inversion Hhd; subst rq rs.
      exists rest0, issues, w, w1. simpl. auto.
    + assert (Hsplit : e = EvSearch (request args term since_date until_date page) resp
              /\ exists tail, mid ++ tail = pre ++ EvSearch rq rs :: post
                   /\ (tail = [] \/ exists i' w',
                         tail = snd (pages_loop args term since_date until_date
                                       rest0 i' w'))).
      { destruct Hev as [Hev | (i' & w' & Hev)]; rewrite Hev in H;
          simpl in H; inversion H; subst; split; try reflexivity.
        - exists []. rewrite app_nil_r. auto.
        - eexists. split; [reflexivity|]. right. eauto. }
      destruct Hsplit as (-> & tail & Htail & Hcase).
      destruct (no_search_split _ _ _ _ _ _ Hmid Htail) as (pre' & -> & Ht).
      destruct Hcase as [-> | (i' & w' & ->)].
      * destruct pre'; discriminate.
      * destruct (IH _ _ _ Ht) as (rest & issues0 & w0 & w2 & Hp & Hrq & Hg0 & Hev0).
        exists rest, issues0, w0, w2. repeat split; try assumption.
        unfold searched_pages in *. cbn [omap list_omap searched_page].
        simpl. rewrite omap_app.
        destruct (no_search_pages mid Hmid) as [Hm _]. unfold searched_pages in Hm.
        rewrite Hm. simpl. now f_equal.
Qed.

(** The pages requested are an initial part of the page list, and each
    60-second wait answers one 403. *)
Lemma pages_loop_pages (args : Args) (term : string) (since_date until_date : Z)
    (pages : list Z) (issues : list Issue) (w : World) :
  (exists k : nat,
      searched_pages (snd (pages_loop args term since_date until_date pages issues w))
      = take k pages)
  /\ cooldown_waits (snd (pages_loop args term since_date until_date pages issues w))
     = throttled_responses (snd (pages_loop args term since_date until_date pages issues w)).
Proof.
  revert issues w. induction pages as [|page rest IH]; intros issues w.
  - simpl. split; [exists O|]; reflexivity.
  - destruct (pages_loop_step args term since_date until_date page rest issues w)
      as (w1 & resp & mid & Hg & Hmid & Hcount & Hev).
    destruct (no_search_pages mid Hmid) as [Hm Hthr].
    unfold cooldown_waits, throttled_responses, searched_pages in *.
    destruct Hev as [Hev | (i' & w' & Hev)]; rewrite Hev.
    + split.
      * exists 1%nat. cbn [omap list_omap searched_page]. simpl. now rewrite Hm.
      * change (EvSearch (request args term since_date until_date page) resp :: mid)
          with ([EvSearch (request args term since_date until_date page) resp] ++ mid).
        rewrite !List.filter_app, !length_app, Hthr, Hcount. simpl. lia.
    + destruct (IH i' w') as [[k Hk] Hc]. split.
      * exists (S k). cbn [omap list_omap searched_page]. simpl.
        rewrite omap_app, Hm, Hk. reflexivity.
      * change (EvSearch (request args term since_date until_date page) resp :: mid ++ ?t)
          with ([EvSearch (request args term since_date until_date page) resp] ++ mid ++ t).
        rewrite !List.filter_app, !length_app, Hthr, Hcount, Hc. simpl. lia.
Qed.

End Pager.

Section PagerTrace.

Variable lower : string -> string.
Variable findall_images : string -> list string.
Variable World : Type.
Variable get_search : World -> SearchRequest -> World * SearchResponse.
Variable get_comments : World -> option string -> World * CommentsResponse.

Abbreviation pages_loop' := (pages_loop lower findall_images World get_search get_comments).
Abbreviation fetch' :=
  (fetch_issues_by_date lower findall_images World get_search get_comments).

(** What the loop does on the pages after [page]: nothing when [page]
    was the last one, else it starts with the request for [page + 1]. *)
Lemma pages_loop_next_page (args : Args) (term : string) (since_date until_date : Z)
    (page : Z) (issues : list Issue) (w : World) :
  (page = max_pages args ->
     snd (pages_loop' args term since_date until_date
            (range (page + 1) (max_pages args + 1)) issues w) = [])
  /\ (page < max_pages args ->
        exists rs tail,
          snd (pages_loop' args term since_date until_date
                 (range (page + 1) (max_pages args + 1)) issues w)
          = EvSearch (request args term since_date until_date (page + 1)) rs :: tail).
Proof.
  split; intros Hp.
  - rewrite range_nil by lia. reflexivity.
  - rewrite range_cons by lia.
    destruct (pages_loop_step lower findall_images World get_search get_comments
                args term since_date until_date (page + 1)
                (range (page + 1 + 1) (max_pages args + 1)) issues w)
      as (w1 & resp & mid & _ & _ & _ & [Hev | (i' & w' & Hev)]);
      rewrite Hev; eauto.
Qed.

(** A request in the trace of [fetch_issues_by_date]: its page is
    within the cap, the pages before it were requested in order, it is
    not requested again, and the trace goes on as the page loop does
    from that page. *)
Lemma fetch_search_event (args : Args) (term : string) (since_date until_date : Z)
    (w : World) (pre post : list Event) (rq : SearchRequest) (rs : SearchResponse) :
  snd (fetch' args term since_date until_date w) = pre ++ EvSearch rq rs :: post ->
  1 <= rq_page rq <= max_pages args
  /\ searched_pages pre = range 1 (rq_page rq)
  /\ rq = request args term since_date until_date (rq_page rq)
  /\ ~ In (rq_page rq) (searched_pages post)
  /\ exists (issues0 : list Issue) (w0 w1 : World),
       get_search w0 rq = (w1, rs)
       /\ snd (pages_loop' args term since_date until_date
                 (rq_page rq :: range (rq_page rq + 1) (max_pages args + 1)) issues0 w0)
          = EvSearch rq rs :: post.
Proof.
  intros H. unfold Miner.fetch_issues_by_date in H.
  pose proof (pages_loop_pages lower findall_images World get_search get_comments
                args term since_date until_date (range 1 (max_pages args + 1)) [] w)
    as [[k Hk] _].
  destruct (pages_loop_search_event _ _ _ _ _ _ _ _ _ _ _ _ _ _ _ _ H)
    as (rest & issues0 & w0 & w1 & Hp & Hrq & Hg & Hev).
  destruct (range_split _ _ _ _ _ Hp) as (Hb & Hpre & Hrest).
  repeat split; try lia; try assumption.
  - rewrite H in Hk. intros Hin.
    assert (Hnd : NoDup (searched_pages (pre ++ EvSearch rq rs :: post))).
    { rewrite Hk. eapply sublist_NoDup; [apply range_NoDup | apply sublist_take]. }
    unfold searched_pages in Hnd, Hin. rewrite omap_app in Hnd.
    apply NoDup_app in Hnd as (_ & _ & Hnd).
    change (omap searched_page (EvSearch rq rs :: post))
      with (rq_page rq :: omap searched_page post) in Hnd.
    apply NoDup_cons in Hnd as [Hnd _].
    apply Hnd. now apply list_elem_of_In.
  - exists issues0, w0, w1. subst rest. auto.
Qed.

End PagerTrace.

(** C1 (as amended). When a page request is answered with HTTP 403, the
    pager waits the fixed 60 seconds and then goes on to the next page
    number: the throttled page is not requested again, and the attempt
    uses up one of the [max_pages] iterations (after a 403 on the last
    page the pager returns).  The pages requested are 1, 2, ... in
    order, each at most once, and there are as many 60-second waits as
    403 responses.  For the responses [Throttled, Throttled,
    Success(items)] and a cap of three pages, the pager requests pages
    1, 2 and 3, waits twice and returns the items of page 3. *)
Theorem throttled_page_waits_then_next_page
    (lower : string -> string) (findall_images : string -> list string) (World : Type)
    (get_search : World -> SearchRequest -> World * SearchResponse)
    (get_comments : World -> option string -> World * CommentsResponse)
    (args : Args) (term : string) (since_date until_date : Z) (w : World) :
  let evs := snd (fetch_issues_by_date lower findall_images World get_search get_comments
                    args term since_date until_date w) in
  (exists k : nat, searched_pages evs = take k (range 1 (max_pages args + 1)))
  /\ cooldown_waits evs = throttled_responses evs
  /\ (forall pre rq items post,
        evs = pre ++ EvSearch rq (HttpReply 403 items) :: post ->
        1 <= rq_page rq <= max_pages args
        /\ searched_pages pre = range 1 (rq_page rq)
        /\ ~ In (rq_page rq) (searched_pages post)
        /\ exists post',
             post = EvSleep 60 :: post'
             /\ (rq_page rq = max_pages args -> post' = [])
             /\ (rq_page rq < max_pages args ->
                   exists rs post'',
                     post' = EvSearch
                               (request args term since_date until_date (rq_page rq + 1)) rs
                             :: post''))
  /\ (let r := Script.fetch (Script.with_max_pages 3)
                 [Script.Throttled; Script.Throttled; Script.Success [Script.item1]] in
      fst (fst r) = [Script.issue1]
      /\ searched_pages (snd r) = [1; 2; 3]
      /\ cooldown_waits (snd r) = 2%nat).
Proof.
  intros evs. split; [|split; [|split]].
  - apply pages_loop_pages.
  - apply pages_loop_pages.
  - intros pre rq items post H.
    destruct (fetch_search_event _ _ _ _ _ _ _ _ _ _ _ _ _ _ H)
      as (Hb & Hpre & Hrq & Hnot & issues0 & w0 & w1 & Hg & Hev).
    repeat split; try lia; try assumption.
    rewrite Hrq in Hg.
    rewrite (pages_loop_throttled _ _ _ _ _ _ _ _ _ _ _ _ _ _ _ Hg) in Hev.
    pose proof (pages_loop_next_page lower findall_images World get_search get_comments
                  args term since_date until_date (rq_page rq) issues0 w1) as [Hlast Hnext].
    destruct (pages_loop _ _ _ _ _ args term since_date until_date
                (range (rq_page rq + 1) (max_pages args + 1)) issues0 w1)
      as [[r w2] evs'] eqn:Hl.
    simpl in Hev, Hlast, Hnext. inversion Hev; subst post.
    exists evs'. auto.
  - vm_compute. auto.
Qed.

Lemma throttled_page_waits_then_next_page_witness :
  let args := Script.with_max_pages 2 in
  let rq := request args "i18n" (ymd2ord 2024 3 2) (ymd2ord 2024 3 31) 1 in
  let post := [EvSleep 60;
               EvSearch (request args "i18n" (ymd2ord 2024 3 2) (ymd2ord 2024 3 31) 2)
                 (Script.Success [])] in
  snd (Script.fetch args [Script.Throttled; Script.Success []])
    = [] ++ EvSearch rq (HttpReply 403 []) :: post
  /\ 1 <= rq_page rq <= max_pages args
  /\ searched_pages [] = range 1 (rq_page rq)
  /\ ~ In (rq_page rq) (searched_pages post)
  /\ exists post',
       post = EvSleep 60 :: post'
       /\ (rq_page rq = max_pages args -> post' = [])
       /\ (rq_page rq < max_pages args ->
             exists rs post'',
               post' = EvSearch
                         (request args "i18n" (ymd2ord 2024 3 2) (ymd2ord 2024 3 31)
                            (rq_page rq + 1)) rs
                       :: post'').
Proof.
  intros args rq post. split; [reflexivity|].
  pose proof (throttled_page_waits_then_next_page ascii_lower Script.findall_images
                Script.World Script.get_search Script.get_comments
                args "i18n" (ymd2ord 2024 3 2) (ymd2ord 2024 3 31)
                [Script.Throttled; Script.Success []]) as H.
  destruct H as (_ & _ & H & _).
  exact (H [] rq [] post eq_refl).
Defined.

(** C1, refuted as stated: on the responses [Throttled, Throttled,
    Success(items)] the pager with the default cap of one page requests
    page 1 once, waits once and returns nothing; the second and third
    responses are never asked for.  With a cap of three pages it has
    moved to page 2 after the first 403 and to page 3 after the second. *)
Lemma throttled_page_is_not_retried :
  let script := [Script.Throttled; Script.Throttled; Script.Success [Script.item1]] in
  max_pages default_args = 1
  /\ fst (fst (Script.fetch default_args script)) = []
  /\ cooldown_waits (snd (Script.fetch default_args script)) = 1%nat
  /\ searched_pages (snd (Script.fetch default_args script)) = [1]
  /\ snd (fst (Script.fetch default_args script))
     = [Script.Throttled; Script.Success [Script.item1]]
  /\ ~ (cooldown_waits (snd (Script.fetch default_args script)) = 2%nat
        /\ fst (fst (Script.fetch default_args script)) = [Script.issue1])
  /\ searched_pages (snd (Script.fetch (Script.with_max_pages 3) script)) = [1; 2; 3]
  /\ searched_pages (snd (Script.fetch (Script.with_max_pages 3) script)) <> [1; 1; 1].
Proof.
  vm_compute. repeat split; try discriminate. intros [H _]. discriminate.
Qed.

(** C4 (as amended). When a page request fails at the transport level,
    the failed page is not retried and contributes nothing, and no wait
    is made; the pager goes on to the next page number when one remains
    under [max_pages], and returns only when the failed page was the
    last one.  For the responses [ConnectionError, Success(items)] and a
    cap of two pages, the pager requests page 2 after the failure on
    page 1 and returns its items. *)
Theorem connection_error_skips_to_next_page
    (lower : string -> string) (findall_images : string -> list string) (World : Type)
    (get_search : World -> SearchRequest -> World * SearchResponse)
    (get_comments : World -> option string -> World * CommentsResponse)
    (args : Args) (term : string) (since_date until_date : Z) (w : World) :
  let evs := snd (fetch_issues_by_date lower findall_images World get_search get_comments
                    args term since_date until_date w) in
  (forall pre rq post,
      evs = pre ++ EvSearch rq ConnectionError :: post ->
      1 <= rq_page rq <= max_pages args
      /\ searched_pages pre = range 1 (rq_page rq)
      /\ ~ In (rq_page rq) (searched_pages post)
      /\ (rq_page rq = max_pages args -> post = [])
      /\ (rq_page rq < max_pages args ->
            exists rs post',
              post = EvSearch (request args term since_date until_date (rq_page rq + 1)) rs
                     :: post'))
  /\ (forall page rest issues w0 w1,
        get_search w0 (request args term since_date until_date page) = (w1, ConnectionError) ->
        fst (pages_loop lower findall_images World get_search get_comments
               args term since_date until_date (page :: rest) issues w0)
        = fst (pages_loop lower findall_images World get_search get_comments
                 args term since_date until_date rest issues w1))
  /\ (let r := Script.fetch (Script.with_max_pages 2)
                 [ConnectionError; Script.Success [Script.item1]] in
      fst (fst r) = [Script.issue1] /\ searched_pages (snd r) = [1; 2]).
Proof.
  intros evs. split; [|split].
  - intros pre rq post H.
    destruct (fetch_search_event _ _ _ _ _ _ _ _ _ _ _ _ _ _ H)
      as (Hb & Hpre & Hrq & Hnot & issues0 & w0 & w1 & Hg & Hev).
    repeat split; try lia; try assumption.
    all: rewrite Hrq in Hg;
      rewrite (pages_loop_connection_error _ _ _ _ _ _ _ _ _ _ _ _ _ _ Hg) in Hev;
      pose proof (pages_loop_next_page lower findall_images World get_search get_comments
                    args term since_date until_date (rq_page rq) issues0 w1)
        as [Hlast Hnext];
      destruct (pages_loop _ _ _ _ _ args term since_date until_date
                  (range (rq_page rq + 1) (max_pages args + 1)) issues0 w1)
        as [[r w2] evs'] eqn:Hl;
      simpl in Hev, Hlast, Hnext; inversion Hev; subst post; auto.
  - intros page rest issues w0 w1 Hg.
    rewrite (pages_loop_connection_error _ _ _ _ _ _ _ _ _ _ _ _ _ _ Hg).
    destruct (pages_loop _ _ _ _ _ args term since_date until_date rest issues w1)
      as [[r w2] evs']. reflexivity.
  - vm_compute. auto.
Qed.

Lemma connection_error_skips_to_next_page_witness :
  let args := Script.with_max_pages 2 in
  let rq := request args "i18n" (ymd2ord 2024 3 2) (ymd2ord 2024 3 31) 1 in
  let post := [EvSearch (request args "i18n" (ymd2ord 2024 3 2) (ymd2ord 2024 3 31) 2)
                 (Script.Success [])] in
  snd (Script.fetch args [ConnectionError; Script.Success []])
    = [] ++ EvSearch rq ConnectionError :: post
  /\ 1 <= rq_page rq <= max_pages args
  /\ searched_pages [] = range 1 (rq_page rq)
  /\ ~ In (rq_page rq) (searched_pages post)
  /\ (rq_page rq = max_pages args -> post = [])
  /\ (rq_page rq < max_pages args ->
        exists rs post',
          post = EvSearch
                   (request args "i18n" (ymd2ord 2024 3 2) (ymd2ord 2024 3 31)
                      (rq_page rq + 1)) rs
                 :: post').
Proof.
  intros args rq post. split; [reflexivity|].
  pose proof (connection_error_skips_to_next_page ascii_lower Script.findall_images
                Script.World Script.get_search Script.get_comments
                args "i18n" (ymd2ord 2024 3 2) (ymd2ord 2024 3 31)
                [ConnectionError; Script.Success []]) as H.
  destruct H as (H & _).
  exact (H [] rq post eq_refl).
Defined.

(** C4, refuted as stated: with a cap of two pages and the responses
    [ConnectionError, Success(items)], the pager does not stop at the
    failure on page 1: it requests page 2 and returns the items found
    there. *)
Lemma connection_error_does_not_stop_paging :
  let r := Script.fetch (Script.with_max_pages 2)
             [ConnectionError; Script.Success [Script.item1]] in
  searched_pages (snd r) = [1; 2]
  /\ searched_pages (snd r) <> [1]
  /\ fst (fst r) = [Script.issue1]
  /\ fst (fst r) <> []
  /\ nth_error (snd r) 0
     = Some (EvSearch (request (Script.with_max_pages 2) "i18n"
                         (ymd2ord 2024 3 2) (ymd2ord 2024 3 31) 1) ConnectionError).
Proof.
  vm_compute. repeat split; discriminate.
Qed.

(** ** Deduplication by URL *)

Lemma keep_first_app (s : gset (option string)) (a b : list Issue) :
  keep_first s (a ++ b)
  = keep_first s a ++ keep_first (list_to_set (map url a) ∪ s) b.
Proof.
  revert s. induction a as [|i a IH]; intros s; simpl.
  - f_equal. set_solver.
  - destruct (decide (url i ∈ s)) as [Hin | Hout].
    + rewrite IH. do 2 f_equal. set_solver.
    + simpl. rewrite IH. do 3 f_equal. set_solver.
Qed.

(** The issues kept are the first occurrences of the URLs not seen
    before. *)
Lemma keep_first_In (s : gset (option string)) (l : list Issue) (i : Issue) :
  In i (keep_first s l) <->
  exists pre post,
    l = pre ++ i :: post /\ (url i ∉ s) /\ (forall j, In j pre -> url j <> url i).
Proof.
  revert s. induction l as [|x l IH]; intros s; simpl.
  - split; [tauto | intros (pre & post & H & _); destruct pre; discriminate].
  - destruct (decide (url x ∈ s)) as [Hin | Hout].
    + rewrite IH. split.
      * intros (pre & post & -> & Hs & Hpre). exists (x :: pre), post.
        repeat split; [assumption|]. intros j [<- | Hj]; [congruence | auto].
      * intros (pre & post & H & Hs & Hpre). destruct pre as [|y pre]; simpl in H.
        -- inversion H; subst. contradiction.
        -- inversion H; subst. exists pre, post. repeat split; [assumption|].
           intros j Hj. apply Hpre. now right.
    + simpl. rewrite IH. split.
      * intros [<- | (pre & post & -> & Hs & Hpre)].
        -- exists [], l. repeat split; [assumption | intros j []].
        -- exists (x :: pre), post. repeat split; [set_solver|].
           intros j [<- | Hj]; [set_solver | auto].
      * intros (pre & post & H & Hs & Hpre). destruct pre as [|y pre]; simpl in H.
        -- inversion H; subst. now left.
        -- inversion H; subst. right. exists pre, post. repeat split.
           ++ assert (url y <> url i) by (apply Hpre; now left). set_solver.
           ++ intros j Hj. apply Hpre. now right.
Qed.

Lemma keep_first_urls (s : gset (option string)) (l : list Issue) :
  NoDup (map url (keep_first s l))
  /\ (forall u, In u (map url (keep_first s l)) <-> In u (map url l) /\ u ∉ s).
Proof.
  revert s. induction l as [|x l IH]; intros s; simpl.
  - split; [constructor | tauto].
  - destruct (decide (url x ∈ s)) as [Hin | Hout].
    + destruct (IH s) as [Hnd Hu]. split; [exact Hnd|].
      intros u. rewrite Hu. split; [tauto|].
      intros [[<- | H] Hs]; [contradiction | tauto].
    + destruct (IH ({[url x]} ∪ s)) as [Hnd Hu]. simpl. split.
      * apply NoDup_cons. split; [|exact Hnd].
        rewrite list_elem_of_In, Hu. set_solver.
      * intros u. rewrite Hu. split.
        -- intros [<- | [H Hs]]; [tauto | set_solver].
        -- intros [[<- | H] Hs]; [tauto|].
           destruct (decide (url x = u)) as [-> | Hne]; [tauto|]. right. set_solver.
Qed.

Lemma keep_first_sublist (s : gset (option string)) (l : list Issue) :
  (keep_first s l) `sublist_of` l.
Proof.
  revert s. induction l as [|x l IH]; intros s; simpl.
  - constructor.
  - destruct (decide (url x ∈ s)); [apply sublist_cons | apply sublist_skip]; apply IH.
Qed.

Section Quarter.

Variable lower : string -> string.
Variable findall_images : string -> list string.
Variable World : Type.
Variable get_search : World -> SearchRequest -> World * SearchResponse.
Variable get_comments : World -> option string -> World * CommentsResponse.

Abbreviation terms_loop' := (terms_loop lower findall_images World get_search get_comments).
Abbreviation window_loop' := (window_loop lower findall_images World get_search get_comments).
Abbreviation crawl_quarter' :=
  (crawl_quarter lower findall_images World get_search get_comments).

(** The deduplication loop in closed form. *)
Lemma dedup_loop_spec (issues : list Issue) (c : Crawl) :
  dedup_loop issues c =
    {| seen_urls := list_to_set (map url issues) ∪ seen_urls c;
       quarter_issues := quarter_issues c ++ keep_first (seen_urls c) issues;
       windows_visited := windows_visited c;
       observed := observed c |}.
Proof.
  revert c. induction issues as [|i issues IH]; intros [seen qi ws obs]; simpl.
  - f_equal; [set_solver | now rewrite app_nil_r].
  - destruct (decide (i.(url) ∈ seen)) as [Hin | Hout].
    + rewrite IH. simpl. f_equal. set_solver.
    + rewrite IH. simpl. f_equal; [set_solver | now rewrite <- app_assoc].
Qed.

Lemma dedup_step (issues : list Issue) (c : Crawl) :
  first_writer_wins c ->
  first_writer_wins
    (dedup_loop issues
       {| seen_urls := seen_urls c;
          quarter_issues := quarter_issues c;
          windows_visited := windows_visited c;
          observed := observed c ++ issues |}).
Proof.
  intros [Hseen Hqi]. rewrite dedup_loop_spec. unfold first_writer_wins. simpl. split.
  - rewrite Hseen, map_app, list_to_set_app_L. set_solver.
  - rewrite keep_first_app, Hqi, Hseen. do 2 f_equal. set_solver.
Qed.

Lemma terms_loop_spec (args : Args) (terms : list string) (since_date until_date : Z)
    (c : Crawl) (w : World) :
  windows_visited (fst (fst (terms_loop' args terms since_date until_date c w)))
    = windows_visited c
  /\ (first_writer_wins c ->
      first_writer_wins (fst (fst (terms_loop' args terms since_date until_date c w)))).
Proof.
  revert c w. induction terms as [|term rest IH]; intros c w; simpl.
  - auto.
  - destruct (fetch_issues_by_date _ _ _ _ _ args term since_date until_date w)
      as [[issues w1] evs1].
    match goal with
    | |- context [terms_loop' args rest since_date until_date ?c1 w1] =>
        destruct (IH c1 w1) as [Hw Hinv];
        pose proof (dedup_step issues c) as Hstep;
        destruct (terms_loop' args rest since_date until_date c1 w1) as [[c2 w2] evs2]
    end.
    simpl in *. split.
    + rewrite Hw, dedup_loop_spec. reflexivity.
    + intros Hc. apply Hinv, Hstep, Hc.
Qed.

(** ** The window loop *)

Lemma partitions_span_done (n q_start : Z) : partitions_span n q_start (q_start - 1) [].
Proof.
  unfold partitions_span. simpl. rewrite range_nil by lia.
  repeat split; try constructor; lia.
Qed.

(** One more window, newer than those already planned. *)
Lemma partitions_span_step (n q_start s e : Z) (ws : list Window) :
  q_start <= s <= e -> e - s + 1 <= n ->
  partitions_span n q_start (s - 1) ws ->
  partitions_span n q_start e ((s, e) :: ws).
Proof.
  intros Hse Hn (Hcover & Hlen & Hcont & Hends & Hnone).
  unfold partitions_span. repeat split.
  - cbn [rev]. rewrite map_app, concat_app, Hcover. cbn [map concat window_days fst snd].
    rewrite app_nil_r. replace (s - 1 + 1) with s by lia.
    symmetry. apply range_app. lia.
  - constructor; [simpl; lia | exact Hlen].
  - destruct ws as [|b ws']; [exact I|]. split; [|exact Hcont].
    destruct (Z_lt_le_dec (s - 1) q_start) as [Hlt | Hge].
    + specialize (Hnone Hlt). discriminate.
    + destruct (Hends Hge) as [Hhd _]. simpl in Hhd. inversion Hhd. simpl. lia.
  - destruct ws as [|b ws'].
    + simpl. f_equal.
      destruct (Z_lt_le_dec (s - 1) q_start) as [Hlt | Hge]; [lia|].
      destruct (Hends Hge) as [Hhd _]. discriminate.
    + destruct (Z_lt_le_dec (s - 1) q_start) as [Hlt | Hge].
      * specialize (Hnone Hlt). discriminate.
      * destruct (Hends Hge) as [_ Hlast]. rewrite last_cons.
        destruct (last (b :: ws')) eqn:E; [exact Hlast | discriminate].
  - lia.
Qed.

(** Windows that follow one another without a gap, each with its
    start not after its end, lie strictly before one another. *)
Lemma contiguous_desc_sorted (ws : list Window) :
  contiguous_desc ws -> Forall (fun win => fst win <= snd win) ws ->
  StronglySorted (fun a b : Window => snd b < fst a) ws.
Proof.
  induction ws as [|a ws IH]; intros Hc Hf; [constructor|].
  inversion Hf as [|? ? Ha Hf']; subst.
  destruct ws as [|b ws'].
  - repeat constructor.
  - destruct Hc as [Hab Hc]. specialize (IH Hc Hf').
    constructor; [exact IH|].
    inversion IH as [|? ? _ Hb]; subst. inversion Hf' as [|? ? Hb' _]; subst.
    constructor; [lia|].
    eapply Forall_impl; [exact Hb|]. simpl. intros x Hx. lia.
Qed.

(** The end of the oldest window of a loop started at [current_start]
    is [q_start + (current_start - q_start) mod N]; one loop iteration
    further on it is the same day. *)
Lemma oldest_end_step (n q_start cur : Z) :
  1 <= n -> (cur - n - q_start) mod n = (cur - q_start) mod n.
Proof.
  intros Hn. replace (cur - n - q_start) with (cur - q_start + (-1) * n) by lia.
  apply Z.mod_add. lia.
Qed.

(** When the quarter does not start on day 1 and the interval, of at
    least one day, does not exceed the day number of the end of the
    oldest window, the loop started at [current_start] ends normally
    before its fuel does, and the windows it adds cover
    [q_start .. current_start]. *)
Lemma window_loop_in_range (fuel : nat) (args : Args) (q_start current_start : Z)
    (c : Crawl) (w : World) :
  1 <= interval_days args ->
  2 <= q_start ->
  q_start - 1 <= current_start <= MAXORDINAL ->
  (q_start <= current_start ->
   interval_days args <= q_start + (current_start - q_start) mod interval_days args) ->
  (Z.to_nat (current_start - q_start + 1) < fuel)%nat ->
  exists c' w' evs ws,
    window_loop' fuel args q_start current_start c w = Ok (c', w', evs)
    /\ windows_visited c' = windows_visited c ++ ws
    /\ partitions_span (interval_days args) q_start current_start ws.
Proof.
  intros Hn Hqs. revert current_start c w.
  induction fuel as [|fuel IH]; intros cur c w Hcur Hold Hfuel; [lia|].
  cbn [Miner.window_loop].
  destruct (Z.leb_spec q_start cur) as [Hle | Hgt].
  - specialize (Hold Hle).
    pose proof (Z.mod_le (cur - q_start) (interval_days args) ltac:(lia) ltac:(lia)) as Hmod.
    unfold sub_days at 1. cbv zeta.
    destruct (Z.leb_spec 1 (cur - (interval_days args - 1))); [|lia].
    destruct (Z.leb_spec (cur - (interval_days args - 1)) MAXORDINAL); [|lia].
    cbn [andb].
    set (s := Z.max q_start (cur - (interval_days args - 1))).
    match goal with
    | |- context [terms_loop' args SEARCH_TERMS s cur ?c0 w] =>
        destruct (terms_loop_spec args SEARCH_TERMS s cur c0 w) as [Hw _];
        destruct (terms_loop' args SEARCH_TERMS s cur c0 w) as [[c1 w1] evs1]
    end.
    simpl in Hw.
    unfold sub_days. cbv zeta.
    destruct (Z.leb_spec 1 (s - 1)); [|lia].
    destruct (Z.leb_spec (s - 1) MAXORDINAL); [|lia].
    cbn [andb].
    destruct (IH (s - 1) c1 w1) as (c2 & w2 & evs2 & ws & Hrun & Hws & Hspan);
      [lia | | lia |].
    { intros Hnext. replace (s - 1) with (cur - interval_days args) by lia.
      rewrite oldest_end_step by assumption. exact Hold. }
    rewrite Hrun. exists c2, w2, (evs1 ++ evs2), ((s, cur) :: ws).
    split; [reflexivity | split].
    + rewrite Hws, Hw, <- app_assoc. reflexivity.
    + apply partitions_span_step; [lia | lia | exact Hspan].
  - exists c, w, [], []. split; [reflexivity | split].
    + now rewrite app_nil_r.
    + replace cur with (q_start - 1) by lia. apply partitions_span_done.
Qed.

(** In particular when the interval is shorter than the day number of
    the quarter's start. *)
Lemma window_loop_ok (fuel : nat) (args : Args) (q_start current_start : Z)
    (c : Crawl) (w : World) :
  1 <= interval_days args < q_start ->
  q_start - 1 <= current_start <= MAXORDINAL ->
  (Z.to_nat (current_start - q_start + 1) < fuel)%nat ->
  exists c' w' evs ws,
    window_loop' fuel args q_start current_start c w = Ok (c', w', evs)
    /\ windows_visited c' = windows_visited c ++ ws
    /\ partitions_span (interval_days args) q_start current_start ws.
Proof.
  intros Hn Hcur Hfuel. apply window_loop_in_range; try lia.
  intros Hle.
  pose proof (Z.mod_pos_bound (current_start - q_start) (interval_days args) ltac:(lia)).
  lia.
Qed.

(** Otherwise a date subtraction of the loop leaves the range of
    [datetime]. *)
Lemma window_loop_overflow (fuel : nat) (args : Args) (q_start current_start : Z)
    (c : Crawl) (w : World) :
  1 <= interval_days args ->
  1 <= q_start <= current_start ->
  current_start <= MAXORDINAL ->
  ~ (2 <= q_start
     /\ interval_days args
        <= q_start + (current_start - q_start) mod interval_days args) ->
  (Z.to_nat (current_start - q_start + 1) < fuel)%nat ->
  window_loop' fuel args q_start current_start c w = Raised OverflowError.
Proof.
  intros Hn. revert current_start c w.
  induction fuel as [|fuel IH]; intros cur c w Hqs Hcur Hbad Hfuel; [lia|].
  cbn [Miner.window_loop].
  destruct (Z.leb_spec q_start cur) as [_ | Hgt]; [|lia].
  unfold sub_days at 1. cbv zeta.
  destruct (Z.leb_spec 1 (cur - (interval_days args - 1))) as [Hfirst|]; [|reflexivity].
  destruct (Z.leb_spec (cur - (interval_days args - 1)) MAXORDINAL); [|lia].
  cbn [andb].
  set (s := Z.max q_start (cur - (interval_days args - 1))).
  destruct (terms_loop' args SEARCH_TERMS s cur _ w) as [[c1 w1] evs1].
  unfold sub_days. cbv zeta.
  destruct (Z.leb_spec 1 (s - 1)) as [Hnext|]; [|reflexivity].
  destruct (Z.leb_spec (s - 1) MAXORDINAL); [|lia].
  cbn [andb].
  destruct (Z_lt_le_dec (s - 1) q_start) as [Hlast | Hmore].
  - exfalso. apply Hbad. split; [lia|].
    rewrite Z.mod_small by lia. lia.
  - rewrite (IH (s - 1) c1 w1); [reflexivity | lia | lia | | lia].
    replace (s - 1) with (cur - interval_days args) by lia.
    rewrite oldest_end_step by assumption. exact Hbad.
Qed.

(** The loop keeps the first copy of each URL. *)
Lemma window_loop_first_writer_wins (fuel : nat) (args : Args) (q_start current_start : Z)
    (c c' : Crawl) (w w' : World) (evs : list Event) :
  window_loop' fuel args q_start current_start c w = Ok (c', w', evs) ->
  first_writer_wins c -> first_writer_wins c'.
Proof.
  revert current_start c w c' w' evs.
  induction fuel as [|fuel IH]; intros cur c w c' w' evs Hrun Hc; [discriminate|].
  cbn [Miner.window_loop] in Hrun.
  destruct (q_start <=? cur); [|inversion Hrun; subst; exact Hc].
  destruct (sub_days cur (interval_days args - 1)) as [earliest|]; [|discriminate].
  cbv zeta in Hrun.
  match type of Hrun with
  | context [terms_loop' args SEARCH_TERMS ?s cur ?c0 w] =>
      destruct (terms_loop_spec args SEARCH_TERMS s cur c0 w) as [_ Hinv];
      destruct (terms_loop' args SEARCH_TERMS s cur c0 w) as [[c1 w1] evs1];
      destruct (sub_days s 1) as [next|]; [|discriminate]
  end.
  simpl in Hinv.
  destruct (window_loop' fuel args q_start next c1 w1) as [[[c2 w2] evs2]| |] eqn:Hrec;
    try discriminate.
  inversion Hrun; subst. eapply IH; [exact Hrec|]. apply Hinv. exact Hc.
Qed.

End Quarter.

(** ** The windows of a quarter *)

(** C2 (as amended). For every quarter that does not start on
    0001-01-01 and every interval length [N >= 1] that does not exceed
    the day number of the end of the oldest window, which is
    [q_start + (q_end - q_start) mod N] (days are numbered from
    0001-01-01 as day 1; every [N] below the day number of [q_start]
    qualifies, so for the quarters from 2015 on every [N] up to
    735,000), the crawl of the quarter ends normally and the windows it
    visits partition [q_start .. q_end]: taken oldest first, their days
    are exactly the days of the quarter, each once; each window has at
    most [N] days; each window ends the day before the start of the
    window visited before it, so they are visited in strictly descending
    order, the first ending at [q_end] and the last starting at
    [q_start]. *)
Theorem windows_partition_quarter
    (lower : string -> string) (findall_images : string -> list string) (World : Type)
    (get_search : World -> SearchRequest -> World * SearchResponse)
    (get_comments : World -> option string -> World * CommentsResponse)
    (fuel : nat) (args : Args) (year q m_start m_end q_start q_end : Z) (w : World) :
  In (q, (m_start, m_end)) quarters ->
  quarter_span year m_start m_end = Some (q_start, q_end) ->
  1 <= interval_days args ->
  2 <= q_start ->
  interval_days args <= q_start + (q_end - q_start) mod interval_days args ->
  (Z.to_nat (q_end - q_start) + 2 <= fuel)%nat ->
  exists c w' evs,
    crawl_quarter lower findall_images World get_search get_comments
      fuel args q_start q_end w = Ok (c, w', evs)
    /\ concat (map window_days (rev (windows_visited c))) = range q_start (q_end + 1)
    /\ Forall (fun win => fst win <= snd win /\ snd win - fst win + 1 <= interval_days args)
              (windows_visited c)
    /\ contiguous_desc (windows_visited c)
    /\ StronglySorted (fun a b : Window => snd b < fst a) (windows_visited c)
    /\ snd <$> head (windows_visited c) = Some q_end
    /\ fst <$> last (windows_visited c) = Some q_start.
Proof.
  intros Hq Hspan Hn Hstart Hold Hfuel.
  destruct (quarter_span_bounds _ _ _ _ _ _ Hq Hspan) as (Hs & Hse & He & _).
  destruct (window_loop_in_range lower findall_images World get_search get_comments
              fuel args q_start q_end new_crawl w)
    as (c & w' & evs & ws & Hrun & Hws & Hcover & Hlen & Hcont & Hends & _);
    [lia | lia | lia | auto | lia |].
  simpl in Hws. subst ws.
  exists c, w', evs. unfold Miner.crawl_quarter.
  destruct (Hends Hse) as [Hhd Hlast].
  repeat split; try assumption.
  apply contiguous_desc_sorted; [exact Hcont|].
  eapply Forall_impl; [exact Hlen|]. simpl. intros x [Hx _]. exact Hx.
Qed.

Lemma windows_partition_quarter_witness :
  Script.crawled_windows (Script.crawl 100 default_args (ymd2ord 2021 1 1) (ymd2ord 2021 3 31) [])
  = [ (ymd2ord 2021 3 2, ymd2ord 2021 3 31);
      (ymd2ord 2021 1 31, ymd2ord 2021 3 1);
      (ymd2ord 2021 1 1, ymd2ord 2021 1 30) ]
  /\ exists c w' evs,
       Script.crawl 100 default_args (ymd2ord 2021 1 1) (ymd2ord 2021 3 31) []
       = Ok (c, w', evs)
       /\ concat (map window_days (rev (windows_visited c)))
          = range (ymd2ord 2021 1 1) (ymd2ord 2021 3 31 + 1)
       /\ Forall (fun win => fst win <= snd win /\ snd win - fst win + 1 <= 30)
                 (windows_visited c)
       /\ contiguous_desc (windows_visited c)
       /\ StronglySorted (fun a b : Window => snd b < fst a) (windows_visited c)
       /\ snd <$> head (windows_visited c) = Some (ymd2ord 2021 3 31)
       /\ fst <$> last (windows_visited c) = Some (ymd2ord 2021 1 1).
Proof.
  split; [vm_compute; reflexivity|].
  apply (windows_partition_quarter ascii_lower Script.findall_images Script.World
           Script.get_search Script.get_comments 100 default_args 2021 1 1 3).
  - simpl. auto.
  - vm_compute. reflexivity.
  - vm_compute. discriminate.
  - vm_compute. discriminate.
  - vm_compute. discriminate.
  - vm_compute. lia.
Defined.

(** Outside these bounds the crawl of a quarter ends in an
    [OverflowError]. *)
Lemma crawl_quarter_overflow
    (lower : string -> string) (findall_images : string -> list string) (World : Type)
    (get_search : World -> SearchRequest -> World * SearchResponse)
    (get_comments : World -> option string -> World * CommentsResponse)
    (fuel : nat) (args : Args) (year q m_start m_end q_start q_end : Z) (w : World) :
  In (q, (m_start, m_end)) quarters ->
  quarter_span year m_start m_end = Some (q_start, q_end) ->
  1 <= interval_days args ->
  ~ (2 <= q_start
     /\ interval_days args <= q_start + (q_end - q_start) mod interval_days args) ->
  (Z.to_nat (q_end - q_start) + 2 <= fuel)%nat ->
  crawl_quarter lower findall_images World get_search get_comments
    fuel args q_start q_end w = Raised OverflowError.
Proof.
  intros Hq Hspan Hn Hbad Hfuel.
  destruct (quarter_span_bounds _ _ _ _ _ _ Hq Hspan) as (Hs & Hse & He & _).
  unfold Miner.crawl_quarter. apply window_loop_overflow; try assumption; lia.
Qed.

(** C2, refuted as stated: with an interval of 1,000,000 days the first
    [current_start - timedelta(days=N - 1)] of Q1 2024 falls before
    [datetime.min], and the crawl ends in an [OverflowError] without a
    window; in Q1 of year 1 the crawl visits its windows and then fails
    the same way at [interval_start - timedelta(days=1)], one day before
    0001-01-01. *)
Lemma huge_interval_overflows :
  1 <= interval_days (Script.with_interval 1000000)
  /\ quarter_span 2024 1 3 = Some (ymd2ord 2024 1 1, ymd2ord 2024 3 31)
  /\ sub_days (ymd2ord 2024 3 31) (interval_days (Script.with_interval 1000000) - 1) = None
  /\ Script.crawl 100 (Script.with_interval 1000000) (ymd2ord 2024 1 1) (ymd2ord 2024 3 31) []
     = Raised OverflowError
  /\ quarter_span 1 1 3 = Some (1, 90)
  /\ Script.crawl 100 default_args 1 90 [] = Raised OverflowError.
Proof.
  vm_compute. repeat split; discriminate.
Qed.

(** ** The issues of a quarter *)

Lemma new_crawl_first_writer_wins : first_writer_wins new_crawl.
Proof. split; reflexivity. Qed.

Lemma has_images_spec (i : Issue) : has_images i = true <-> image_urls i <> [].
Proof. unfold has_images. destruct (image_urls i); split; congruence. Qed.

(** C8. For every quarter that is persisted, every issue handed to the
    writers has a non-empty [image_urls]: the persisted issues are the
    collected ones that have an image, so an issue without one is never
    among them.  [total_collected] is the number of issues collected
    after deduplication, whether or not they have images, and so is at
    least the number of persisted issues, which is [total_saved].  With
    an interval of at least one day that is below the day number of the
    quarter's start, the quarter is persisted. *)
Theorem persisted_issues_have_images
    (lower : string -> string) (findall_images : string -> list string) (World : Type)
    (get_search : World -> SearchRequest -> World * SearchResponse)
    (get_comments : World -> option string -> World * CommentsResponse)
    (fuel : nat) (args : Args) (j : Job) (w : World) :
  (forall p w' evs,
      process_quarter lower findall_images World get_search get_comments
        fuel args j w = Ok (p, w', evs) ->
      Forall (fun i => image_urls i <> []) (p_issues p)
      /\ exists c,
           crawl_quarter lower findall_images World get_search get_comments
             fuel args (job_start j) (job_end j) w = Ok (c, w', evs)
           /\ NoDup (map url (quarter_issues c))
           /\ p_total_collected p = Z.of_nat (length (quarter_issues c))
           /\ (forall i, In i (p_issues p) <-> In i (quarter_issues c) /\ image_urls i <> [])
           /\ p_total_saved p = Z.of_nat (length (p_issues p))
           /\ Z.of_nat (length (p_issues p)) <= p_total_collected p)
  /\ (1 <= interval_days args < job_start j ->
      job_start j <= job_end j <= MAXORDINAL ->
      (Z.to_nat (job_end j - job_start j) + 2 <= fuel)%nat ->
      exists p w' evs,
        process_quarter lower findall_images World get_search get_comments
          fuel args j w = Ok (p, w', evs))
  /\ (match Script.process 100 default_args Script.q1_2024
               [Script.Success [Script.item1]; Script.Success [Script.item1; Script.item2]]
      with
      | Ok (p, _, _) =>
          p_total_collected p = 2 /\ p_total_saved p = 1 /\ p_issues p = [Script.issue2]
      | _ => False
      end).
Proof.
  split; [|split].
  - intros p w' evs Hrun. unfold Miner.process_quarter in Hrun.
    destruct (crawl_quarter _ _ _ _ _ fuel args (job_start j) (job_end j) w)
      as [[[c w1] evs1]| |] eqn:Hcrawl; try discriminate.
    inversion Hrun; subst; clear Hrun. simpl. split.
    + apply Forall_forall. intros i Hi. apply list_elem_of_In, filter_In in Hi as [_ Hi].
      now apply has_images_spec.
    + exists c. repeat split.
      * unfold Miner.crawl_quarter in Hcrawl.
        destruct (window_loop_first_writer_wins _ _ _ _ _ _ _ _ _ _ _ _ _ _ Hcrawl
                    new_crawl_first_writer_wins) as [_ Hqi].
        rewrite Hqi. apply keep_first_urls.
      * apply filter_In in H. tauto.
      * apply filter_In in H. apply has_images_spec. tauto.
      * intros [H1 H2]. apply filter_In. split; [assumption | now apply has_images_spec].
      * apply inj_le, List.filter_length_le.
  - intros Hn Hq Hfuel. unfold Miner.process_quarter.
    destruct (window_loop_ok lower findall_images World get_search get_comments
                fuel args (job_start j) (job_end j) new_crawl w)
      as (c & w' & evs & ws & Hrun & _); [lia | lia | lia |].
    unfold Miner.crawl_quarter. rewrite Hrun. eauto.
  - vm_compute. auto.
Qed.

Lemma persisted_issues_have_images_witness :
  exists p w' evs,
    Script.process 100 default_args Script.q1_2024
      [Script.Success [Script.item1]; Script.Success [Script.item1; Script.item2]]
    = Ok (p, w', evs)
    /\ Forall (fun i => image_urls i <> []) (p_issues p)
    /\ Z.of_nat (length (p_issues p)) <= p_total_collected p.
Proof.
  pose proof (persisted_issues_have_images ascii_lower Script.findall_images
                Script.World Script.get_search Script.get_comments 100 default_args
                Script.q1_2024
                [Script.Success [Script.item1]; Script.Success [Script.item1; Script.item2]])
    as (Hkept & Hruns & _).
  destruct Hruns as (p & w' & evs & Hrun); [decide_bounds | decide_bounds | vm_compute; lia |].
  exists p, w', evs. split; [exact Hrun|].
  destruct (Hkept p w' evs Hrun) as (Himg & c & _ & _ & _ & _ & _ & Hle). auto.
Defined.

(** ** The campaign ([main]'s loops over years and quarters) *)

Lemma range_down_In (a b y : Z) : In y (range_down a b) <-> b < y <= a.
Proof.
  unfold range_down. rewrite in_map_iff. split.
  - intros [i [<- Hi]]. apply in_seq in Hi. lia.
  - intros H. exists (Z.to_nat (a - y)). split; [lia|]. apply in_seq. lia.
Qed.

(** Whether the quarter that starts in month [m_start] of [year] starts
    after [today]. *)
Lemma dt_gt_midnight (d : Z) (today : DateTime) :
  0 <= dt_micro today -> dt_gt (midnight d) today = (dt_day today <? d).
Proof.
  intros H. unfold dt_gt, midnight. simpl.
  destruct (Z.ltb_spec (dt_micro today) 0); [lia|].
  now rewrite andb_false_r, orb_false_r.
Qed.

Lemma dt_gt_midnight_mono (d d' : Z) (today : DateTime) :
  d <= d' -> dt_gt (midnight d) today = true -> dt_gt (midnight d') today = true.
Proof.
  unfold dt_gt, midnight. simpl. intros Hd H.
  apply orb_true_iff in H as [H | H].
  - apply Z.ltb_lt in H. apply orb_true_iff. left. apply Z.ltb_lt. lia.
  - apply andb_true_iff in H as [H1 H2]. apply Z.eqb_eq in H1. subst d.
    destruct (Z.eq_dec (dt_day today) d') as [<- | Hne].
    + rewrite Z.eqb_refl, H2. apply orb_true_r.
    + apply orb_true_iff. left. apply Z.ltb_lt. lia.
Qed.

Lemma quarter_start_mono (year q q' ms me ms' me' : Z) :
  In (q, (ms, me)) quarters -> In (q', (ms', me')) quarters -> q <= q' ->
  ymd2ord year ms 1 <= ymd2ord year ms' 1.
Proof.
  intros H H' Hq. apply quarter_cases in H, H'.
  unfold ymd2ord, days_before_month.
  destruct H as [(-> & -> & ->) | [(-> & -> & ->) | [(-> & -> & ->) | (-> & -> & ->)]]];
    destruct H' as [(-> & -> & ->) | [(-> & -> & ->) | [(-> & -> & ->) | (-> & -> & ->)]]];
    try lia; simpl; destruct (is_leap year); lia.
Qed.

(** Every quarter that the quarter loop lets through has an index at or
    above the start quarter, in whichever year, and does not start after
    [today]. *)
Lemma quarters_loop_not_below_start (args : Args) (today : DateTime) (year : Z)
    (qs : list (Z * (Z * Z))) (j : Job) :
  In j (fst (quarters_loop args today year qs)) ->
  start_quarter args <= job_quarter j /\ job_year j = year
  /\ dt_gt (midnight (job_start j)) today = false
  /\ exists ms me,
       In (job_quarter j, (ms, me)) qs
       /\ quarter_span year ms me = Some (job_start j, job_end j).
Proof.
  induction qs as [|[q [ms me]] rest IH]; simpl; [tauto|].
  destruct (Z.ltb_spec q (start_quarter args)) as [Hlt | Hge].
  - intros H. destruct (IH H) as (H1 & H2 & H3 & ms' & me' & H4 & H5). eauto 10.
  - destruct (quarter_span year ms me) as [[q_start q_end]|] eqn:Hspan; [|simpl; tauto].
    destruct (dt_gt (midnight q_start) today) eqn:Hnow; [simpl; tauto|].
    destruct (quarters_loop args today year rest) as [jobs err]. simpl in *.
    intros [<- | H]; simpl.
    + eauto 10.
    + destruct (IH H) as (H1 & H2 & H3 & ms' & me' & H4 & H5). eauto 10.
Qed.

Lemma years_loop_In (args : Args) (today : DateTime) (years : list Z) (j : Job) :
  In j (fst (years_loop args today years)) ->
  exists year, In year years /\ In j (fst (quarters_loop args today year quarters)).
Proof.
  induction years as [|year rest IH]; [simpl; tauto|].
  cbn [years_loop].
  destruct (quarters_loop args today year quarters) as [jobs [e|]] eqn:Hq.
  - cbn [fst]. intros H. exists year. rewrite Hq. split; [now left | exact H].
  - destruct (years_loop args today rest) as [jobs' err]. cbn [fst] in *.
    intros H. apply in_app_or in H as [H | H].
    + exists year. rewrite Hq. split; [now left | exact H].
    + destruct (IH H) as (y & Hy & Hj). exists y. split; [now right | exact Hj].
Qed.

(** In a year that [datetime] accepts, the quarter loop raises nothing
    and lets through exactly the quarters at or above the start quarter
    that do not start after [today]. *)
Lemma quarters_loop_valid (args : Args) (today : DateTime) (year : Z)
    (qs : list (Z * (Z * Z))) :
  1 <= year <= 9999 ->
  (forall x, In x qs -> In x quarters) ->
  StronglySorted (fun a b : Z * (Z * Z) => fst a <= fst b) qs ->
  snd (quarters_loop args today year qs) = None
  /\ forall q ms me,
       In (q, (ms, me)) qs ->
       start_quarter args <= q ->
       dt_gt (midnight (ymd2ord year ms 1)) today = false ->
       exists j, In j (fst (quarters_loop args today year qs))
                 /\ job_year j = year /\ job_quarter j = q
                 /\ job_start j = ymd2ord year ms 1
                 /\ job_end j = ymd2ord year me (days_in_month year me).
Proof.
  intros Hy. induction qs as [|[q0 [ms0 me0]] rest IH]; intros Hsub Hsorted.
  - simpl. split; [reflexivity | intros ? ? ? []].
  - inversion Hsorted as [|? ? Hsorted' Hfirst]; subst.
    destruct IH as [IHerr IHin]; [intros x Hx; apply Hsub; now right | exact Hsorted' |].
    cbn [quarters_loop].
    rewrite (quarter_span_valid year q0) by (try assumption; apply Hsub; now left).
    destruct (Z.ltb_spec q0 (start_quarter args)) as [Hlt | Hge].
    + split; [exact IHerr|]. intros q ms me [Heq | Hin] Hq Hnow.
      * inversion Heq; subst. lia.
      * now apply IHin.
    + destruct (dt_gt (midnight (ymd2ord year ms0 1)) today) eqn:Hfuture.
      * split; [reflexivity|]. intros q ms me [Heq | Hin] Hq Hnow.
        -- inversion Heq; subst. congruence.
        -- assert (Hle : q0 <= q).
           { rewrite Forall_forall in Hfirst.
             apply (Hfirst (q, (ms, me))). now apply list_elem_of_In. }
           assert (Hmono : ymd2ord year ms0 1 <= ymd2ord year ms 1).
           { apply (quarter_start_mono year q0 q ms0 me0 ms me); try assumption.
             - apply Hsub. now left.
             - apply Hsub. now right. }
           rewrite (dt_gt_midnight_mono _ _ _ Hmono Hfuture) in Hnow. discriminate.
      * destruct (quarters_loop args today year rest) as [jobs err]. simpl in *.
        split; [exact IHerr|]. intros q ms me [Heq | Hin] Hq Hnow.
        -- inversion Heq; subst. eexists. split; [left; reflexivity|]. simpl. auto.
        -- destruct (IHin q ms me Hin Hq Hnow) as (j & Hj & Hrest).
           exists j. split; [now right | exact Hrest].
Qed.

Lemma quarters_sorted : StronglySorted (fun a b : Z * (Z * Z) => fst a <= fst b) quarters.
Proof. unfold quarters. repeat constructor; simpl; lia. Qed.

Lemma years_loop_valid (args : Args) (today : DateTime) (years : list Z) :
  (forall y, In y years -> 1 <= y <= 9999) ->
  snd (years_loop args today years) = None
  /\ forall year j,
       In year years -> In j (fst (quarters_loop args today year quarters)) ->
       In j (fst (years_loop args today years)).
Proof.
  induction years as [|y rest IH]; intros Hvalid.
  - simpl. split; [reflexivity | intros ? ? []].
  - destruct IH as [IHerr IHin]; [intros y' Hy'; apply Hvalid; now right|].
    cbn [years_loop].
    destruct (quarters_loop_valid args today y quarters) as [Herr _];
      [apply Hvalid; now left | auto | apply quarters_sorted |].
    destruct (quarters_loop args today y quarters) as [jobs err] eqn:Hq.
    cbn [snd] in Herr. subst err.
    destruct (years_loop args today rest) as [jobs' err']. cbn [fst snd] in *.
    split; [exact IHerr|]. intros year j [<- | Hin] Hj; apply in_or_app.
    + left. rewrite Hq in Hj. exact Hj.
    + right. eapply IHin; eauto.
Qed.

(** The quarters that the two loops of [main] select: none with an
    index below the start quarter, in any year; and when the years of
    the range are years that [datetime] accepts, in each year of the
    range exactly those at or above the start quarter that do not start
    after today. *)
Lemma campaign_selects_from_start_quarter (args : Args) (today : DateTime) :
  (forall j, In j (fst (campaign args today)) ->
             start_quarter args <= job_quarter j
             /\ start_year args <= job_year j <= end_year args)
  /\ (1 <= start_year args -> end_year args <= 9999 ->
      snd (campaign args today) = None
      /\ forall year q ms me,
           start_year args <= year <= end_year args ->
           In (q, (ms, me)) quarters ->
           ((exists j, In j (fst (campaign args today))
                       /\ job_year j = year /\ job_quarter j = q)
            <-> start_quarter args <= q
                /\ dt_gt (midnight (ymd2ord year ms 1)) today = false)).
Proof.
  unfold campaign. split.
  - intros j Hj. apply years_loop_In in Hj as (year & Hyear & Hj).
    apply quarters_loop_not_below_start in Hj as (Hq & Hy & _).
    apply range_down_In in Hyear. unfold year_range in *. lia.
  - intros Hlo Hhi.
    assert (Hvalid : forall y, In y (year_range args) -> 1 <= y <= 9999).
    { intros y Hy. apply range_down_In in Hy. lia. }
    destruct (years_loop_valid args today (year_range args) Hvalid) as [Herr Hin].
    split; [exact Herr|].
    intros year q ms me Hyear Hq. split.
    + intros (j & Hj & Hjy & Hjq).
      apply years_loop_In in Hj as (year' & Hyear' & Hj).
      apply quarters_loop_not_below_start in Hj
        as (Hsq & Hy' & Hnow & ms' & me' & Hq' & Hspan).
      assert (Hsame : year' = year) by congruence.
      rewrite Hsame in Hspan. rewrite Hjq in Hsq, Hq'.
      destruct (quarter_span_inv _ _ _ _ _ _ Hq' Hspan) as (_ & Hstart & _).
      assert (Hms : ms' = ms).
      { apply quarter_cases in Hq, Hq'. lia. }
      rewrite Hms in Hstart. rewrite <- Hstart. auto.
    + intros [Hsq Hnow].
      destruct (quarters_loop_valid args today year quarters) as [_ Hjobs];
        [lia | auto | apply quarters_sorted |].
      destruct (Hjobs q ms me Hq Hsq Hnow) as (j & Hj & Hjy & Hjq & _).
      exists j. repeat split; try assumption.
      apply (Hin year); [|exact Hj].
      apply range_down_In. lia.
Qed.


(** C7, the code at its defaults: the default of [--start-year] is
    2025 and that of [--end-year] is 2015, and the year loop runs over
    [range(END_YEAR, START_YEAR - 1, -1)], which is [range(2015, 2024,
    -1)] and is empty.  So on an empty command line no year and no
    quarter is processed, and [main] ends without a request.  With the
    two years the other way round the loop runs from 2025 down to 2015,
    eleven years. *)
Theorem default_year_range_is_empty :
  start_year default_args = 2025
  /\ end_year default_args = 2015
  /\ year_range default_args = []
  /\ (forall today, campaign default_args today = ([], None))
  /\ (forall (lower : string -> string) (findall_images : string -> list string)
             (World : Type)
             (get_search : World -> SearchRequest -> World * SearchResponse)
             (get_comments : World -> option string -> World * CommentsResponse)
             (fuel : nat) (today : DateTime) (w : World),
        main lower findall_images World get_search get_comments fuel default_args today w
        = Ok ([], w, []))
  /\ year_range Script.years_2015_to_2025
     = [2025; 2024; 2023; 2022; 2021; 2020; 2019; 2018; 2017; 2016; 2015]
  /\ length (year_range Script.years_2015_to_2025) = 11%nat.
Proof.
  repeat split.
Qed.

(** * Further properties of the code *)

Import Text Output.

(** ** Taxonomy tags ([detect_bug_types]) *)

Lemma list_filter_sublist {A} (f : A -> bool) (l : list A) :
  (List.filter f l) `sublist_of` l.
Proof.
  induction l as [|x l IH]; simpl; [constructor|].
  destruct (f x); [apply sublist_skip | apply sublist_cons]; exact IH.
Qed.

Lemma map_sublist {A B} (f : A -> B) (l k : list A) :
  l `sublist_of` k -> (map f l) `sublist_of` (map f k).
Proof.
  induction 1; simpl; [constructor | apply sublist_skip | apply sublist_cons]; assumption.
Qed.

Lemma BUG_TYPES_tags_NoDup : NoDup (map fst BUG_TYPES).
Proof. apply (bool_decide_unpack _). vm_compute. reflexivity. Qed.

Lemma detect_bug_types_In (lower : string -> string) (title body : option string)
    (tag : string) :
  In tag (detect_bug_types lower title body) <->
  exists keywords k,
    In (tag, keywords) BUG_TYPES /\ In k keywords
    /\ occurs_in k (lower (or_empty title +:+ " " +:+ or_empty body)).
Proof.
  unfold detect_bug_types. rewrite in_map_iff. split.
  - intros [[tag' keywords] [Htag Hin]]. simpl in Htag. subst tag'.
    apply filter_In in Hin as [Hin Hany]. unfold any in Hany.
    apply existsb_exists in Hany as [k [Hk Hocc]].
    exists keywords, k. repeat split; try assumption. now apply str_in_spec.
  - intros (keywords & k & Hin & Hk & Hocc).
    exists (tag, keywords). split; [reflexivity|].
    apply filter_In. split; [exact Hin|].
    unfold any. apply existsb_exists. exists k. split; [exact Hk|].
    now apply str_in_spec.
Qed.

Lemma detect_bug_types_sublist (lower : string -> string) (title body : option string) :
  (detect_bug_types lower title body) `sublist_of` (map fst BUG_TYPES).
Proof. unfold detect_bug_types. apply map_sublist, list_filter_sublist. Qed.

Lemma detect_bug_types_NoDup (lower : string -> string) (title body : option string) :
  NoDup (detect_bug_types lower title body).
Proof.
  eapply sublist_NoDup; [apply BUG_TYPES_tags_NoDup | apply detect_bug_types_sublist].
Qed.

(** X1. The tags returned by [detect_bug_types] are exactly the tags
    of the table one of whose keywords occurs in the lowercased
    "title body" text (a missing title or body counting as empty); they
    come in the order of the table, each at most once. *)
Theorem detect_bug_types_exact (lower : string -> string) (title body : option string) :
  (forall tag,
      In tag (detect_bug_types lower title body) <->
      exists keywords k,
        In (tag, keywords) BUG_TYPES /\ In k keywords
        /\ occurs_in k (lower (or_empty title +:+ " " +:+ or_empty body)))
  /\ (detect_bug_types lower title body) `sublist_of` (map fst BUG_TYPES)
  /\ NoDup (detect_bug_types lower title body).
Proof.
  split; [|split].
  - intros tag. apply detect_bug_types_In.
  - apply detect_bug_types_sublist.
  - apply detect_bug_types_NoDup.
Qed.

Lemma has_char_app (c : ascii) (a b : string) :
  has_char c (a +:+ b) = has_char c a || has_char c b.
Proof.
  induction a as [|d a IH]; simpl; [reflexivity|].
  rewrite IH. apply orb_assoc.
Qed.

Lemma occurs_in_has_char (c : ascii) (needle hay : string) :
  occurs_in needle hay -> has_char c needle = true -> has_char c hay = true.
Proof.
  intros (pre & post & ->) Hc.
  rewrite !has_char_app, Hc. rewrite orb_true_l. apply orb_true_r.
Qed.

Lemma ascii_lower_has_no_U (s : string) : has_char "U" (ascii_lower s) = false.
Proof.
  induction s as [|c s IH]; simpl; [reflexivity|].
  rewrite IH, orb_false_r.
  destruct c as [[] [] [] [] [] [] [] []]; vm_compute; reflexivity.
Qed.

(** X2. The keyword ["UI issue"] of the tag [overlap_ui] has capital
    letters and is searched in lowercased text, so it never matches:
    whenever lowercase text holds no capital U, the tag [overlap_ui] is
    given exactly when one of the other three keywords, "overlap",
    "misalignment" or "layout issue", occurs in the text. *)
Theorem ui_issue_keyword_never_matches (lower : string -> string)
    (title body : option string) :
  (forall s, has_char "U" (lower s) = false) ->
  (In "overlap_ui" (detect_bug_types lower title body) <->
   exists k, In k ["overlap"; "misalignment"; "layout issue"]
             /\ occurs_in k (lower (or_empty title +:+ " " +:+ or_empty body))).
Proof.
  intros Hlower.
  destruct (detect_bug_types_In lower title body "overlap_ui") as [Hto Hfrom].
  split.
  - intros H. destruct (Hto H) as (keywords & k & Hin & Hk & Hocc).
    assert (Hkw : keywords = ["overlap"; "misalignment"; "layout issue"; "UI issue"]).
    { simpl in Hin.
      repeat (destruct Hin as [Hin | Hin]; [inversion Hin; try reflexivity|]).
      destruct Hin. }
    subst keywords. exists k. split; [|exact Hocc].
    simpl in Hk. destruct Hk as [<- | [<- | [<- | [<- | []]]]]; simpl; auto.
    exfalso.
    pose proof (occurs_in_has_char "U" _ _ Hocc eq_refl) as HU.
    rewrite Hlower in HU. discriminate HU.
  - intros (k & Hk & Hocc). apply Hfrom.
    exists ["overlap"; "misalignment"; "layout issue"; "UI issue"], k.
    repeat split; [simpl; auto 10 | simpl in *; tauto | exact Hocc].
Qed.

Lemma ui_issue_keyword_never_matches_witness :
  ~ In "overlap_ui"
      (detect_bug_types ascii_lower (Some "UI issue on the Settings page") (Some "UI ISSUE")).
Proof.
  intros H.
  apply (ui_issue_keyword_never_matches ascii_lower _ _ ascii_lower_has_no_U) in H.
  destruct H as (k & Hk & Hocc). apply str_in_spec in Hocc.
  simpl in Hk. destruct Hk as [<- | [<- | [<- | []]]]; vm_compute in Hocc; discriminate Hocc.
Defined.

(** ** What the pager returns *)

Section PagerOutput.

Variable lower : string -> string.
Variable findall_images : string -> list string.
Variable World : Type.
Variable get_search : World -> SearchRequest -> World * SearchResponse.
Variable get_comments : World -> option string -> World * CommentsResponse.

Abbreviation items_loop_ := (items_loop lower findall_images World get_comments).
Abbreviation pages_loop_ := (pages_loop lower findall_images World get_search get_comments).
Abbreviation fetch_ :=
  (fetch_issues_by_date lower findall_images World get_search get_comments).

(** One issue per item, in order, whatever the comments endpoint
    answers. *)
Lemma items_loop_built (term : string) (items : list RawItem) (w : World) :
  Forall2 (built_from lower findall_images term) (fst (fst (items_loop_ term items w))) items.
Proof.
  revert w. induction items as [|item rest IH]; intros w; simpl; [constructor|].
  destruct (fetch_issue_comments _ _ _ _ w) as [[imgs w1] evs1].
  specialize (IH w1). destruct (items_loop_ term rest w1) as [[more w2] evs2].
  simpl in *. constructor; [|exact IH].
  unfold built_from, enriched_for. simpl. repeat split; eauto.
Qed.

Lemma not_search_not_served (evs : list Event) :
  Forall (fun e => searched_page e = None /\ is_sleep 60 e = false) evs ->
  flat_map served_items evs = [].
Proof.
  induction 1 as [|e evs [He _] _ IH]; simpl; [reflexivity|].
  rewrite IH. destruct e; try discriminate; reflexivity.
Qed.

(** The page loop appends, to the issues it starts with, one issue per
    item of the status-200 responses of its trace, in order. *)
Lemma pages_loop_built (args : Args) (term : string) (since_date until_date : Z)
    (pages : list Z) (issues : list Issue) (w : World) :
  exists built,
    fst (fst (pages_loop_ args term since_date until_date pages issues w)) = issues ++ built
    /\ Forall2 (built_from lower findall_images term) built
         (flat_map served_items
            (snd (pages_loop_ args term since_date until_date pages issues w))).
Proof.
  revert issues w. induction pages as [|page rest IH]; intros issues w.
  - exists []. simpl. rewrite app_nil_r. split; [reflexivity | constructor].
  - cbn [Miner.pages_loop].
    destruct (get_search w (request args term since_date until_date page))
      as [w1 [|status items]].
    + destruct (IH issues w1) as (built & Hres & Hbuilt).
      destruct (pages_loop_ args term since_date until_date rest issues w1) as [[r w2] evs].
      exists built. simpl in *. auto.
    + destruct (Z.eqb_spec status 403) as [-> | H403].
      * destruct (IH issues w1) as (built & Hres & Hbuilt).
        destruct (pages_loop_ args term since_date until_date rest issues w1)
          as [[r w2] evs].
        exists built. simpl in *. auto.
      * destruct (Z.eqb_spec status 200) as [-> | H200]; simpl.
        -- destruct items as [|item items'].
           ++ exists []. simpl. rewrite app_nil_r. split; [reflexivity | constructor].
           ++ pose proof (items_loop_built term (item :: items') w1) as Hnew.
              pose proof (items_loop_events lower findall_images World get_comments
                            term (item :: items') w1) as Hev.
              destruct (items_loop_ term (item :: items') w1) as [[new w2] evs_items].
              destruct (IH (issues ++ new) w2) as (built & Hres & Hbuilt).
              destruct (pages_loop_ args term since_date until_date rest (issues ++ new) w2)
                as [[r w3] evs].
              exists (new ++ built). simpl in *. split.
              ** rewrite Hres, <- app_assoc. reflexivity.
              ** rewrite flat_map_app, (not_search_not_served _ Hev). simpl.
                 exact (Forall2_app Hnew Hbuilt).
        -- exists []. simpl. rewrite app_nil_r.
           destruct (status =? 200) eqn:E; [apply Z.eqb_eq in E; contradiction|].
           split; [reflexivity | constructor].
Qed.

(** The item loop only asks for comment threads, once per item at
    most. *)
Lemma items_loop_comments_only (term : string) (items : list RawItem) (w : World) :
  Forall (fun e => exists u, e = EvComments u) (snd (items_loop_ term items w))
  /\ (length (snd (items_loop_ term items w)) <= length items)%nat.
Proof.
  revert w. induction items as [|item rest IH]; intros w; simpl.
  - split; [constructor | lia].
  - assert (Hc : Forall (fun e => exists u, e = EvComments u)
                   (snd (fetch_issue_comments findall_images World get_comments
                           (raw_comments_url item) w))
                 /\ (length (snd (fetch_issue_comments findall_images World get_comments
                                    (raw_comments_url item) w)) <= 1)%nat).
    { unfold fetch_issue_comments. destruct (raw_comments_url item) as [u|].
      - destruct (get_comments w (Some u)) as [w1 [|status comments]].
        + split; [repeat constructor; eauto | simpl; lia].
        + destruct (negb (status =? 200)); (split; [repeat constructor; eauto | simpl; lia]).
      - split; [constructor | simpl; lia]. }
    destruct (fetch_issue_comments _ _ _ _ w) as [[imgs w1] evs1].
    destruct (IH w1) as [IH1 IH2]. destruct (items_loop_ term rest w1) as [[more w2] evs2].
    simpl in *. destruct Hc as [Hc1 Hc2]. split.
    + apply Forall_app. split; assumption.
    + rewrite length_app. lia.
Qed.

Lemma served_items_bound (n : nat) (evs : list Event) :
  (forall rq status items,
      In (EvSearch rq (HttpReply status items)) evs -> (length items <= n)%nat) ->
  (length (flat_map served_items evs) <= length (searched_pages evs) * n)%nat.
Proof.
  induction evs as [|e evs IH]; intros Hn; [simpl; lia|].
  assert (IH' : (length (flat_map served_items evs)
                 <= length (searched_pages evs) * n)%nat).
  { apply IH. intros rq status items Hin. apply (Hn rq status items). now right. }
  cbn [flat_map]. rewrite length_app. unfold searched_pages in *.
  assert (Hcons : length (omap searched_page (e :: evs))
                  = (match searched_page e with Some _ => 1 | None => 0 end
                     + length (omap searched_page evs))%nat)
    by (simpl; destruct (searched_page e); reflexivity).
  rewrite Hcons. clear Hcons.
  set (m := length (omap searched_page evs)) in *.
  set (a := length (flat_map served_items evs)) in *.
  destruct e as [rq rs|u|secs]; cbn [served_items searched_page length]; try lia.
  destruct rs as [|status items]; cbn [length]; try lia.
  destruct (status =? 200).
  - specialize (Hn rq status items (or_introl eq_refl)). lia.
  - cbn [length]. lia.
Qed.

Lemma range_length (a b : Z) : length (range a b) = Z.to_nat (b - a).
Proof. unfold range. now rewrite length_map, length_seq. Qed.

End PagerOutput.

(** ** The comment threads of the items *)

Section PagerWorld.

Variable lower : string -> string.
Variable findall_images : string -> list string.
Variable World : Type.
Variable get_search : World -> SearchRequest -> World * SearchResponse.
Variable get_comments : World -> option string -> World * CommentsResponse.

Local Abbreviation after := (world_after World get_search get_comments).
Local Abbreviation comments_of :=
  (fetch_issue_comments findall_images World get_comments).
Local Abbreviation items_loop_w := (items_loop lower findall_images World get_comments).
Local Abbreviation pages_loop_w :=
  (pages_loop lower findall_images World get_search get_comments).

Lemma world_after_app (w : World) (evs1 evs2 : list Event) :
  after w (evs1 ++ evs2) = after (after w evs1) evs2.
Proof. unfold world_after. apply fold_left_app. Qed.

Lemma fetch_issue_comments_world (comments_url : option string) (w : World) :
  snd (fst (comments_of comments_url w)) = after w (snd (comments_of comments_url w)).
Proof.
  unfold Miner.fetch_issue_comments. destruct comments_url as [u|]; [|reflexivity].
  destruct (get_comments w (Some u)) as [w1 response] eqn:E.
  destruct response as [|status comments]; [|destruct (negb (status =? 200))];
    cbn; now rewrite E.
Qed.

(** An issue built from an item whose comment thread was asked for at
    some point of the trace [evs], which starts in the state [w]. *)
Local Abbreviation fetched_in term w evs :=
  (fun i item =>
     exists pre post,
       evs = pre ++ post
       /\ fetched_from lower findall_images World get_comments term (after w pre) i item
       /\ exists rest,
            post = snd (comments_of (raw_comments_url item) (after w pre)) ++ rest).

Lemma fetched_in_shift (term : string) (w : World) (before evs later : list Event)
    (issues : list Issue) (items : list RawItem) :
  Forall2 (fetched_in term (after w before) evs) issues items ->
  Forall2 (fetched_in term w (before ++ evs ++ later)) issues items.
Proof.
  intros H. eapply Forall2_impl; [exact H|].
  intros i item (pre & post & -> & Hbuilt & rest & Hpost).
  exists (before ++ pre), (post ++ later). rewrite world_after_app.
  split; [now rewrite <- !app_assoc|]. split; [exact Hbuilt|].
  exists (rest ++ later). now rewrite Hpost, <- app_assoc.
Qed.

Lemma items_loop_fetched (term : string) (items : list RawItem) (w : World) :
  snd (fst (items_loop_w term items w)) = after w (snd (items_loop_w term items w))
  /\ Forall2 (fetched_in term w (snd (items_loop_w term items w)))
       (fst (fst (items_loop_w term items w))) items.
Proof.
  revert w. induction items as [|item rest IH]; intros w; cbn [Miner.items_loop].
  - split; [reflexivity | constructor].
  - pose proof (fetch_issue_comments_world (raw_comments_url item) w) as Hw.
    destruct (comments_of (raw_comments_url item) w) as [[imgs w1] evs1] eqn:Ec.
    cbn [fst snd] in Hw. cbv zeta.
    destruct (IH w1) as [IHw IHb].
    destruct (items_loop_w term rest w1) as [[more w2] evs2]. cbn [fst snd] in *.
    split; [now rewrite world_after_app, <- Hw|].
    constructor.
    + exists [], (evs1 ++ evs2). split; [reflexivity|]. cbn [world_after fold_left].
      change (fold_left _ [] w) with w. unfold fetched_from, enriched_for.
      rewrite Ec. cbn [fst snd].
      split; [|now exists evs2].
      cbn. repeat split.
    + rewrite Hw in IHb.
      pose proof (fetched_in_shift term w evs1 evs2 [] _ _ IHb) as H.
      now rewrite app_nil_r in H.
Qed.

Lemma pages_loop_fetched (args : Args) (term : string) (since_date until_date : Z)
    (pages : list Z) (issues : list Issue) (w : World) :
  let r := pages_loop_w args term since_date until_date pages issues w in
  snd (fst r) = after w (snd r)
  /\ exists built,
       fst (fst r) = issues ++ built
       /\ Forall2 (fetched_in term w (snd r)) built (flat_map served_items (snd r)).
Proof.
  cbv zeta. revert issues w. induction pages as [|page rest IH]; intros issues w.
  - cbn. split; [reflexivity|]. exists []. rewrite app_nil_r. split; [reflexivity | constructor].
  - cbn [Miner.pages_loop].
    destruct (get_search w (request args term since_date until_date page))
      as [w1 response] eqn:Es.
    assert (Hw1 : w1 = after w [EvSearch (request args term since_date until_date page)
                                  response]).
    { cbn. now rewrite Es. }
    destruct response as [|status items].
    + destruct (IH issues w1) as (IHw & built & Hres & Hbuilt).
      destruct (pages_loop_w args term since_date until_date rest issues w1)
        as [[r w2] evs].
      cbn [fst snd] in *. split.
      * change (EvSearch ?rq ?rs :: evs) with ([EvSearch rq rs] ++ evs).
        now rewrite world_after_app, <- Hw1.
      * exists built. split; [exact Hres|]. cbn [flat_map served_items app].
        rewrite Hw1 in Hbuilt.
        pose proof (fetched_in_shift term w _ evs [] _ _ Hbuilt) as H.
        rewrite app_nil_r in H. exact H.
    + destruct (Z.eqb_spec status 403) as [-> | H403].
      * destruct (IH issues w1) as (IHw & built & Hres & Hbuilt).
        destruct (pages_loop_w args term since_date until_date rest issues w1)
          as [[r w2] evs].
        cbn [fst snd] in *.
        assert (Hw1' : w1 = after w [EvSearch (request args term since_date until_date page)
                                       (HttpReply 403 items); EvSleep 60]).
        { cbn. now rewrite Es. }
        split.
        -- change (EvSearch ?rq ?rs :: EvSleep 60 :: evs)
             with ([EvSearch rq rs; EvSleep 60] ++ evs).
           now rewrite world_after_app, <- Hw1'.
        -- exists built. split; [exact Hres|].
           cbn [flat_map served_items app Z.eqb Pos.eqb].
           rewrite Hw1' in Hbuilt.
           pose proof (fetched_in_shift term w _ evs [] _ _ Hbuilt) as H.
           rewrite app_nil_r in H. exact H.
      * destruct (Z.eqb_spec status 200) as [-> | H200]; cbn [negb].
        -- destruct items as [|item items'].
           ++ cbn [fst snd]. split; [exact Hw1|]. exists []. rewrite app_nil_r.
              split; [reflexivity | constructor].
           ++ destruct (items_loop_fetched term (item :: items') w1) as [Hw2 Hnew].
              pose proof (items_loop_events lower findall_images World get_comments
                            term (item :: items') w1) as Hev.
              destruct (items_loop_w term (item :: items') w1) as [[new w2] evs_items].
              cbn [fst snd] in Hw2, Hnew, Hev.
              destruct (IH (issues ++ new) w2) as (IHw & built & Hres & Hbuilt).
              destruct (pages_loop_w args term since_date until_date rest (issues ++ new) w2)
                as [[r w3] evs].
              cbn [fst snd] in *.
              set (rq := request args term since_date until_date page) in *.
              assert (Hw2' : w2 = after w ([EvSearch rq (HttpReply 200 (item :: items'))]
                                          ++ evs_items ++ [EvSleep 1])).
              { rewrite !world_after_app, <- Hw1, <- Hw2. reflexivity. }
              split.
              ** change (EvSearch rq (HttpReply 200 (item :: items'))
                           :: evs_items ++ EvSleep 1 :: evs)
                   with ([EvSearch rq (HttpReply 200 (item :: items'))]
                           ++ evs_items ++ [EvSleep 1] ++ evs).
                 rewrite !app_assoc, world_after_app, <- !app_assoc, <- Hw2'. exact IHw.
              ** exists (new ++ built). split; [now rewrite Hres, <- app_assoc|].
                 cbn [flat_map served_items Z.eqb Pos.eqb].
                 rewrite flat_map_app, (not_search_not_served _ Hev).
                 cbn [flat_map served_items app].
                 change (item :: items' ++ flat_map served_items evs)
                   with ((item :: items') ++ flat_map served_items evs).
                 apply Forall2_app.
                 --- rewrite Hw1 in Hnew.
                     exact (fetched_in_shift term w _ evs_items (EvSleep 1 :: evs) _ _ Hnew).
                 --- rewrite Hw2' in Hbuilt.
                     pose proof (fetched_in_shift term w _ evs [] _ _ Hbuilt) as H.
                     rewrite app_nil_r, <- !app_assoc in H. exact H.
        -- cbn [fst snd]. split; [exact Hw1|]. exists []. rewrite app_nil_r.
           cbn [flat_map served_items].
           destruct (status =? 200) eqn:E; [apply Z.eqb_eq in E; contradiction|].
           split; [reflexivity | constructor].
Qed.

End PagerWorld.


(** X4. When every response carries at most [per_page] items, the
    pager returns at most [max_pages * per_page] issues for a term and a
    window (none when [max_pages] is zero or negative). *)
Theorem fetch_returns_at_most_max_pages_times_per_page
    (lower : string -> string) (findall_images : string -> list string) (World : Type)
    (get_search : World -> SearchRequest -> World * SearchResponse)
    (get_comments : World -> option string -> World * CommentsResponse)
    (args : Args) (term : string) (since_date until_date : Z) (w : World) :
  (forall rq status items,
      In (EvSearch rq (HttpReply status items))
         (snd (fetch_issues_by_date lower findall_images World get_search get_comments
                 args term since_date until_date w)) ->
      (length items <= Z.to_nat (per_page args))%nat) ->
  (length (fst (fst (fetch_issues_by_date lower findall_images World get_search
                       get_comments args term since_date until_date w)))
   <= Z.to_nat (max_pages args) * Z.to_nat (per_page args))%nat.
Proof.
  intros Hserver. unfold Miner.fetch_issues_by_date in *.
  destruct (pages_loop_built lower findall_images World get_search get_comments
              args term since_date until_date (range 1 (max_pages args + 1)) [] w)
    as (built & Hres & Hbuilt).
  destruct (pages_loop_pages lower findall_images World get_search get_comments
              args term since_date until_date (range 1 (max_pages args + 1)) [] w)
    as [[k Hk] _].
  rewrite Hres. simpl. rewrite (Forall2_length _ _ _ Hbuilt).
  etransitivity; [apply served_items_bound; exact Hserver|].
  rewrite Hk, length_take, range_length.
  apply Nat.mul_le_mono_r. lia.
Qed.

Lemma responses_within_per_page (n : nat) (evs : list Event) :
  forallb (fun e => match e with
                    | EvSearch _ (HttpReply _ items) => (length items <=? n)%nat
                    | _ => true
                    end) evs = true ->
  forall rq status items,
    In (EvSearch rq (HttpReply status items)) evs -> (length items <= n)%nat.
Proof.
  intros H rq status items Hin. rewrite forallb_forall in H.
  specialize (H _ Hin). simpl in H. now apply Nat.leb_le.
Qed.

Lemma fetch_returns_at_most_max_pages_times_per_page_witness :
  (length (fst (fst (Script.fetch (Script.with_max_pages 3)
                       [Script.Throttled; Script.Success [Script.item1; Script.item2];
                        Script.Success [Script.item1]])))
   <= Z.to_nat 3 * Z.to_nat 10)%nat.
Proof.
  apply (fetch_returns_at_most_max_pages_times_per_page ascii_lower Script.findall_images
           Script.World Script.get_search Script.get_comments (Script.with_max_pages 3)).
  apply responses_within_per_page. vm_compute. reflexivity.
Defined.



(** ** What a quarter collects and asks for *)

Lemma Forall2_In_l {A B} (R : A -> B -> Prop) (l : list A) (k : list B) (x : A) :
  Forall2 R l k -> In x l -> exists y, In y k /\ R x y.
Proof.
  induction 1 as [|a b l k Hab _ IH]; intros Hin; [destruct Hin|].
  destruct Hin as [<- | Hin].
  - exists b. split; [now left | exact Hab].
  - destruct (IH Hin) as (y & Hy & Hxy). exists y. split; [now right | exact Hxy].
Qed.

Lemma detect_search_terms_has_term (lower : string -> string) (text : option string)
    (term : string) :
  In term (detect_search_terms lower text term)
  /\ NoDup (detect_search_terms lower text term)
  /\ (forall t, In t (detect_search_terms lower text term) -> In t SEARCH_TERMS \/ t = term).
Proof.
  unfold detect_search_terms.
  set (found := List.filter _ SEARCH_TERMS).
  assert (Hnd : NoDup found).
  { apply NoDup_ListNoDup, List.NoDup_filter, NoDup_ListNoDup, SEARCH_TERMS_NoDup. }
  assert (Hsub : forall t, In t found -> In t SEARCH_TERMS).
  { intros t Ht. apply filter_In in Ht. tauto. }
  destruct (list_in term found) eqn:Hin; cbn [negb].
  - apply list_in_spec in Hin. split; [exact Hin | split; [exact Hnd|]].
    intros t Ht. left. now apply Hsub.
  - assert (Hnot : ~ In term found).
    { intros H. apply list_in_spec in H. congruence. }
    split; [|split].
    + apply in_or_app. right. now left.
    + apply NoDup_app. split; [exact Hnd | split; [|apply NoDup_singleton]].
      intros x Hx Hx'. apply list_elem_of_In in Hx, Hx'.
      destruct Hx' as [<- | []]. contradiction.
    + intros t Ht. apply in_app_or in Ht as [Ht | [<- | []]].
      * left. now apply Hsub.
      * now right.
Qed.

Lemma sub_days_Some (d k r : Z) :
  sub_days d k = Some r -> r = d - k /\ 1 <= r <= MAXORDINAL.
Proof.
  unfold sub_days. cbv zeta.
  destruct (Z.leb_spec 1 (d - k)), (Z.leb_spec (d - k) MAXORDINAL); simpl;
    try discriminate.
  intros Heq. inversion Heq. lia.
Qed.

Section QuarterOutput.

Variable lower : string -> string.
Variable findall_images : string -> list string.
Variable World : Type.
Variable get_search : World -> SearchRequest -> World * SearchResponse.
Variable get_comments : World -> option string -> World * CommentsResponse.

Abbreviation fetch__ :=
  (fetch_issues_by_date lower findall_images World get_search get_comments).
Abbreviation terms_loop__ :=
  (terms_loop lower findall_images World get_search get_comments).
Abbreviation window_loop__ :=
  (window_loop lower findall_images World get_search get_comments).

(** Every issue observed comes out of a call of the pager for one of
    the terms. *)
Lemma terms_loop_observed (args : Args) (terms : list string) (since_date until_date : Z)
    (c : Crawl) (w : World) (i : Issue) :
  In i (observed (fst (fst (terms_loop__ args terms since_date until_date c w)))) ->
  In i (observed c)
  \/ exists term w0,
       In term terms /\ In i (fst (fst (fetch__ args term since_date until_date w0))).
Proof.
  revert c w. induction terms as [|term rest IH]; intros c w; simpl; [auto|].
  destruct (fetch__ args term since_date until_date w) as [[issues w1] evs1] eqn:Hf.
  match goal with
  | |- context [terms_loop__ args rest since_date until_date ?c1 w1] =>
      specialize (IH c1 w1);
      destruct (terms_loop__ args rest since_date until_date c1 w1) as [[c2 w2] evs2]
  end.
  simpl in *. intros Hi. destruct (IH Hi) as [Hobs | (t & w0 & Ht & Hin)].
  - rewrite dedup_loop_spec in Hobs. simpl in Hobs.
    apply in_app_or in Hobs as [Hobs | Hnew]; [now left|].
    right. exists term, w. rewrite Hf. auto.
  - right. exists t, w0. auto.
Qed.

Lemma window_loop_observed (fuel : nat) (args : Args) (q_start current_start : Z)
    (c c' : Crawl) (w w' : World) (evs : list Event) (i : Issue) :
  window_loop__ fuel args q_start current_start c w = Ok (c', w', evs) ->
  In i (observed c') ->
  In i (observed c)
  \/ exists term since_date until_date w0,
       In term SEARCH_TERMS
       /\ In i (fst (fst (fetch__ args term since_date until_date w0))).
Proof.
  revert current_start c w c' w' evs.
  induction fuel as [|fuel IH]; intros cur c w c' w' evs Hrun Hi; [discriminate|].
  cbn [Miner.window_loop] in Hrun.
  destruct (q_start <=? cur); [|inversion Hrun; subst; now left].
  destruct (sub_days cur (interval_days args - 1)) as [earliest|]; [|discriminate].
  cbv zeta in Hrun.
  match type of Hrun with
  | context [terms_loop__ args SEARCH_TERMS ?s cur ?c0 w] =>
      pose proof (terms_loop_observed args SEARCH_TERMS s cur c0 w i) as Hterms;
      destruct (terms_loop__ args SEARCH_TERMS s cur c0 w) as [[c1 w1] evs1];
      destruct (sub_days s 1) as [next|]; [|discriminate]
  end.
  simpl in Hterms.
  destruct (window_loop__ fuel args q_start next c1 w1) as [[[c2 w2] evs2]| |] eqn:Hrec;
    try discriminate.
  inversion Hrun; subst.
  destruct (IH _ _ _ _ _ _ Hrec Hi) as [Hobs | Hfetch]; [|now right].
  destruct (Hterms Hobs) as [Hc | (term & w0 & Ht & Hin)]; [now left|].
  right. do 4 eexists. split; [exact Ht | exact Hin].
Qed.

(** The requests of one call of the pager. *)
Lemma fetch_requests (args : Args) (term : string) (since_date until_date : Z)
    (w : World) (rq : SearchRequest) (rs : SearchResponse) :
  In (EvSearch rq rs) (snd (fetch__ args term since_date until_date w)) ->
  rq = request args term since_date until_date (rq_page rq)
  /\ 1 <= rq_page rq <= max_pages args.
Proof.
  intros Hin. apply in_split in Hin as (pre & post & H).
  destruct (fetch_search_event _ _ _ _ _ _ _ _ _ _ _ _ _ _ H) as (Hb & _ & Hrq & _).
  auto.
Qed.

Lemma terms_loop_requests (args : Args) (terms : list string)
    (q_start q_end since_date until_date : Z) (c : Crawl) (w : World) :
  (forall t, In t terms -> In t SEARCH_TERMS) ->
  q_start <= since_date <= until_date -> until_date <= q_end ->
  until_date - since_date + 1 <= interval_days args ->
  Forall (request_within args q_start q_end)
    (snd (terms_loop__ args terms since_date until_date c w)).
Proof.
  intros Hterms Hs Hu Hn. revert c w.
  induction terms as [|term rest IH]; intros c w; simpl; [constructor|].
  pose proof (fetch_requests args term since_date until_date w) as Hreq.
  destruct (fetch__ args term since_date until_date w) as [[issues w1] evs1].
  match goal with
  | |- context [terms_loop__ args rest since_date until_date ?c1 w1] =>
      specialize (IH ltac:(intros t Ht; apply Hterms; now right) c1 w1);
      destruct (terms_loop__ args rest since_date until_date c1 w1) as [[c2 w2] evs2]
  end.
  simpl in *. apply Forall_app. split; [|exact IH].
  apply Forall_forall. intros e He. apply list_elem_of_In in He.
  destruct e as [rq rs|u|secs]; simpl; [|exact I|exact I].
  destruct (Hreq rq rs He) as [Hrq Hpage]. rewrite Hrq. simpl.
  repeat split; try lia. apply Hterms. now left.
Qed.

Lemma window_loop_requests (fuel : nat) (args : Args) (q_start q_end current_start : Z)
    (c c' : Crawl) (w w' : World) (evs : list Event) :
  1 <= interval_days args -> current_start <= q_end ->
  window_loop__ fuel args q_start current_start c w = Ok (c', w', evs) ->
  Forall (request_within args q_start q_end) evs.
Proof.
  intros Hn. revert current_start c w c' w' evs.
  induction fuel as [|fuel IH]; intros cur c w c' w' evs Hcur Hrun; [discriminate|].
  cbn [Miner.window_loop] in Hrun.
  destruct (Z.leb_spec q_start cur) as [Hle|]; [|inversion Hrun; constructor].
  destruct (sub_days cur (interval_days args - 1)) as [earliest|] eqn:Hsub; [|discriminate].
  apply sub_days_Some in Hsub as [-> Hrange].
  cbv zeta in Hrun.
  match type of Hrun with
  | context [terms_loop__ args SEARCH_TERMS ?s cur ?c0 w] =>
      pose proof (terms_loop_requests args SEARCH_TERMS q_start q_end s cur c0 w
                    ltac:(auto) ltac:(lia) ltac:(lia) ltac:(lia)) as Hterms;
      destruct (terms_loop__ args SEARCH_TERMS s cur c0 w) as [[c1 w1] evs1];
      destruct (sub_days s 1) as [next|] eqn:Hnext; [|discriminate]
  end.
  apply sub_days_Some in Hnext as [-> _].
  simpl in Hterms.
  match type of Hrun with
  | context [window_loop__ fuel args q_start ?n c1 w1] =>
      destruct (window_loop__ fuel args q_start n c1 w1) as [[[c2 w2] evs2]| |] eqn:Hrec;
      try discriminate
  end.
  inversion Hrun; subst. apply Forall_app. split; [exact Hterms|].
  eapply IH; [|exact Hrec]. lia.
Qed.

(** With an interval of zero or fewer days the loop never ends
    normally. *)
Lemma window_loop_never_ends (fuel : nat) (args : Args) (q_start current_start : Z)
    (c : Crawl) (w : World) :
  interval_days args <= 0 ->
  q_start <= current_start -> 1 <= current_start ->
  window_loop__ fuel args q_start current_start c w = OutOfFuel
  \/ window_loop__ fuel args q_start current_start c w = Raised OverflowError.
Proof.
  intros Hn. revert current_start c w.
  induction fuel as [|fuel IH]; intros cur c w Hle Hpos; [now left|].
  cbn [Miner.window_loop].
  destruct (Z.leb_spec q_start cur); [|lia].
  destruct (sub_days cur (interval_days args - 1)) as [earliest|] eqn:Hsub; [|now right].
  apply sub_days_Some in Hsub as [-> Hrange].
  cbv zeta.
  destruct (terms_loop__ args SEARCH_TERMS _ cur _ w) as [[c1 w1] evs1].
  destruct (sub_days _ 1) as [next|] eqn:Hnext; [|now right].
  apply sub_days_Some in Hnext as [-> _].
  match goal with
  | |- context [window_loop__ fuel args q_start ?n c1 w1] =>
      destruct (IH n c1 w1) as [Hr | Hr]; [lia | lia | |]; rewrite Hr; auto
  end.
Qed.

(** With an interval of zero days the loop comes back to the same
    [current_start] after each window. *)
Lemma window_loop_zero_interval (fuel : nat) (args : Args) (q_start current_start : Z)
    (c : Crawl) (w : World) :
  interval_days args = 0 ->
  q_start <= current_start -> 1 <= current_start < MAXORDINAL ->
  window_loop__ fuel args q_start current_start c w = OutOfFuel.
Proof.
  intros Hn. revert c w.
  induction fuel as [|fuel IH]; intros c w Hle Hpos; [reflexivity|].
  cbn [Miner.window_loop].
  destruct (Z.leb_spec q_start current_start); [|lia].
  rewrite Hn. unfold sub_days at 1. cbv zeta.
  destruct (Z.leb_spec 1 (current_start - (0 - 1))); [|lia].
  destruct (Z.leb_spec (current_start - (0 - 1)) MAXORDINAL); [|lia].
  cbn [andb].
  replace (Z.max q_start (current_start - (0 - 1))) with (current_start + 1) by lia.
  destruct (terms_loop__ args SEARCH_TERMS _ current_start _ w) as [[c1 w1] evs1].
  unfold sub_days. cbv zeta.
  destruct (Z.leb_spec 1 (current_start + 1 - 1)); [|lia].
  destruct (Z.leb_spec (current_start + 1 - 1) MAXORDINAL); [|lia].
  cbn [andb]. replace (current_start + 1 - 1) with current_start by lia.
  rewrite IH by assumption. reflexivity.
Qed.

(** With a negative interval [current_start] grows until a date
    leaves the range of [datetime]. *)
Lemma window_loop_negative_interval (fuel : nat) (args : Args) (q_start current_start : Z)
    (c : Crawl) (w : World) :
  interval_days args < 0 ->
  q_start <= current_start -> 1 <= current_start <= MAXORDINAL ->
  (Z.to_nat (MAXORDINAL - current_start) < fuel)%nat ->
  window_loop__ fuel args q_start current_start c w = Raised OverflowError.
Proof.
  intros Hn. revert current_start c w.
  induction fuel as [|fuel IH]; intros cur c w Hle Hpos Hfuel; [lia|].
  cbn [Miner.window_loop].
  destruct (Z.leb_spec q_start cur); [|lia].
  destruct (sub_days cur (interval_days args - 1)) as [earliest|] eqn:Hsub; [|reflexivity].
  apply sub_days_Some in Hsub as [-> Hrange].
  cbv zeta.
  destruct (terms_loop__ args SEARCH_TERMS _ cur _ w) as [[c1 w1] evs1].
  destruct (sub_days _ 1) as [next|] eqn:Hnext; [|reflexivity].
  apply sub_days_Some in Hnext as [-> _].
  rewrite IH; [reflexivity | lia | lia | lia].
Qed.

(** Every issue returned by the pager is built from an item. *)
Lemma fetch_issue_built (args : Args) (term : string) (since_date until_date : Z)
    (w : World) (i : Issue) :
  In i (fst (fst (fetch__ args term since_date until_date w))) ->
  exists item, built_from lower findall_images term i item.
Proof.
  unfold Miner.fetch_issues_by_date.
  destruct (pages_loop_built lower findall_images World get_search get_comments
              args term since_date until_date (range 1 (max_pages args + 1)) [] w)
    as (built & Hres & Hbuilt).
  rewrite Hres. simpl. intros Hi.
  destruct (Forall2_In_l _ _ _ _ Hbuilt Hi) as (item & _ & Hitem). eauto.
Qed.

(** Every issue observed in a finished crawl was built by the pager
    under one of the configured terms. *)
Lemma observed_issue_built (fuel : nat) (args : Args) (q_start q_end : Z)
    (c : Crawl) (w w' : World) (evs : list Event) (i : Issue) :
  crawl_quarter lower findall_images World get_search get_comments
    fuel args q_start q_end w = Ok (c, w', evs) ->
  In i (observed c) ->
  exists term item, In term SEARCH_TERMS /\ built_from lower findall_images term i item.
Proof.
  unfold Miner.crawl_quarter. intros Hrun Hi.
  destruct (window_loop_observed _ _ _ _ _ _ _ _ _ _ Hrun Hi)
    as [[] | (term & since_date & until_date & w0 & Hterm & Hin)].
  destruct (fetch_issue_built _ _ _ _ _ _ Hin) as (item & Hitem). eauto.
Qed.

(** The issues collected are among the issues observed. *)
Lemma collected_issue_observed (fuel : nat) (args : Args) (q_start q_end : Z)
    (c : Crawl) (w w' : World) (evs : list Event) (i : Issue) :
  crawl_quarter lower findall_images World get_search get_comments
    fuel args q_start q_end w = Ok (c, w', evs) ->
  In i (quarter_issues c) -> In i (observed c).
Proof.
  unfold Miner.crawl_quarter. intros Hrun Hi.
  destruct (window_loop_first_writer_wins _ _ _ _ _ _ _ _ _ _ _ _ _ _ Hrun
              new_crawl_first_writer_wins) as [_ Hqi].
  rewrite Hqi in Hi. apply keep_first_In in Hi as (pre & post & -> & _).
  apply in_or_app. right. now left.
Qed.

End QuarterOutput.

Lemma enriched_issue_facts (lower : string -> string) (term : string) (i : Issue) :
  enriched_for lower term i ->
  In term (search_terms_found i)
  /\ (forall t, In t (search_terms_found i) -> In t SEARCH_TERMS \/ t = term)
  /\ NoDup (search_terms_found i)
  /\ NoDup (bug_types i)
  /\ (bug_types i) `sublist_of` (map fst BUG_TYPES).
Proof.
  intros [Htags Hterms]. rewrite Htags, Hterms.
  destruct (detect_search_terms_has_term lower (Some (title i +:+ " " +:+ body i)) term)
    as (H1 & H2 & H3).
  repeat split; try assumption.
  - apply detect_bug_types_NoDup.
  - apply detect_bug_types_sublist.
Qed.

(** X6. In every finished crawl of a quarter, each collected issue
    carries the tags and the matched terms computed from its own stored
    title and body, the matched terms for one of the configured search
    terms: computing them again from the record gives the same lists.
    So its matched terms hold that term, are all configured terms and
    are without repetition, and its tags are tags of the table, in table
    order and without repetition. *)
Theorem collected_issues_carry_their_own_tags_and_terms
    (lower : string -> string) (findall_images : string -> list string) (World : Type)
    (get_search : World -> SearchRequest -> World * SearchResponse)
    (get_comments : World -> option string -> World * CommentsResponse)
    (fuel : nat) (args : Args) (q_start q_end : Z) (w w' : World)
    (c : Crawl) (evs : list Event) :
  crawl_quarter lower findall_images World get_search get_comments
    fuel args q_start q_end w = Ok (c, w', evs) ->
  forall i, In i (quarter_issues c) ->
    exists term,
      In term SEARCH_TERMS
      /\ bug_types i = detect_bug_types lower (Some (title i)) (Some (body i))
      /\ search_terms_found i
         = detect_search_terms lower (Some (title i +:+ " " +:+ body i)) term
      /\ In term (search_terms_found i)
      /\ (forall t, In t (search_terms_found i) -> In t SEARCH_TERMS)
      /\ NoDup (search_terms_found i)
      /\ NoDup (bug_types i)
      /\ (bug_types i) `sublist_of` (map fst BUG_TYPES).
Proof.
  intros Hrun i Hi.
  apply (collected_issue_observed _ _ _ _ _ _ _ _ _ _ _ _ _ _ Hrun) in Hi.
  destruct (observed_issue_built _ _ _ _ _ _ _ _ _ _ _ _ _ _ Hrun Hi)
    as (term & item & Hterm & Hbuilt).
  destruct Hbuilt as (_ & _ & _ & _ & _ & _ & _ & _ & _ & Henr).
  destruct (enriched_issue_facts lower term i Henr) as (H1 & H2 & H3 & H4 & H5).
  exists term. destruct Henr as [Htags Hterms].
  repeat split; try assumption.
  intros t Ht. destruct (H2 t Ht) as [Hs | ->]; assumption.
Qed.

(** X7. In every finished crawl of a quarter with an interval of at
    least one day, each search request is for a configured term and for
    a window inside the quarter: its dates satisfy
    [q_start <= since <= until <= q_end], the window has at most
    [interval_days] days, the page number lies between 1 and
    [max_pages], and the page size asked for is [per_page]. *)
Theorem crawl_requests_stay_within_quarter
    (lower : string -> string) (findall_images : string -> list string) (World : Type)
    (get_search : World -> SearchRequest -> World * SearchResponse)
    (get_comments : World -> option string -> World * CommentsResponse)
    (fuel : nat) (args : Args) (q_start q_end : Z) (w w' : World)
    (c : Crawl) (evs : list Event) :
  1 <= interval_days args ->
  crawl_quarter lower findall_images World get_search get_comments
    fuel args q_start q_end w = Ok (c, w', evs) ->
  Forall (request_within args q_start q_end) evs.
Proof.
  intros Hn Hrun. unfold Miner.crawl_quarter in Hrun.
  eapply window_loop_requests; [exact Hn | | exact Hrun]. lia.
Qed.

(** X8. With an interval of zero or fewer days the crawl of a quarter
    never ends normally.  With zero days each pass of the [while] loop
    leaves [current_start] where it was, so the loop goes on for ever,
    asking again for the same window; with a negative interval
    [current_start] moves forward until a date leaves the range of
    [datetime] and the crawl ends in an [OverflowError]. *)
Theorem nonpositive_interval_never_completes
    (lower : string -> string) (findall_images : string -> list string) (World : Type)
    (get_search : World -> SearchRequest -> World * SearchResponse)
    (get_comments : World -> option string -> World * CommentsResponse)
    (fuel : nat) (args : Args) (q_start q_end : Z) (w : World) :
  interval_days args <= 0 ->
  1 <= q_start <= q_end ->
  (forall r, crawl_quarter lower findall_images World get_search get_comments
               fuel args q_start q_end w <> Ok r)
  /\ (interval_days args = 0 -> q_end < MAXORDINAL ->
      crawl_quarter lower findall_images World get_search get_comments
        fuel args q_start q_end w = OutOfFuel)
  /\ (interval_days args < 0 -> q_end <= MAXORDINAL ->
      (Z.to_nat (MAXORDINAL - q_end) < fuel)%nat ->
      crawl_quarter lower findall_images World get_search get_comments
        fuel args q_start q_end w = Raised OverflowError).
Proof.
  intros Hn Hq. unfold Miner.crawl_quarter. split; [|split].
  - intros r Hr.
    destruct (window_loop_never_ends lower findall_images World get_search get_comments
                fuel args q_start q_end new_crawl w Hn) as [H | H];
      try lia; rewrite H in Hr; discriminate Hr.
  - intros H0 Hmax. apply window_loop_zero_interval; lia.
  - intros Hneg Hmax Hfuel. apply window_loop_negative_interval; lia.
Qed.

(** ** Concrete runs used as witnesses *)

Lemma crawl_q1_2024_ok :
  exists c w' evs,
    crawl_quarter ascii_lower Script.findall_images Script.World Script.get_search
      Script.get_comments 100 default_args (ymd2ord 2024 1 1) (ymd2ord 2024 3 31)
      Demo.two_pages
    = Ok (c, w', evs)
    /\ quarter_issues c = [Script.issue1; Script.issue2].
Proof. vm_compute. do 3 eexists. split; reflexivity. Qed.

Lemma collected_issues_carry_their_own_tags_and_terms_witness :
  exists c w' evs,
    crawl_quarter ascii_lower Script.findall_images Script.World Script.get_search
      Script.get_comments 100 default_args (ymd2ord 2024 1 1) (ymd2ord 2024 3 31)
      Demo.two_pages
    = Ok (c, w', evs)
    /\ In Script.issue1 (quarter_issues c)
    /\ exists term,
         In term SEARCH_TERMS
         /\ bug_types Script.issue1
            = detect_bug_types ascii_lower (Some (title Script.issue1))
                (Some (body Script.issue1))
         /\ search_terms_found Script.issue1
            = detect_search_terms ascii_lower
                (Some (title Script.issue1 +:+ " " +:+ body Script.issue1)) term
         /\ In term (search_terms_found Script.issue1)
         /\ (forall t, In t (search_terms_found Script.issue1) -> In t SEARCH_TERMS)
         /\ NoDup (search_terms_found Script.issue1)
         /\ NoDup (bug_types Script.issue1)
         /\ (bug_types Script.issue1) `sublist_of` (map fst BUG_TYPES).
Proof.
  destruct crawl_q1_2024_ok as (c & w' & evs & Hrun & Hc).
  exists c, w', evs. split; [exact Hrun|].
  assert (Hin : In Script.issue1 (quarter_issues c)) by (rewrite Hc; now left).
  split; [exact Hin|].
  exact (collected_issues_carry_their_own_tags_and_terms ascii_lower Script.findall_images
           Script.World Script.get_search Script.get_comments 100 default_args
           (ymd2ord 2024 1 1) (ymd2ord 2024 3 31) Demo.two_pages w' c evs
           Hrun Script.issue1 Hin).
Defined.

Lemma crawl_requests_stay_within_quarter_witness :
  exists c w' evs,
    crawl_quarter ascii_lower Script.findall_images Script.World Script.get_search
      Script.get_comments 100 default_args (ymd2ord 2024 1 1) (ymd2ord 2024 3 31)
      Demo.two_pages
    = Ok (c, w', evs)
    /\ 1 <= interval_days default_args
    /\ Forall (request_within default_args (ymd2ord 2024 1 1) (ymd2ord 2024 3 31)) evs.
Proof.
  destruct crawl_q1_2024_ok as (c & w' & evs & Hrun & _).
  exists c, w', evs. split; [exact Hrun|].
  assert (Hn : 1 <= interval_days default_args) by (vm_compute; intro H; discriminate H).
  split; [exact Hn|].
  exact (crawl_requests_stay_within_quarter ascii_lower Script.findall_images
           Script.World Script.get_search Script.get_comments 100 default_args
           (ymd2ord 2024 1 1) (ymd2ord 2024 3 31) Demo.two_pages w' c evs Hn Hrun).
Defined.

Lemma nonpositive_interval_never_completes_witness :
  interval_days (Script.with_interval 0) <= 0
  /\ 1 <= ymd2ord 2024 1 1 <= ymd2ord 2024 3 31
  /\ Script.crawl 1000 (Script.with_interval 0) (ymd2ord 2024 1 1) (ymd2ord 2024 3 31) []
     = OutOfFuel.
Proof.
  assert (H0 : interval_days (Script.with_interval 0) <= 0) by decide_bounds.
  assert (Hq : 1 <= ymd2ord 2024 1 1 <= ymd2ord 2024 3 31) by decide_bounds.
  split; [exact H0 | split; [exact Hq|]].
  apply (nonpositive_interval_never_completes ascii_lower Script.findall_images
           Script.World Script.get_search Script.get_comments 1000
           (Script.with_interval 0) _ _ [] H0 Hq).
  - reflexivity.
  - vm_compute. reflexivity.
Defined.

(** ** The traversal of a quarter *)

Section QuarterTraversal.

Variable lower : string -> string.
Variable findall_images : string -> list string.
Variable World : Type.
Variable get_search : World -> SearchRequest -> World * SearchResponse.
Variable get_comments : World -> option string -> World * CommentsResponse.

Local Abbreviation traverse_t :=
  (traverse lower findall_images World get_search get_comments).
Local Abbreviation fetch_t :=
  (fetch_issues_by_date lower findall_images World get_search get_comments).
Local Abbreviation terms_loop_t :=
  (terms_loop lower findall_images World get_search get_comments).
Local Abbreviation window_loop_t :=
  (window_loop lower findall_images World get_search get_comments).

Lemma traverse_app (args : Args) (pairs1 pairs2 : list (Window * string)) (w : World) :
  traverse_t args (pairs1 ++ pairs2) w
  = (fst (fst (traverse_t args pairs1 w))
       ++ fst (fst (traverse_t args pairs2 (snd (fst (traverse_t args pairs1 w))))),
     snd (fst (traverse_t args pairs2 (snd (fst (traverse_t args pairs1 w))))),
     snd (traverse_t args pairs1 w)
       ++ snd (traverse_t args pairs2 (snd (fst (traverse_t args pairs1 w))))).
Proof.
  revert w. induction pairs1 as [|[win term] rest IH]; intros w.
  - cbn. now destruct (traverse_t args pairs2 w) as [[met w2] evs].
  - cbn [app traverse].
    destruct (fetch_t args term (fst win) (snd win) w) as [[issues w1] evs1].
    rewrite (IH w1).
    destruct (traverse_t args rest w1) as [[met1 w2] evs2]. cbn [fst snd].
    now rewrite !app_assoc.
Qed.

(** Every issue met in a traversal was returned by the pager for its
    pair, which is one of the pairs gone through. *)
Lemma traverse_met (args : Args) (pairs : list (Window * string)) (w : World)
    (win : Window) (term : string) (i : Issue) :
  In (win, term, i) (fst (fst (traverse_t args pairs w))) ->
  In (win, term) pairs
  /\ exists w0, In i (fst (fst (fetch_t args term (fst win) (snd win) w0))).
Proof.
  revert w. induction pairs as [|[win0 term0] rest IH]; intros w; [intros []|].
  cbn [traverse].
  destruct (fetch_t args term0 (fst win0) (snd win0) w) as [[issues w1] evs1] eqn:Ef.
  specialize (IH w1). destruct (traverse_t args rest w1) as [[met w2] evs2].
  cbn [fst snd] in *. intros H. apply in_app_or in H as [H | H].
  - apply in_map_iff in H as (j & Heq & Hj). inversion Heq; subst.
    split; [now left|]. exists w. now rewrite Ef.
  - destruct (IH H) as [Hp Hw]. split; [now right | exact Hw].
Qed.

(** The term loop of one window is the traversal of the pairs of that
    window. *)
Lemma terms_loop_traverse (args : Args) (terms : list string) (since_date until_date : Z)
    (c : Crawl) (w : World) :
  let r := terms_loop_t args terms since_date until_date c w in
  let t := traverse_t args (map (fun term => ((since_date, until_date), term)) terms) w in
  snd (fst t) = snd (fst r)
  /\ snd t = snd r
  /\ observed (fst (fst r)) = observed c ++ map snd (fst (fst t)).
Proof.
  cbv zeta. revert c w. induction terms as [|term rest IH]; intros c w.
  - cbn. now rewrite app_nil_r.
  - cbn [Miner.terms_loop map traverse fst snd].
    destruct (fetch_t args term since_date until_date w) as [[issues w1] evs1].
    match goal with
    | |- context [terms_loop_t args rest since_date until_date ?c1 w1] =>
        specialize (IH c1 w1);
        assert (Hobs : observed c1 = observed c ++ issues)
          by (rewrite dedup_loop_spec; reflexivity);
        destruct (terms_loop_t args rest since_date until_date c1 w1) as [[c2 w2] evs2]
    end.
    destruct (traverse_t args (map (fun term => ((since_date, until_date), term)) rest) w1)
      as [[met w2'] evs2'].
    cbn [fst snd] in *. destruct IH as (-> & -> & ->).
    repeat split. rewrite Hobs, map_app, map_map. cbn [snd].
    now rewrite map_id, app_assoc.
Qed.

(** A finished window loop is the traversal of the pairs of the windows
    it has visited, in the order of the visits. *)
Lemma window_loop_traverse (fuel : nat) (args : Args) (q_start current_start : Z)
    (c c' : Crawl) (w w' : World) (evs : list Event) :
  window_loop_t fuel args q_start current_start c w = Ok (c', w', evs) ->
  exists ws met,
    windows_visited c' = windows_visited c ++ ws
    /\ traverse_t args (traversal_pairs ws) w = (met, w', evs)
    /\ observed c' = observed c ++ map snd met
    /\ (q_start <= current_start -> snd <$> head ws = Some current_start)
    /\ (0 <= interval_days args ->
        StronglySorted (fun a b : Window => snd b < fst a) ws
        /\ Forall (fun win : Window => snd win <= current_start) ws).
Proof.
  revert current_start c w c' w' evs.
  induction fuel as [|fuel IH]; intros cur c w c' w' evs Hrun; [discriminate|].
  cbn [Miner.window_loop] in Hrun.
  destruct (Z.leb_spec q_start cur) as [Hle | Hgt].
  2: { inversion Hrun; subst. exists [], []. cbn. rewrite !app_nil_r.
       repeat split; try constructor. lia. }
  destruct (sub_days cur (interval_days args - 1)) as [earliest|] eqn:Hsub;
    [|discriminate].
  apply sub_days_Some in Hsub as [-> _].
  cbv zeta in Hrun.
  set (s := Z.max q_start (cur - (interval_days args - 1))) in *.
  match type of Hrun with
  | context [terms_loop_t args SEARCH_TERMS s cur ?c0 w] =>
      destruct (terms_loop_spec lower findall_images World get_search get_comments
                  args SEARCH_TERMS s cur c0 w) as [Hw _];
      pose proof (terms_loop_traverse args SEARCH_TERMS s cur c0 w) as Ht;
      destruct (terms_loop_t args SEARCH_TERMS s cur c0 w) as [[c1 w1] evs1]
  end.
  cbv zeta in Ht. cbn [fst snd windows_visited observed] in Hw, Ht.
  destruct Ht as (Hw1 & Hevs1 & Hobs1).
  destruct (sub_days s 1) as [next|] eqn:Hnext; [|discriminate].
  apply sub_days_Some in Hnext as [-> _].
  destruct (window_loop_t fuel args q_start (s - 1) c1 w1) as [[[c2 w2] evs2]| |] eqn:Hrec;
    try discriminate.
  inversion Hrun; subst c' w' evs; clear Hrun.
  destruct (IH _ _ _ _ _ _ Hrec) as (ws & met & Hws & Htr & Hobs & _ & Hsorted).
  exists ((s, cur) :: ws).
  exists (fst (fst (traverse_t args (map (fun term => ((s, cur), term)) SEARCH_TERMS) w))
            ++ met).
  split; [now rewrite Hws, Hw, <- app_assoc|]. split.
  - change (traversal_pairs ((s, cur) :: ws))
      with (map (fun term => ((s, cur), term)) SEARCH_TERMS ++ traversal_pairs ws).
    rewrite traverse_app, Hw1, Htr, Hevs1. reflexivity.
  - split; [now rewrite Hobs, Hobs1, map_app, app_assoc|].
    split; [reflexivity|].
    intros Hn. destruct (Hsorted Hn) as [Hs Hall]. split.
    + constructor; [exact Hs|].
      eapply Forall_impl; [exact Hall|]. cbn [fst snd]. intros win Hwin. lia.
    + constructor; [cbn; lia|].
      eapply Forall_impl; [exact Hall|]. cbn [fst snd]. intros win Hwin. lia.
Qed.

(** With a negative interval the loop does not end normally once it
    has a window to visit. *)
Lemma window_loop_negative_not_ok (fuel : nat) (args : Args) (q_start current_start : Z)
    (c : Crawl) (w : World) (r : Crawl * World * list Event) :
  interval_days args < 0 -> q_start <= current_start ->
  window_loop_t fuel args q_start current_start c w <> Ok r.
Proof.
  intros Hn Hle Hrun. destruct fuel as [|fuel]; [discriminate|].
  cbn [Miner.window_loop] in Hrun.
  destruct (Z.leb_spec q_start current_start); [|lia].
  destruct (sub_days current_start (interval_days args - 1)) as [earliest|] eqn:Hsub;
    [|discriminate].
  apply sub_days_Some in Hsub as [-> Hrange]. cbv zeta in Hrun.
  destruct (terms_loop_t args SEARCH_TERMS _ current_start _ w) as [[c1 w1] evs1].
  destruct (sub_days _ 1) as [next|] eqn:Hnext; [|discriminate].
  apply sub_days_Some in Hnext as [-> Hrange'].
  destruct (window_loop_never_ends lower findall_images World get_search get_comments
              fuel args q_start
              (Z.max q_start (current_start - (interval_days args - 1)) - 1) c1 w1)
    as [Hnever | Hnever]; try lia; rewrite Hnever in Hrun; discriminate Hrun.
Qed.

End QuarterTraversal.

Lemma map_eq_split {A B} (f : A -> B) (l : list A) (pre post : list B) (y : B) :
  map f l = pre ++ y :: post ->
  exists lpre x lpost,
    l = lpre ++ x :: lpost /\ map f lpre = pre /\ f x = y /\ map f lpost = post.
Proof.
  revert l. induction pre as [|b pre IH]; intros l H.
  - destruct l as [|x l]; [discriminate|]. inversion H; subst.
    exists [], x, l. auto.
  - destruct l as [|x l]; [discriminate|]. inversion H as [[Hx Hl]].
    destruct (IH l Hl) as (lpre & x0 & lpost & -> & <- & <- & <-).
    exists (x :: lpre), x0, lpost. auto.
Qed.

Lemma traversal_pairs_In (ws : list Window) (win : Window) (term : string) :
  In (win, term) (traversal_pairs ws) <-> In win ws /\ In term SEARCH_TERMS.
Proof.
  unfold traversal_pairs. rewrite in_flat_map. split.
  - intros (win0 & Hwin & H). apply in_map_iff in H as (t & Heq & Ht).
    inversion Heq; subst. auto.
  - intros [Hwin Ht]. exists win. split; [exact Hwin|].
    apply in_map_iff. exists term. auto.
Qed.

(** C3. Whatever the service answers during the crawl of a quarter,
    the issues collected for the quarter hold each URL at most once, and
    the copy kept of a URL is the one met first in the traversal of the
    quarter.  The traversal is that of the (window, term) pairs, the
    windows in the order of the visits, which is newest first (each
    window lies wholly before the one visited before it, the first
    ending at the end of the quarter), and for each window the search
    terms in declared order: going through these pairs once more from
    the same state of the world gives the requests of the crawl and the
    issues it observed, each with the pair that met it.  An issue is
    collected exactly when no issue met before it has its URL.  Later
    copies are dropped whole, so the matched terms of the kept copy are
    those computed for the term of the pair that met it first.  With an
    interval of at least one day that is below the day number of the
    quarter's start, the crawl ends normally. *)
Theorem quarter_keeps_first_copy_of_each_url
    (lower : string -> string) (findall_images : string -> list string) (World : Type)
    (get_search : World -> SearchRequest -> World * SearchResponse)
    (get_comments : World -> option string -> World * CommentsResponse)
    (fuel : nat) (args : Args) (q_start q_end : Z) (w : World) :
  (forall c w' evs,
      crawl_quarter lower findall_images World get_search get_comments
        fuel args q_start q_end w = Ok (c, w', evs) ->
      NoDup (map url (quarter_issues c))
      /\ StronglySorted (fun a b : Window => snd b < fst a) (windows_visited c)
      /\ (q_start <= q_end -> snd <$> head (windows_visited c) = Some q_end)
      /\ (exists met,
             traverse lower findall_images World get_search get_comments
               args (traversal_pairs (windows_visited c)) w = (met, w', evs)
             /\ observed c = map snd met
             /\ (forall i, In i (quarter_issues c) <->
                           exists pre win term post,
                             met = pre ++ (win, term, i) :: post
                             /\ (forall x, In x pre -> url (snd x) <> url i))
             /\ (forall win term i,
                    In (win, term, i) met ->
                    In win (windows_visited c) /\ In term SEARCH_TERMS
                    /\ search_terms_found i
                       = detect_search_terms lower
                           (Some (title i +:+ " " +:+ body i)) term))
      /\ (forall i, In i (quarter_issues c) <->
                    exists pre post,
                      observed c = pre ++ i :: post
                      /\ (forall j, In j pre -> url j <> url i))
      /\ (quarter_issues c) `sublist_of` (observed c)
      /\ (forall u, In u (map url (quarter_issues c)) <-> In u (map url (observed c)))
      /\ (forall u, u ∈ seen_urls c <-> In u (map url (quarter_issues c))))
  /\ (1 <= interval_days args < q_start ->
      q_start <= q_end <= MAXORDINAL ->
      (Z.to_nat (q_end - q_start) + 2 <= fuel)%nat ->
      exists c w' evs,
        crawl_quarter lower findall_images World get_search get_comments
          fuel args q_start q_end w = Ok (c, w', evs))
  /\ (let r := Script.crawl 100 default_args (ymd2ord 2024 1 1) (ymd2ord 2024 3 31)
                 [Script.Success [Script.item1];
                  Script.Success [Script.item1; Script.item2]] in
      map url (Script.crawled_observed r)
        = [url Script.issue1; url Script.issue1; url Script.issue2]
      /\ map search_terms_found (Script.crawled_observed r)
         = [["not translated"; "i18n"]; ["not translated"; "l10n"]; ["locale"; "l10n"]]
      /\ Script.crawled_issues r = [Script.issue1; Script.issue2]
      /\ search_terms_found Script.issue1 = ["not translated"; "i18n"]).
Proof.
  split; [|split].
  - intros c w' evs Hrun. unfold Miner.crawl_quarter in Hrun.
    destruct (window_loop_first_writer_wins _ _ _ _ _ _ _ _ _ _ _ _ _ _ Hrun
                new_crawl_first_writer_wins) as [Hseen Hqi].
    destruct (keep_first_urls ∅ (observed c)) as [Hnd Hu].
    destruct (window_loop_traverse _ _ _ _ _ _ _ _ _ _ _ _ _ _ Hrun)
      as (ws & met & Hws & Htr & Hobs & Hhead & Hsorted).
    cbn [windows_visited observed new_crawl app] in Hws, Hobs. subst ws.
    assert (Hfirst : forall i, In i (quarter_issues c) <->
                       exists pre post,
                         observed c = pre ++ i :: post
                         /\ (forall j, In j pre -> url j <> url i)).
    { intros i. rewrite Hqi. split.
      - intros H. apply keep_first_In in H as (pre & post & H1 & _ & H2). eauto.
      - intros (pre & post & H1 & H2). apply keep_first_In. exists pre, post.
        repeat split; [assumption | set_solver | assumption]. }
    split; [rewrite Hqi; exact Hnd|]. split; [|split; [exact Hhead|split; [|split]]].
    + destruct (Z_lt_le_dec (interval_days args) 0) as [Hneg | Hpos];
        [|exact (proj1 (Hsorted Hpos))].
      destruct (Z_lt_le_dec q_end q_start) as [Hempty | Hle].
      * destruct fuel as [|fuel']; [discriminate Hrun|].
        cbn [Miner.window_loop] in Hrun.
        destruct (Z.leb_spec q_start q_end); [lia|].
        inversion Hrun; subst. constructor.
      * exfalso. exact (window_loop_negative_not_ok lower findall_images World get_search
                          get_comments fuel args q_start q_end new_crawl w _ Hneg Hle Hrun).
    + exists met. split; [exact Htr|]. split; [exact Hobs|]. split.
      * intros i. rewrite Hfirst, Hobs. split.
        -- intros (pre & post & Heq & Hpre).
           apply map_eq_split in Heq
             as (lpre & [[win term] i0] & lpost & -> & <- & Hi & _).
           cbn [snd] in Hi. subst i0. exists lpre, win, term, lpost.
           split; [reflexivity|]. intros x Hx. apply Hpre. now apply in_map.
        -- intros (pre & win & term & post & -> & Hpre).
           exists (map snd pre), (map snd post). rewrite map_app. cbn [map snd].
           split; [reflexivity|]. intros j Hj. apply in_map_iff in Hj as (x & <- & Hx).
           now apply Hpre.
      * intros win term i Hi.
        pose proof (traverse_met lower findall_images World get_search get_comments
                      args (traversal_pairs (windows_visited c)) w win term i) as Hmet.
        rewrite Htr in Hmet. destruct (Hmet Hi) as [Hpair (w0 & Hfetched)].
        apply traversal_pairs_In in Hpair as [Hwin Hterm].
        destruct (fetch_issue_built lower findall_images World get_search get_comments
                    args term (fst win) (snd win) w0 i Hfetched) as (item & Hbuilt).
        destruct Hbuilt as (_ & _ & _ & _ & _ & _ & _ & _ & _ & _ & Hterms).
        repeat split; assumption.
    + exact Hfirst.
    + rewrite Hqi. repeat split.
      * apply keep_first_sublist.
      * intros H. now apply Hu in H.
      * intros H. apply Hu. split; [assumption | set_solver].
      * rewrite Hseen. intros H. apply elem_of_list_to_set, list_elem_of_In in H.
        apply Hu. split; [assumption | set_solver].
      * rewrite Hseen. intros H. apply Hu in H as [H _].
        apply elem_of_list_to_set, list_elem_of_In. exact H.
  - intros Hn Hq Hfuel.
    destruct (window_loop_ok lower findall_images World get_search get_comments
                fuel args q_start q_end new_crawl w)
      as (c & w' & evs & ws & Hrun & _); [lia | lia | lia |].
    exists c, w', evs. exact Hrun.
  - vm_compute. auto.
Qed.

(** On a service that answers by the dates of the request: the copy
    served for the newest window is kept, under the second term, and the
    older copy, met later under the first term, is dropped. *)
Lemma dated_crawl_ok :
  exists c w' evs,
    crawl_quarter ascii_lower Script.findall_images unit Demo.dated_search
      Demo.no_comments 100 default_args (ymd2ord 2024 1 1) (ymd2ord 2024 3 31) tt
    = Ok (c, w', evs)
    /\ quarter_issues c = [Demo.issue1_l10n]
    /\ map title (observed c)
       = ["Menu is not translated"; "Menu not translated (first report)"]
    /\ windows_visited c
       = [ (ymd2ord 2024 3 2, ymd2ord 2024 3 31);
           (ymd2ord 2024 2 1, ymd2ord 2024 3 1);
           (ymd2ord 2024 1 2, ymd2ord 2024 1 31);
           (ymd2ord 2024 1 1, ymd2ord 2024 1 1) ].
Proof. vm_compute. do 3 eexists. repeat split. Qed.

Lemma quarter_keeps_first_copy_of_each_url_witness :
  exists c w' evs,
    crawl_quarter ascii_lower Script.findall_images unit Demo.dated_search
      Demo.no_comments 100 default_args (ymd2ord 2024 1 1) (ymd2ord 2024 3 31) tt
    = Ok (c, w', evs)
    /\ quarter_issues c = [Demo.issue1_l10n]
    /\ map title (observed c)
       = ["Menu is not translated"; "Menu not translated (first report)"]
    /\ NoDup (map url (quarter_issues c))
    /\ StronglySorted (fun a b : Window => snd b < fst a) (windows_visited c)
    /\ exists met,
         traverse ascii_lower Script.findall_images unit Demo.dated_search
           Demo.no_comments default_args (traversal_pairs (windows_visited c)) tt
         = (met, w', evs)
         /\ observed c = map snd met.
Proof.
  destruct dated_crawl_ok as (c & w' & evs & Hrun & Hkept & Hobs & _).
  exists c, w', evs. split; [exact Hrun|]. split; [exact Hkept|]. split; [exact Hobs|].
  destruct (proj1 (quarter_keeps_first_copy_of_each_url ascii_lower Script.findall_images
                     unit Demo.dated_search Demo.no_comments 100 default_args
                     (ymd2ord 2024 1 1) (ymd2ord 2024 3 31) tt) c w' evs Hrun)
    as (Hnd & Hsorted & _ & (met & Htr & Hmet & _) & _).
  split; [exact Hnd|]. split; [exact Hsorted|]. exists met. split; [exact Htr | exact Hmet].
Defined.

(** ** [main]: one pair of files for each quarter of the campaign *)

Lemma StronglySorted_sublist {A} (R : A -> A -> Prop) (k l : list A) :
  sublist k l -> StronglySorted R l -> StronglySorted R k.
Proof.
  induction 1 as [| x k l Hsub IH | x k l Hsub IH]; intros Hs.
  - constructor.
  - inversion Hs as [| ? ? Hl Hx]; subst. constructor; [auto|].
    rewrite Forall_forall in *. intros y Hy. apply Hx. eapply elem_of_sublist; eauto.
  - inversion Hs; subst. auto.
Qed.

Lemma quarters_loop_keys (args : Args) (today : DateTime) (year : Z)
    (qs : list (Z * (Z * Z))) :
  sublist (map job_key (fst (quarters_loop args today year qs)))
          (map (fun q => (year, fst q)) qs).
Proof.
  induction qs as [|[q [ms me]] rest IH]; cbn [quarters_loop].
  - constructor.
  - destruct (q <? start_quarter args).
    + cbn [map]. now apply sublist_cons.
    + destruct (quarter_span year ms me) as [[q_start q_end]|]; [|apply sublist_nil_l].
      destruct (dt_gt (midnight q_start) today); [apply sublist_nil_l|].
      destruct (quarters_loop args today year rest) as [jobs err].
      cbn [fst map] in *. now apply sublist_skip.
Qed.

Lemma years_loop_keys (args : Args) (today : DateTime) (years : list Z) :
  sublist (map job_key (fst (years_loop args today years)))
          (flat_map (fun y => map (fun q => (y, fst q)) quarters) years).
Proof.
  induction years as [|year rest IH]; cbn [years_loop flat_map].
  - constructor.
  - pose proof (quarters_loop_keys args today year quarters) as Hq.
    destruct (quarters_loop args today year quarters) as [jobs [e|]]; cbn [fst] in *.
    + apply sublist_inserts_r. exact Hq.
    + destruct (years_loop args today rest) as [jobs' err]. cbn [fst] in *.
      rewrite map_app. now apply sublist_app.
Qed.

Lemma range_down_sorted (a b : Z) : StronglySorted (fun x y => y < x) (range_down a b).
Proof.
  unfold range_down. generalize (Z.to_nat (a - b)) as n. intros n.
  assert (H : forall k, StronglySorted (fun x y => y < x)
                          (map (fun i => a - Z.of_nat i) (seq k n))).
  { induction n as [|n IH]; intros k; cbn [seq map]; constructor; [apply IH|].
    apply Forall_forall. intros y Hy. apply list_elem_of_In, in_map_iff in Hy.
    destruct Hy as (i & <- & Hi). apply in_seq in Hi. lia. }
  apply H.
Qed.

Lemma year_quarters_sorted (years : list Z) :
  StronglySorted (fun x y => y < x) years ->
  StronglySorted newest_first
    (flat_map (fun y => map (fun q => (y, fst q)) quarters) years).
Proof.
  induction 1 as [|year rest Hs IH Hall]; cbn [flat_map]; [constructor|].
  assert (Hlater : forall q : Z,
             Forall (newest_first (year, q))
               (flat_map (fun y => map (fun q => (y, fst q)) quarters) rest)).
  { intros q. apply Forall_forall. intros x Hx.
    apply list_elem_of_In, in_flat_map in Hx as (y & Hy & Hx).
    apply in_map_iff in Hx as (q' & <- & _). left. cbn [fst].
    rewrite Forall_forall in Hall. apply Hall. now apply list_elem_of_In. }
  unfold quarters at 1. cbn [map fst app].
  repeat (constructor;
          [| repeat (constructor; [right; cbn [fst snd]; lia|]); apply Hlater]).
  exact IH.
Qed.

Lemma newest_first_NoDup (l : list (Z * Z)) : StronglySorted newest_first l -> NoDup l.
Proof.
  induction 1 as [|x l Hs IH Hall]; constructor; [|exact IH].
  intros Hin. rewrite Forall_forall in Hall. specialize (Hall x Hin).
  unfold newest_first in Hall. lia.
Qed.

Section MainOutput.

Variable lower : string -> string.
Variable findall_images : string -> list string.
Variable World : Type.
Variable get_search : World -> SearchRequest -> World * SearchResponse.
Variable get_comments : World -> option string -> World * CommentsResponse.

Lemma process_quarter_key (fuel : nat) (args : Args) (j : Job) (w w' : World)
    (p : Persisted) (evs : list Event) :
  process_quarter lower findall_images World get_search get_comments fuel args j w
  = Ok (p, w', evs) ->
  persisted_key p = job_key j.
Proof.
  unfold Miner.process_quarter. intros H.
  destruct (Miner.crawl_quarter _ _ _ _ _ _ _ _ _ _) as [[[c w1] evs1]| |];
    inversion H; subst. reflexivity.
Qed.

Lemma run_jobs_keys (fuel : nat) (args : Args) (jobs : list Job) (w w' : World)
    (ps : list Persisted) (evs : list Event) :
  run_jobs lower findall_images World get_search get_comments fuel args jobs w
  = Ok (ps, w', evs) ->
  map persisted_key ps = map job_key jobs.
Proof.
  revert w w' ps evs. induction jobs as [|j rest IH]; intros w w' ps evs H.
  - cbn in H. inversion H. reflexivity.
  - cbn [Miner.run_jobs] in H.
    destruct (Miner.process_quarter _ _ _ _ _ _ _ j w) as [[[p w1] evs1]| |] eqn:Hp;
      try discriminate H.
    destruct (Miner.run_jobs _ _ _ _ _ _ _ rest w1) as [[[ps' w2] evs2]| |] eqn:Hr;
      try discriminate H.
    inversion H; subst. cbn [map].
    rewrite (process_quarter_key _ _ _ _ _ _ _ Hp), (IH _ _ _ _ Hr). reflexivity.
Qed.

End MainOutput.

(** X9. When [main] ends normally it has handed to the two writers
    exactly the quarters of the campaign, one after the other: the list
    of (year, quarter) of what was persisted is that of the campaign.
    The list runs from the newest year to the oldest and, within a year,
    through the quarters upwards; so no (year, quarter) comes twice and
    no output file of the run is written a second time. *)
Theorem main_persists_campaign_quarters_in_order
    (lower : string -> string) (findall_images : string -> list string) (World : Type)
    (get_search : World -> SearchRequest -> World * SearchResponse)
    (get_comments : World -> option string -> World * CommentsResponse)
    (fuel : nat) (args : Args) (today : DateTime) (w w' : World)
    (ps : list Persisted) (evs : list Event) :
  main lower findall_images World get_search get_comments fuel args today w
  = Ok (ps, w', evs) ->
  map persisted_key ps = map job_key (fst (campaign args today))
  /\ snd (campaign args today) = None
  /\ StronglySorted newest_first (map persisted_key ps)
  /\ NoDup (map persisted_key ps).
Proof.
  unfold Miner.main. intros H.
  assert (Hsorted : StronglySorted newest_first (map job_key (fst (campaign args today)))).
  { unfold campaign, year_range.
    eapply StronglySorted_sublist; [apply years_loop_keys|].
    apply year_quarters_sorted, range_down_sorted. }
  destruct (campaign args today) as [jobs err]. cbn [fst snd] in *.
  destruct (Miner.run_jobs _ _ _ _ _ _ _ jobs w) as [[[ps0 w0] evs0]| |] eqn:Hr;
    try discriminate H.
  destruct err as [e|]; [discriminate H|]. inversion H; subst.
  rewrite (run_jobs_keys _ _ _ _ _ _ _ _ _ _ _ _ Hr).
  repeat split; try assumption. now apply newest_first_NoDup.
Qed.

Lemma main_two_years_ok :
  exists ps w' evs,
    main ascii_lower Script.findall_images Script.World Script.get_search
      Script.get_comments 100 Script.two_years_from_q3 Script.noon_2026_11_03
      Demo.two_pages
    = Ok (ps, w', evs).
Proof. vm_compute. do 3 eexists. reflexivity. Qed.

Lemma main_persists_campaign_quarters_in_order_witness :
  exists ps w' evs,
    main ascii_lower Script.findall_images Script.World Script.get_search
      Script.get_comments 100 Script.two_years_from_q3 Script.noon_2026_11_03
      Demo.two_pages
    = Ok (ps, w', evs)
    /\ map persisted_key ps
       = map job_key (fst (campaign Script.two_years_from_q3 Script.noon_2026_11_03))
    /\ snd (campaign Script.two_years_from_q3 Script.noon_2026_11_03) = None
    /\ StronglySorted newest_first (map persisted_key ps)
    /\ NoDup (map persisted_key ps).
Proof.
  destruct main_two_years_ok as (ps & w' & evs & Hrun).
  exists ps, w', evs. split; [exact Hrun|].
  exact (main_persists_campaign_quarters_in_order ascii_lower Script.findall_images
           Script.World Script.get_search Script.get_comments 100
           Script.two_years_from_q3 Script.noon_2026_11_03 Demo.two_pages w' ps evs Hrun).
Defined.

(** ** The quarters that a run of [main] processes *)

Lemma days_before_year_mono (y y' : Z) :
  y <= y' -> days_before_year y <= days_before_year y'.
Proof.
  intros H. unfold days_before_year. cbv zeta.
  assert (H4 : (y - 1) / 4 <= (y' - 1) / 4) by (apply Z.div_le_mono; lia).
  assert (H400 : (y - 1) / 400 <= (y' - 1) / 400) by (apply Z.div_le_mono; lia).
  assert (H100 : (y' - 1) / 100 - (y - 1) / 100 <= y' - y).
  { pose proof (Z.div_mod (y' - 1) 100 ltac:(lia)) as E'.
    pose proof (Z.div_mod (y - 1) 100 ltac:(lia)) as E.
    pose proof (Z.mod_pos_bound (y' - 1) 100 ltac:(lia)).
    pose proof (Z.mod_pos_bound (y - 1) 100 ltac:(lia)).
    lia. }
  lia.
Qed.

(** Every quarter of the campaign is a quarter of a year of the range:
    it starts on or after January 1 of the start year, ends within the
    range of [datetime] and has at most 92 days. *)
Lemma campaign_job_bounds (args : Args) (today : DateTime) (j : Job) :
  In j (fst (campaign args today)) ->
  ymd2ord (start_year args) 1 1 <= job_start j
  /\ job_start j <= job_end j <= MAXORDINAL
  /\ job_end j - job_start j <= 91.
Proof.
  unfold campaign. intros Hj.
  apply years_loop_In in Hj as (year & Hyear & Hj).
  apply quarters_loop_not_below_start in Hj as (_ & _ & _ & ms & me & Hq & Hspan).
  apply range_down_In in Hyear. unfold year_range in Hyear.
  destruct (quarter_span_bounds _ _ _ _ _ _ Hq Hspan) as (_ & Hse & He & Hlen).
  destruct (quarter_span_inv _ _ _ _ _ _ Hq Hspan) as (_ & Hstart & _).
  split; [|lia]. rewrite Hstart.
  pose proof (days_before_year_mono (start_year args) year ltac:(lia)) as Hmono.
  assert (Hjan : forall y, ymd2ord y 1 1 = days_before_year y + 1).
  { intros y. unfold ymd2ord. change (days_before_month y 1) with 0. lia. }
  assert (Hfirst : ymd2ord year 1 1 <= ymd2ord year ms 1).
  { apply (quarter_start_mono year 1 (job_quarter j) 1 3 ms me);
      [cbn; auto | exact Hq |].
    apply quarter_cases in Hq. lia. }
  rewrite !Hjan in *. lia.
Qed.

Section MainRuns.

Variable lower : string -> string.
Variable findall_images : string -> list string.
Variable World : Type.
Variable get_search : World -> SearchRequest -> World * SearchResponse.
Variable get_comments : World -> option string -> World * CommentsResponse.

Lemma run_jobs_ok (fuel : nat) (args : Args) (jobs : list Job) (w : World) :
  (forall j, In j jobs ->
             1 <= interval_days args < job_start j
             /\ job_start j <= job_end j <= MAXORDINAL
             /\ (Z.to_nat (job_end j - job_start j) + 2 <= fuel)%nat) ->
  exists ps w' evs,
    run_jobs lower findall_images World get_search get_comments fuel args jobs w
    = Ok (ps, w', evs).
Proof.
  revert w. induction jobs as [|j rest IH]; intros w Hjobs.
  - exists [], w, []. reflexivity.
  - cbn [Miner.run_jobs]. unfold Miner.process_quarter, Miner.crawl_quarter.
    destruct (Hjobs j (or_introl eq_refl)) as (Hn & Hq & Hfuel).
    destruct (window_loop_ok lower findall_images World get_search get_comments
                fuel args (job_start j) (job_end j) new_crawl w)
      as (c & w1 & evs1 & ws & Hrun & _); [lia | lia | lia |].
    rewrite Hrun.
    destruct (IH w1) as (ps & w2 & evs2 & Hrest);
      [intros j' Hj'; apply Hjobs; now right|].
    rewrite Hrest. eauto.
Qed.

Lemma run_jobs_In (fuel : nat) (args : Args) (jobs : list Job) (w w' : World)
    (ps : list Persisted) (evs : list Event) :
  run_jobs lower findall_images World get_search get_comments fuel args jobs w
  = Ok (ps, w', evs) ->
  forall year q,
    (exists p, In p ps /\ p_year p = year /\ p_quarter p = q)
    <-> (exists j, In j jobs /\ job_year j = year /\ job_quarter j = q).
Proof.
  intros Hrun year q.
  pose proof (run_jobs_keys lower findall_images World get_search get_comments
                _ _ _ _ _ _ _ Hrun) as Hkeys.
  split.
  - intros (p & Hp & Hy & Hq).
    assert (H : In (persisted_key p) (map job_key jobs))
      by (rewrite <- Hkeys; now apply in_map).
    apply in_map_iff in H as (j & Hj & Hin). exists j.
    unfold job_key, persisted_key in Hj. inversion Hj. split; [exact Hin | lia].
  - intros (j & Hj & Hy & Hq).
    assert (H : In (job_key j) (map persisted_key ps))
      by (rewrite Hkeys; now apply in_map).
    apply in_map_iff in H as (p & Hp & Hin). exists p.
    unfold job_key, persisted_key in Hp. inversion Hp. split; [exact Hin | lia].
Qed.

End MainRuns.


Lemma main_two_years_quarters :
  exists ps w' evs,
    main ascii_lower Script.findall_images Script.World Script.get_search
      Script.get_comments 100 Script.two_years_from_q3 Script.noon_2026_11_03
      Demo.two_pages
    = Ok (ps, w', evs)
    /\ map persisted_key ps = [(2021, 3); (2021, 4); (2020, 3); (2020, 4)].
Proof. vm_compute. do 3 eexists. split; reflexivity. Qed.


(** ** [save_to_json]: the counts of the summary *)

Lemma counter_add_lookup (m : gmap string Z) (t tag : string) :
  counter_add m t !! tag
  = if String.eqb tag t then Some (default 0 (m !! tag) + 1) else m !! tag.
Proof.
  unfold counter_add. destruct (String.eqb_spec tag t) as [-> | Hne].
  - now rewrite lookup_insert_eq.
  - rewrite lookup_insert_ne; [reflexivity | congruence].
Qed.

Lemma fold_counter_add_lookup (tags : list string) (m : gmap string Z) (tag : string) :
  fold_left counter_add tags m !! tag
  = let n := Z.of_nat (length (List.filter (String.eqb tag) tags)) in
    if n =? 0 then m !! tag else Some (default 0 (m !! tag) + n).
Proof.
  revert m. induction tags as [|t rest IH]; intros m; [reflexivity|].
  cbn [fold_left List.filter]. rewrite IH. cbv zeta. rewrite counter_add_lookup.
  destruct (String.eqb tag t); cbn [length].
  - destruct (Z.eqb_spec (Z.of_nat (S (length (List.filter (String.eqb tag) rest)))) 0);
      [lia|].
    destruct (Z.eqb_spec (Z.of_nat (length (List.filter (String.eqb tag) rest))) 0) as [E|E].
    + rewrite Nat2Z.inj_succ, E. reflexivity.
    + rewrite Nat2Z.inj_succ. set (d := default 0 (m !! tag)).
      change (default 0 (Some (d + 1))) with (d + 1). f_equal. lia.
  - reflexivity.
Qed.

Lemma Counter_lookup (tags : list string) (tag : string) :
  Counter tags !! tag
  = let n := Z.of_nat (length (List.filter (String.eqb tag) tags)) in
    if n =? 0 then None else Some n.
Proof.
  unfold Counter. rewrite fold_counter_add_lookup. cbv zeta.
  rewrite lookup_empty. cbn [default].
  destruct (_ =? 0); [reflexivity | f_equal; lia].
Qed.

Lemma count_in_NoDup (tag : string) (l : list string) :
  NoDup l ->
  length (List.filter (String.eqb tag) l) = if list_in tag l then 1%nat else 0%nat.
Proof.
  unfold list_in. induction 1 as [|x l Hx Hnd IH]; [reflexivity|].
  cbn [List.filter existsb]. destruct (String.eqb_spec tag x) as [-> | Hne].
  - cbn [orb length]. rewrite IH.
    destruct (existsb (String.eqb x) l) eqn:E; [|reflexivity].
    apply existsb_exists in E as (y & Hy & Heq). apply String.eqb_eq in Heq. subst y.
    exfalso. apply Hx. now apply list_elem_of_In.
  - cbn [orb]. exact IH.
Qed.

Lemma count_tags_of_issues (tag : string) (issues : list Issue) :
  Forall (fun i => NoDup (bug_types i)) issues ->
  length (List.filter (String.eqb tag) (flat_map bug_types issues))
  = length (List.filter (fun i => list_in tag (bug_types i)) issues).
Proof.
  induction 1 as [|i rest Hi Hrest IH]; [reflexivity|].
  cbn [flat_map List.filter]. rewrite List.filter_app, length_app, IH.
  rewrite (count_in_NoDup tag _ Hi).
  destruct (list_in tag (bug_types i)); reflexivity.
Qed.

Lemma filter_length_le {A} (f : A -> bool) (l : list A) :
  (length (List.filter f l) <= length l)%nat.
Proof.
  induction l as [|x l IH]; [reflexivity|].
  cbn [List.filter]. destruct (f x); cbn [length]; lia.
Qed.

(** X10. For every quarter that is persisted, the summary written by
    [save_to_json] counts, for each tag, the saved issues that carry it:
    a tag carried by no saved issue has no entry, and a tag with an
    entry is a tag of the table [BUG_TYPES] whose count is at least 1
    and at most [total_saved].  [total_saved] is the number of issues
    written, which is also the number of rows that [save_to_csv] writes,
    and it is at most [total_collected]. *)
Theorem summary_counts_saved_issues_per_tag
    (lower : string -> string) (findall_images : string -> list string) (World : Type)
    (get_search : World -> SearchRequest -> World * SearchResponse)
    (get_comments : World -> option string -> World * CommentsResponse)
    (fuel : nat) (args : Args) (j : Job) (w w' : World)
    (p : Persisted) (evs : list Event) :
  process_quarter lower findall_images World get_search get_comments fuel args j w
  = Ok (p, w', evs) ->
  let summary := fst (snd (persist args p)) in
  s_total_saved summary = Z.of_nat (length (snd (snd (persist args p))))
  /\ s_total_saved summary = Z.of_nat (length (snd (fst (persist args p))))
  /\ s_total_saved summary <= s_total_collected summary
  /\ forall tag,
       let n := Z.of_nat (length (List.filter (fun i => list_in tag (bug_types i))
                                              (p_issues p))) in
       s_bugtype_counts summary !! tag = (if n =? 0 then None else Some n)
       /\ n <= s_total_saved summary
       /\ (n <> 0 -> In tag (map fst BUG_TYPES)).
Proof.
  intros Hrun. unfold Miner.process_quarter in Hrun.
  destruct (Miner.crawl_quarter _ _ _ _ _ _ _ _ _ _) as [[[c w1] evs1]| |] eqn:Hc;
    try discriminate Hrun.
  inversion Hrun; subst; clear Hrun.
  cbn [persist save_to_json save_to_csv fst snd p_issues p_total_collected
       s_total_saved s_total_collected s_bugtype_counts].
  set (saved := List.filter has_images (quarter_issues c)).
  assert (Hfacts : Forall (fun i => NoDup (bug_types i)
                                    /\ (bug_types i) `sublist_of` (map fst BUG_TYPES)) saved).
  { apply Forall_forall. intros i Hi. apply list_elem_of_In in Hi.
    unfold saved in Hi. apply filter_In in Hi as [Hi _].
    apply (collected_issue_observed _ _ _ _ _ _ _ _ _ _ _ _ _ _ Hc) in Hi.
    destruct (observed_issue_built _ _ _ _ _ _ _ _ _ _ _ _ _ _ Hc Hi)
      as (term & item & _ & Hbuilt).
    destruct Hbuilt as (_ & _ & _ & _ & _ & _ & _ & _ & _ & Henr).
    destruct (enriched_issue_facts lower term i Henr) as (_ & _ & _ & H4 & H5).
    split; assumption. }
  split; [reflexivity|]. split; [now rewrite length_map|].
  split; [unfold saved; pose proof (filter_length_le has_images (quarter_issues c)); lia|].
  intros tag. cbv zeta.
  rewrite Counter_lookup. cbv zeta.
  rewrite count_tags_of_issues
    by (eapply Forall_impl; [exact Hfacts | intros i [H _]; exact H]).
  split; [reflexivity|]. split.
  - pose proof (filter_length_le (fun i => list_in tag (bug_types i)) saved). lia.
  - intros Hn.
    destruct (List.filter (fun i => list_in tag (bug_types i)) saved) as [|i rest] eqn:E;
      [cbn in Hn; lia|].
    assert (Hi : In i (List.filter (fun i => list_in tag (bug_types i)) saved))
      by (rewrite E; now left).
    apply filter_In in Hi as [Hi Htag].
    rewrite Forall_forall in Hfacts.
    destruct (Hfacts i (proj2 (list_elem_of_In _ _) Hi)) as [_ Hsub].
    apply list_in_spec in Htag.
    apply list_elem_of_In. eapply elem_of_sublist; [|exact Hsub].
    now apply list_elem_of_In.
Qed.

Lemma process_q1_2024_ok :
  exists p w' evs,
    process_quarter ascii_lower Script.findall_images Script.World Script.get_search
      Script.get_comments 100 default_args Script.q1_2024 Demo.two_pages
    = Ok (p, w', evs).
Proof. vm_compute. do 3 eexists. reflexivity. Qed.

Lemma summary_counts_saved_issues_per_tag_witness :
  exists p w' evs,
    process_quarter ascii_lower Script.findall_images Script.World Script.get_search
      Script.get_comments 100 default_args Script.q1_2024 Demo.two_pages
    = Ok (p, w', evs)
    /\ let summary := fst (snd (persist default_args p)) in
       s_total_saved summary = Z.of_nat (length (snd (snd (persist default_args p))))
       /\ s_total_saved summary = Z.of_nat (length (snd (fst (persist default_args p))))
       /\ s_total_saved summary <= s_total_collected summary
       /\ forall tag,
            let n := Z.of_nat (length (List.filter (fun i => list_in tag (bug_types i))
                                                   (p_issues p))) in
            s_bugtype_counts summary !! tag = (if n =? 0 then None else Some n)
            /\ n <= s_total_saved summary
            /\ (n <> 0 -> In tag (map fst BUG_TYPES)).
Proof.
  destruct process_q1_2024_ok as (p & w' & evs & Hrun).
  exists p, w', evs. split; [exact Hrun|].
  exact (summary_counts_saved_issues_per_tag ascii_lower Script.findall_images
           Script.World Script.get_search Script.get_comments 100 default_args
           Script.q1_2024 Demo.two_pages w' p evs Hrun).
Defined.

(** ** From [save_to_csv] to [any_valid_image]: the image cell *)

Lemma split_on_no_sep (c : ascii) (x : string) :
  has_char c x = false -> split_on c x = [x].
Proof.
  induction x as [|d x IH]; [reflexivity|].
  cbn [has_char split_on]. intros H. apply orb_false_iff in H as [Hd Hx].
  rewrite Hd, (IH Hx). reflexivity.
Qed.

Lemma split_on_app (c : ascii) (x y : string) :
  has_char c x = false -> split_on c (x +:+ String c y) = x :: split_on c y.
Proof.
  induction x as [|d x IH].
  - intros _. change (EmptyString +:+ String c y) with (String c y).
    cbn [split_on]. now rewrite Ascii.eqb_refl.
  - cbn [has_char]. intros H. apply orb_false_iff in H as [Hd Hx].
    change (String d x +:+ String c y) with (String d (x +:+ String c y)).
    cbn [split_on]. rewrite Hd, (IH Hx). reflexivity.
Qed.

Lemma split_on_join (l : list string) (x : string) :
  Forall (fun u => has_char "," u = false) (x :: l) ->
  split_on "," (join ", " (x :: l)) = x :: map (String " ") l.
Proof.
  revert x. induction l as [|y l IH]; intros x H.
  - inversion H; subst. cbn [join map]. now apply split_on_no_sep.
  - inversion H as [|? ? Hx Hrest]; subst.
    change (join ", " (x :: y :: l)) with (x +:+ String "," (String " " (join ", " (y :: l)))).
    rewrite (split_on_app _ _ _ Hx). cbn [split_on].
    rewrite (IH y Hrest). reflexivity.
Qed.

Lemma join_not_empty (sep x : string) (l : list string) :
  x <> EmptyString -> join sep (x :: l) <> EmptyString.
Proof.
  intros Hx. destruct l as [|y l]; cbn [join]; [exact Hx|].
  destruct x; [congruence | discriminate].
Qed.

(** X11. The cell that [save_to_csv] writes in the column
    ["image_urls"] is read back by the cleaning stage as the list of
    image URLs of the issue, in order, when no URL holds a comma, none
    is empty and none has white space around it (what [strip] leaves
    unchanged); and for an issue with an image the cell is not empty.
    [strip] is any function that leaves the empty string empty and
    ignores a leading space. *)
Theorem image_urls_cell_reads_back (strip : string -> string) (issue : Issue) :
  strip EmptyString = EmptyString ->
  (forall u, strip (String " " u) = strip u) ->
  Forall (fun u => strip u = u /\ u <> EmptyString /\ has_char "," u = false)
         (image_urls issue) ->
  Cleaning.split_urls strip (c_image_urls (csv_row issue)) = image_urls issue
  /\ (image_urls issue <> [] -> c_image_urls (csv_row issue) <> EmptyString).
Proof.
  intros Hempty Hspace Hurls. unfold Cleaning.split_urls, csv_row. cbn [c_image_urls].
  destruct (image_urls issue) as [|x l].
  - split; [|congruence]. cbn [join split_on List.filter]. rewrite Hempty. reflexivity.
  - split.
    + rewrite split_on_join
        by (eapply Forall_impl; [exact Hurls | intros u (_ & _ & H); exact H]).
      assert (Hkeep : forall k, Forall (fun u => strip u = u /\ u <> EmptyString
                                                 /\ has_char "," u = false) k ->
                map strip (List.filter (fun u => truthy (strip u)) (map (String " ") k)) = k).
      { induction 1 as [|u k (Hu & Hne & _) Hk IH]; [reflexivity|].
        cbn [map List.filter]. rewrite Hspace, Hu.
        destruct u; [congruence|]. cbn [truthy map]. rewrite Hspace, Hu, IH. reflexivity. }
      inversion Hurls as [|? ? (Hx & Hne & _) Hrest]; subst.
      cbn [List.filter]. rewrite Hx.
      destruct x; [congruence|]. cbn [truthy map]. rewrite Hx, (Hkeep l Hrest). reflexivity.
    + intros _. apply join_not_empty.
      inversion Hurls as [|? ? (_ & Hne & _) _]. exact Hne.
Qed.

Lemma ascii_strip_leading_space (u : string) :
  ascii_strip (String " " u) = ascii_strip u.
Proof. reflexivity. Qed.

Lemma image_urls_cell_reads_back_witness :
  Cleaning.split_urls ascii_strip (c_image_urls (csv_row Demo.issue_two_images))
  = image_urls Demo.issue_two_images
  /\ (image_urls Demo.issue_two_images <> []
      -> c_image_urls (csv_row Demo.issue_two_images) <> EmptyString).
Proof.
  apply (image_urls_cell_reads_back ascii_strip Demo.issue_two_images).
  - reflexivity.
  - exact ascii_strip_leading_space.
  - repeat constructor; try (vm_compute; reflexivity);
      let H := fresh in intro H; discriminate H.
Defined.

(** ** [clean_data.py]: the image rule *)

Section ImageRule.

Variable strip : string -> string.
Variable World : Type.
Variable get_image : World -> string -> World * Cleaning.ImageResponse.

Local Abbreviation image_is_valid := (Cleaning.image_is_valid World get_image).
Local Abbreviation any_image_is_valid := (Cleaning.any_image_is_valid World get_image).

(** The URLs requested are the first URLs of the list; all of them when
    none is valid. *)
Lemma any_image_is_valid_prefix (urls : list string) (w : World) :
  exists post,
    urls = snd (any_image_is_valid urls w) ++ post
    /\ (fst (fst (any_image_is_valid urls w)) = false -> post = []).
Proof.
  revert w. induction urls as [|url rest IH]; intros w; cbn [Cleaning.any_image_is_valid].
  - exists []. split; [reflexivity | auto].
  - destruct (image_is_valid url w) as [ok w1]. destruct ok.
    + exists rest. split; [reflexivity | discriminate].
    + destruct (IH w1) as (post & Heq & Hpost).
      destruct (any_image_is_valid rest w1) as [[r w2] requested]. cbn [fst snd] in *.
      exists post. split; [now rewrite Heq at 1 | exact Hpost].
Qed.

Variable valid : string -> bool.
Hypothesis stable : forall w u, fst (image_is_valid u w) = valid u.

Lemma any_image_is_valid_stable (urls : list string) (w : World) :
  fst (fst (any_image_is_valid urls w)) = existsb valid urls
  /\ Forall (fun u => valid u = false) (removelast (snd (any_image_is_valid urls w)))
  /\ (fst (fst (any_image_is_valid urls w)) = true ->
      exists u, last (snd (any_image_is_valid urls w)) = Some u /\ valid u = true)
  /\ (fst (fst (any_image_is_valid urls w)) = false ->
      Forall (fun u => valid u = false) urls).
Proof.
  revert w. induction urls as [|url rest IH]; intros w; cbn [Cleaning.any_image_is_valid].
  - cbn. repeat split; try constructor. discriminate.
  - pose proof (stable w url) as Hv.
    destruct (image_is_valid url w) as [ok w1]. cbn [fst] in Hv. cbn [existsb].
    rewrite <- Hv. destruct ok.
    + cbn [fst snd orb removelast last]. split; [reflexivity|].
      split; [constructor|]. split; [|discriminate].
      intros _. exists url. split; [reflexivity | now symmetry].
    + destruct (IH w1) as (H1 & H2 & H3 & H4).
      destruct (any_image_is_valid rest w1) as [[r w2] requested]. cbn [fst snd orb] in *.
      split; [exact H1|]. split; [|split].
      * destruct requested as [|u requested]; [constructor|].
        change (removelast (url :: u :: requested)) with (url :: removelast (u :: requested)).
        constructor; [now symmetry | exact H2].
      * intros Hr. destruct (H3 Hr) as (u & Hu & Hvu). exists u. split; [|exact Hvu].
        destruct requested as [|u0 requested]; [discriminate Hu|]. exact Hu.
      * intros Hr. constructor; [now symmetry | auto].
Qed.

End ImageRule.

(** X12. [any_valid_image] asks for the URLs of the cell (split at the
    commas, stripped, empty pieces dropped) in their order and stops at
    the first valid image: whatever the service answers, what it
    requests is a beginning of that list, the whole list when it answers
    no, and an empty cell gives no request.  When the answer for a URL
    does not depend on the moment of the request, it answers yes exactly
    when some URL of the cell is valid, and then every URL requested but
    the last is invalid and the last one is valid. *)
Theorem any_valid_image_stops_at_first_valid
    (strip : string -> string) (World : Type)
    (get_image : World -> string -> World * Cleaning.ImageResponse)
    (urls_str : string) (w : World) :
  let urls := match urls_str with
              | EmptyString => []
              | _ => Cleaning.split_urls strip urls_str
              end in
  let result := Cleaning.any_valid_image strip World get_image urls_str w in
  let requested := snd result in
  let ok := fst (fst result) in
  (exists post, urls = requested ++ post /\ (ok = false -> post = []))
  /\ (urls_str = EmptyString -> result = (false, w, []))
  /\ forall valid : string -> bool,
       (forall w u, fst (Cleaning.image_is_valid World get_image u w) = valid u) ->
       ok = existsb valid urls
       /\ Forall (fun u => valid u = false) (removelast requested)
       /\ (ok = true -> exists u, last requested = Some u /\ valid u = true).
Proof.
  cbv zeta. unfold Cleaning.any_valid_image.
  destruct urls_str as [|a s].
  - split; [exists []; split; [reflexivity | auto]|]. split; [reflexivity|].
    intros valid _. cbn. repeat split; try constructor. discriminate.
  - set (urls := Cleaning.split_urls strip (String a s)).
    split; [apply any_image_is_valid_prefix|]. split; [discriminate|].
    intros valid Hstable.
    destruct (any_image_is_valid_stable World get_image valid Hstable urls w)
      as (H1 & H2 & H3 & _).
    repeat split; assumption.
Qed.

Lemma get_image_stable (w : unit) (u : string) :
  fst (Cleaning.image_is_valid unit Demo.get_image u w)
  = fst (Cleaning.image_is_valid unit Demo.get_image u tt).
Proof. destruct w. reflexivity. Qed.

Lemma any_valid_image_stops_at_first_valid_witness :
  let valid := fun u => fst (Cleaning.image_is_valid unit Demo.get_image u tt) in
  let urls_str := "https://example.org/icon.png, https://example.org/shot.png, https://example.org/edge.png" in
  let result := Cleaning.any_valid_image ascii_strip unit Demo.get_image urls_str tt in
  snd result = ["https://example.org/icon.png"; "https://example.org/shot.png"]
  /\ (exists post, Cleaning.split_urls ascii_strip urls_str = snd result ++ post)
  /\ fst (fst result) = existsb valid (Cleaning.split_urls ascii_strip urls_str)
  /\ Forall (fun u => valid u = false) (removelast (snd result)).
Proof.
  intros valid urls_str result.
  pose proof (any_valid_image_stops_at_first_valid ascii_strip unit Demo.get_image
                urls_str tt) as ((post & Hpost & _) & _ & Hstable).
  destruct (Hstable valid get_image_stable) as (H2 & H3 & _).
  split; [vm_compute; reflexivity|]. split; [exists post; exact Hpost|].
  split; [exact H2 | exact H3].
Defined.

Import Csv.

(** ** [clean_data.py]: the row loop *)

Section RowLoop.

Import Cleaner Cleaning.

Variable lower : string -> string.
Variable strip : string -> string.
Variable World : Type.
Variable get_image : World -> string -> World * ImageResponse.

Local Abbreviation State := (State World).
Local Abbreviation rows_loop := (rows_loop lower strip World get_image).
Local Abbreviation any_valid_image := (any_valid_image strip World get_image).
Local Abbreviation record_row := (record_row World).
Local Abbreviation passes_text_rules := (passes_text_rules lower).
Local Abbreviation process_single_csv := (process_single_csv lower strip World get_image).
Local Abbreviation files_loop := (files_loop lower strip World get_image).
Local Abbreviation st_counters := (st_counters World).
Local Abbreviation st_log := (st_log World).
Local Abbreviation st_stats := (st_stats World).
Local Abbreviation st_world := (st_world World).
Local Abbreviation st_requests := (st_requests World).

(** One pass of the loop body. *)
Lemma rows_loop_step (csv_name : string) (row : Row) (rest valid_rows : list Row)
    (st : State) :
  exists verdict c w1 requested (keep : bool),
    rows_loop csv_name (row :: rest) valid_rows st
    = rows_loop csv_name rest (if keep then valid_rows ++ [row] else valid_rows)
        (record_row csv_name row verdict c w1 requested st)
    /\ ((verdict = "bug_keyword"
         /\ c = count_bug_keyword (scanned (st_counters st))
         /\ keep = false /\ requested = [] /\ w1 = st_world st
         /\ passes_text_rules row = false)
        \/ (verdict = "search_term"
            /\ c = count_search_term (scanned (st_counters st))
            /\ keep = false /\ requested = [] /\ w1 = st_world st
            /\ passes_text_rules row = false)
        \/ (verdict = "image"
            /\ c = count_image (scanned (st_counters st))
            /\ keep = false
            /\ passes_text_rules row = true
            /\ any_valid_image (row_get row "image_urls") (st_world st)
               = (false, w1, requested))
        \/ (verdict = "kept"
            /\ c = count_kept (scanned (st_counters st))
            /\ keep = true
            /\ passes_text_rules row = true
            /\ any_valid_image (row_get row "image_urls") (st_world st)
               = (true, w1, requested))).
Proof.
  cbn [Cleaning.rows_loop]. unfold Cleaning.passes_text_rules.
  destruct (contains_bug_keyword lower (combined_text lower row)) eqn:Hbug; cbn [negb andb].
  2: { exists "bug_keyword", (count_bug_keyword (scanned (st_counters st))),
              (st_world st), [], false.
       split; [reflexivity|]. left. repeat split. }
  destruct (contains_valid_search_term lower (combined_text lower row)) eqn:Hterm;
    cbn [negb].
  2: { exists "search_term", (count_search_term (scanned (st_counters st))),
              (st_world st), [], false.
       split; [reflexivity|]. right. left. repeat split. }
  destruct (any_valid_image (row_get row "image_urls") (st_world st))
    as [[ok w1] requested] eqn:Himg.
  destruct ok; cbn [negb].
  - exists "kept", (count_kept (scanned (st_counters st))), w1, requested, true.
    split; [reflexivity|]. right. right. right. repeat split.
  - exists "image", (count_image (scanned (st_counters st))), w1, requested, false.
    split; [reflexivity|]. right. right. left. repeat split.
Qed.

Lemma logged_as_app (verdict : string) (log1 log2 : list LogRow) :
  logged_as verdict (log1 ++ log2) = logged_as verdict log1 + logged_as verdict log2.
Proof. unfold logged_as. rewrite List.filter_app, length_app. lia. Qed.

(** The counters, the log and the stats file after the loop. *)
Lemma rows_loop_counters (csv_name : string) (reader valid_rows : list Row) (st : State) :
  let r := rows_loop csv_name reader valid_rows st in
  let c := st_counters st in
  let c' := st_counters (snd r) in
  total_scanned c' = total_scanned c + Z.of_nat (length reader)
  /\ kept c' = kept c + (Z.of_nat (length (fst r)) - Z.of_nat (length valid_rows))
  /\ kept c' + removed_bug_keyword c' + removed_search_term c' + removed_image c'
     = kept c + removed_bug_keyword c + removed_search_term c + removed_image c
       + Z.of_nat (length reader)
  /\ logged_as "kept" (st_log (snd r)) - logged_as "kept" (st_log st) = kept c' - kept c
  /\ logged_as "bug_keyword" (st_log (snd r)) - logged_as "bug_keyword" (st_log st)
     = removed_bug_keyword c' - removed_bug_keyword c
  /\ logged_as "search_term" (st_log (snd r)) - logged_as "search_term" (st_log st)
     = removed_search_term c' - removed_search_term c
  /\ logged_as "image" (st_log (snd r)) - logged_as "image" (st_log st)
     = removed_image c' - removed_image c
  /\ Z.of_nat (length (st_log (snd r)))
     = Z.of_nat (length (st_log st)) + Z.of_nat (length reader)
  /\ st_stats (snd r) = match reader with [] => st_stats st | _ :: _ => Some c' end.
Proof.
  revert valid_rows st. induction reader as [|row rest IH]; intros valid_rows st.
  - cbn. repeat split; lia.
  - cbv zeta.
    destruct (rows_loop_step csv_name row rest valid_rows st)
      as (verdict & c1 & w1 & requested & keep & -> & Hcase).
    specialize (IH (if keep then valid_rows ++ [row] else valid_rows)
                   (record_row csv_name row verdict c1 w1 requested st)).
    cbv zeta in IH.
    set (r := rows_loop csv_name rest _ _) in *.
    destruct IH as (H1 & H2 & H3 & H4 & H5 & H6 & H7 & H8 & H9).
    cbn [Cleaning.record_row Cleaning.st_counters Cleaning.st_log Cleaning.st_stats] in *.
    rewrite !logged_as_app in *. rewrite length_app in H8.
    assert (Hstats : st_stats (snd r) = Some (st_counters (snd r))).
    { rewrite H9. destruct rest; [reflexivity | reflexivity]. }
    destruct Hcase as [(-> & -> & -> & _) | [(-> & -> & -> & _)
                      | [(-> & -> & -> & _) | (-> & -> & -> & _)]]];
      cbn [length total_scanned kept removed_bug_keyword removed_search_term removed_image
           count_bug_keyword count_search_term count_image count_kept scanned] in *;
      try rewrite length_app in H2; cbn [length] in *;
      repeat split; try exact Hstats;
      try (unfold logged_as in *; cbn in *; lia).
Qed.

(** The log lines written for the rows, in order. *)
Lemma rows_loop_log (csv_name : string) (reader valid_rows : list Row) (st : State) :
  let r := rows_loop csv_name reader valid_rows st in
  map (fun l => (log_csv_file l, log_issue_id l, log_title l)) (st_log (snd r))
  = map (fun l => (log_csv_file l, log_issue_id l, log_title l)) (st_log st)
    ++ map (fun row => (csv_name, row_get row "issue_id", row_get row "title")) reader
  /\ (Forall (fun l => In (log_removed_by l) ["bug_keyword"; "search_term"; "image"; "kept"])
        (st_log st) ->
      Forall (fun l => In (log_removed_by l) ["bug_keyword"; "search_term"; "image"; "kept"])
        (st_log (snd r))).
Proof.
  revert valid_rows st. induction reader as [|row rest IH]; intros valid_rows st.
  - cbn. split; [now rewrite app_nil_r | auto].
  - cbv zeta.
    destruct (rows_loop_step csv_name row rest valid_rows st)
      as (verdict & c1 & w1 & requested & keep & -> & Hcase).
    specialize (IH (if keep then valid_rows ++ [row] else valid_rows)
                   (record_row csv_name row verdict c1 w1 requested st)).
    cbv zeta in IH. destruct IH as [IH1 IH2]. split.
    + rewrite IH1. cbn [Cleaning.record_row Cleaning.st_log].
      rewrite map_app, <- app_assoc. reflexivity.
    + intros Hlog. apply IH2. cbn [Cleaning.record_row Cleaning.st_log].
      apply Forall_app. split; [exact Hlog|]. constructor; [|constructor].
      cbn [log_removed_by].
      destruct Hcase as [(-> & _) | [(-> & _) | [(-> & _) | (-> & _)]]]; cbn; auto.
Qed.

Lemma any_valid_image_requests (cell : string) (w w1 : World) (ok : bool)
    (requested : list string) :
  any_valid_image cell w = (ok, w1, requested) ->
  (ok = true -> cell <> EmptyString)
  /\ forall u, In u requested -> In u (split_urls strip cell).
Proof.
  unfold Cleaning.any_valid_image. destruct cell as [|a s].
  - intros H. inversion H; subst. split; [discriminate | intros u []].
  - intros H. split; [discriminate|].
    destruct (any_image_is_valid_prefix World get_image (split_urls strip (String a s)) w)
      as (post & Heq & _).
    rewrite H in Heq. cbn [snd] in Heq. intros u Hu. rewrite Heq.
    apply in_or_app. now left.
Qed.

(** The rows kept and the image requests made. *)
Lemma rows_loop_valid (csv_name : string) (reader valid_rows : list Row) (st : State) :
  let r := rows_loop csv_name reader valid_rows st in
  (exists added,
      fst r = valid_rows ++ added
      /\ added `sublist_of` reader
      /\ Forall (fun row => passes_text_rules row = true
                            /\ row_get row "image_urls" <> EmptyString) added)
  /\ forall u, In u (st_requests (snd r)) ->
       In u (st_requests st)
       \/ exists row, In row reader /\ passes_text_rules row = true
                      /\ In u (split_urls strip (row_get row "image_urls")).
Proof.
  revert valid_rows st. induction reader as [|row rest IH]; intros valid_rows st.
  - cbn. split; [|auto]. exists []. rewrite app_nil_r. repeat split; constructor.
  - cbv zeta.
    destruct (rows_loop_step csv_name row rest valid_rows st)
      as (verdict & c1 & w1 & requested & keep & -> & Hcase).
    specialize (IH (if keep then valid_rows ++ [row] else valid_rows)
                   (record_row csv_name row verdict c1 w1 requested st)).
    cbv zeta in IH. destruct IH as [(added & Hadd & Hsub & Hall) Hreq].
    cbn [Cleaning.record_row Cleaning.st_requests] in Hreq.
    assert (Hrequested : forall u, In u requested ->
               passes_text_rules row = true
               /\ In u (split_urls strip (row_get row "image_urls"))).
    { intros u Hu.
      destruct Hcase as [(_ & _ & _ & -> & _) | [(_ & _ & _ & -> & _)
                        | [(_ & _ & _ & Hp & Himg) | (_ & _ & _ & Hp & Himg)]]];
        try (destruct Hu; fail);
        (split; [exact Hp | exact (proj2 (any_valid_image_requests _ _ _ _ _ Himg) u Hu)]). }
    split.
    + destruct Hcase as [(_ & _ & -> & _) | [(_ & _ & -> & _)
                        | [(_ & _ & -> & _) | (_ & _ & -> & Hp & Himg)]]].
      1-3: exists added; split; [exact Hadd|]; split; [now apply sublist_cons | exact Hall].
      exists (row :: added). rewrite Hadd, <- app_assoc. split; [reflexivity|].
      split; [now apply sublist_skip|]. constructor; [|exact Hall].
      split; [exact Hp|]. exact (proj1 (any_valid_image_requests _ _ _ _ _ Himg) eq_refl).
    + intros u Hu. destruct (Hreq u Hu) as [Hold | (row' & Hin & Hp & Hurl)].
      * apply in_app_or in Hold as [Hold | Hnew]; [now left|].
        right. exists row. split; [now left | now apply Hrequested].
      * right. exists row'. split; [now right | auto].
Qed.

Section StableImages.

Variable valid : string -> bool.
Hypothesis stable : forall w u, fst (image_is_valid World get_image u w) = valid u.

Lemma any_valid_image_stable (cell : string) (w : World) :
  fst (fst (any_valid_image cell w))
  = match cell with
    | EmptyString => false
    | _ => existsb valid (split_urls strip cell)
    end.
Proof.
  unfold Cleaning.any_valid_image. destruct cell as [|a s]; [reflexivity|].
  apply (any_image_is_valid_stable World get_image valid stable).
Qed.

Lemma rows_loop_stable (csv_name : string) (reader valid_rows : list Row) (st : State) :
  fst (rows_loop csv_name reader valid_rows st)
  = valid_rows
    ++ List.filter
         (fun row => passes_text_rules row
                     && match row_get row "image_urls" with
                        | EmptyString => false
                        | _ => existsb valid (split_urls strip (row_get row "image_urls"))
                        end) reader.
Proof.
  revert valid_rows st. induction reader as [|row rest IH]; intros valid_rows st.
  - cbn. now rewrite app_nil_r.
  - destruct (rows_loop_step csv_name row rest valid_rows st)
      as (verdict & c1 & w1 & requested & keep & -> & Hcase).
    rewrite IH. cbn [List.filter].
    pose proof (any_valid_image_stable (row_get row "image_urls") (st_world st)) as Himg.
    destruct Hcase as [(_ & _ & -> & _ & _ & Hp) | [(_ & _ & -> & _ & _ & Hp)
                      | [(_ & _ & -> & Hp & Hrun) | (_ & _ & -> & Hp & Hrun)]]];
      rewrite Hp; cbn [andb]; try reflexivity;
      rewrite Hrun in Himg; cbn [fst] in Himg; rewrite <- Himg;
      [reflexivity | now rewrite <- app_assoc].
Qed.

End StableImages.

(** ** [clean_data.py]: the cleaned file *)

Lemma without_body_In (cols : list string) (c : string) :
  In c (without_body cols) <-> In c cols /\ c <> "body".
Proof.
  unfold without_body. rewrite filter_In. split; intros [H1 H2]; split; try exact H1.
  - intros ->. discriminate H2.
  - destruct (String.eqb_spec c "body"); [contradiction | reflexivity].
Qed.

Lemma keys_row_pop (row : Row) : keys (row_pop "body" row) = without_body (keys row).
Proof.
  unfold keys, row_pop, without_body. induction row as [|[k v] row IH]; [reflexivity|].
  cbn [List.filter map fst]. destruct (String.eqb k "body"); cbn [negb map fst].
  - exact IH.
  - now rewrite IH.
Qed.

Lemma row_get_row_pop (row : Row) (key : string) :
  key <> "body" -> row_get (row_pop "body" row) key = row_get row key.
Proof.
  intros Hne. unfold row_get. f_equal.
  induction row as [|[k v] row IH]; [reflexivity|].
  cbn [row_pop List.filter fst row_lookup].
  destruct (String.eqb_spec k "body") as [-> | Hk]; cbn [negb row_lookup].
  - destruct (String.eqb_spec "body" key); [congruence | exact IH].
  - destruct (String.eqb k key); [reflexivity | exact IH].
Qed.

Lemma list_in_In (x : string) (l : list string) : list_in x l = true <-> In x l.
Proof.
  unfold list_in. rewrite existsb_exists. split.
  - intros (y & Hy & Heq). apply String.eqb_eq in Heq. now subst.
  - intros H. exists x. split; [exact H | apply String.eqb_refl].
Qed.

Lemma write_rows_all (names : list string) (rows : list Row) :
  Forall (fun row => forall k, In k (keys row) -> In k names) rows ->
  write_rows names rows = (map (fun row => map (row_get row) names) rows, true).
Proof.
  induction 1 as [|row rows Hrow Hrows IH]; [reflexivity|].
  cbn [write_rows map]. unfold dict_to_list.
  assert (Hall : forallb (fun k => list_in k names) (keys row) = true).
  { apply forallb_forall. intros k Hk. apply list_in_In. auto. }
  rewrite Hall, IH. reflexivity.
Qed.

Lemma process_single_csv_state (csv_name : string) (reader : list Row) (st : State) :
  snd (process_single_csv csv_name reader st) = snd (rows_loop csv_name reader [] st).
Proof.
  unfold Cleaning.process_single_csv.
  destruct (rows_loop csv_name reader [] st) as [valid_rows st'].
  destruct valid_rows as [|first rest]; [reflexivity|].
  destruct (write_rows _ _) as [written ok]. reflexivity.
Qed.

Lemma process_single_csv_uniform (csv_name : string) (reader : list Row) (st : State)
    (ks : list string) :
  Forall (fun row => keys row = ks) reader ->
  fst (process_single_csv csv_name reader st)
  = match fst (rows_loop csv_name reader [] st) with
    | [] => NoValidIssues
    | valid_rows =>
        Saved {| fieldnames := without_body ks;
                 lines := map (fun row => map (row_get row) (without_body ks)) valid_rows |}
    end.
Proof.
  intros Hks. unfold Cleaning.process_single_csv.
  destruct (rows_loop_valid csv_name reader [] st) as [(added & Hadd & Hsub & _) _].
  destruct (rows_loop csv_name reader [] st) as [valid_rows st'].
  cbn [fst app] in *. subst added.
  assert (Hvalid : Forall (fun row => keys row = ks) valid_rows).
  { apply Forall_forall. intros row Hrow. rewrite Forall_forall in Hks.
    apply Hks. eapply elem_of_sublist; eauto. }
  destruct valid_rows as [|first rest]; [reflexivity|].
  assert (Hfirst : keys first = ks) by (inversion Hvalid; assumption).
  rewrite Hfirst. rewrite write_rows_all.
  - cbn [fst]. f_equal. f_equal. rewrite map_map. apply map_ext_in. intros row _.
    apply map_ext_in. intros c Hc. apply row_get_row_pop.
    apply without_body_In in Hc. tauto.
  - apply Forall_forall. intros row Hrow. apply list_elem_of_In, in_map_iff in Hrow.
    destruct Hrow as (row0 & <- & Hrow0). intros k Hk.
    rewrite keys_row_pop in Hk. rewrite Forall_forall in Hvalid.
    rewrite (Hvalid row0) in Hk by now apply list_elem_of_In. exact Hk.
Qed.

(** ** [clean_data.py]: [main] over the files *)

Lemma files_loop_cons (name : string) (reader : list Row)
    (rest : list (string * list Row)) (st : State) :
  let st1 := snd (rows_loop name reader [] st) in
  (exists out, files_loop ((name, reader) :: rest) st = ([("cleaned_" +:+ name, out)], st1))
  \/ (exists out,
         files_loop ((name, reader) :: rest) st
         = (("cleaned_" +:+ name, out) :: fst (files_loop rest st1),
            snd (files_loop rest st1))).
Proof.
  cbv zeta. cbn [Cleaning.files_loop].
  rewrite <- (process_single_csv_state name reader st).
  destruct (process_single_csv name reader st) as [out st1]. cbn [snd].
  destruct out as [|f|f].
  - right. exists NoValidIssues. now destruct (files_loop rest st1).
  - right. exists (Saved f). now destruct (files_loop rest st1).
  - left. now exists (WriteFailed f).
Qed.

Lemma files_loop_no_rows (csv_files : list (string * list Row)) (st : State) :
  flat_map snd (firstn (length (fst (files_loop csv_files st))) csv_files) = [] ->
  st_counters (snd (files_loop csv_files st)) = st_counters st.
Proof.
  revert st. induction csv_files as [|[name reader] rest IH]; intros st; [reflexivity|].
  destruct (files_loop_cons name reader rest st) as [[out ->] | [out ->]];
    cbn [fst snd length firstn flat_map]; intros H;
    apply app_eq_nil in H as [-> H]; [reflexivity|].
  cbn [Cleaning.rows_loop snd] in *. now apply IH.
Qed.

Lemma files_loop_counters (csv_files : list (string * list Row)) (st : State) :
  let r := files_loop csv_files st in
  let rows := flat_map snd (firstn (length (fst r)) csv_files) in
  let c := st_counters st in
  let c' := st_counters (snd r) in
  total_scanned c' = total_scanned c + Z.of_nat (length rows)
  /\ kept c' + removed_bug_keyword c' + removed_search_term c' + removed_image c'
     = kept c + removed_bug_keyword c + removed_search_term c + removed_image c
       + Z.of_nat (length rows)
  /\ logged_as "kept" (st_log (snd r)) - logged_as "kept" (st_log st) = kept c' - kept c
  /\ logged_as "bug_keyword" (st_log (snd r)) - logged_as "bug_keyword" (st_log st)
     = removed_bug_keyword c' - removed_bug_keyword c
  /\ logged_as "search_term" (st_log (snd r)) - logged_as "search_term" (st_log st)
     = removed_search_term c' - removed_search_term c
  /\ logged_as "image" (st_log (snd r)) - logged_as "image" (st_log st)
     = removed_image c' - removed_image c
  /\ Z.of_nat (length (st_log (snd r)))
     = Z.of_nat (length (st_log st)) + Z.of_nat (length rows)
  /\ st_stats (snd r) = match rows with [] => st_stats st | _ :: _ => Some c' end.
Proof.
  revert st. induction csv_files as [|[name reader] rest IH]; intros st.
  - cbn. repeat split; lia.
  - cbv zeta.
    pose proof (rows_loop_counters name reader [] st) as Hrows. cbv zeta in Hrows.
    destruct Hrows as (H1 & _ & H3 & H4 & H5 & H6 & H7 & H8 & H9).
    destruct (files_loop_cons name reader rest st) as [[out ->] | [out ->]];
      cbn [fst snd length firstn flat_map].
    + rewrite app_nil_r. repeat split; try assumption.
    + specialize (IH (snd (rows_loop name reader [] st))). cbv zeta in IH.
      destruct IH as (I1 & I3 & I4 & I5 & I6 & I7 & I8 & I9).
      set (st1 := snd (rows_loop name reader [] st)) in *.
      set (r := files_loop rest st1) in *.
      set (rows := flat_map snd (firstn (length (fst r)) rest)) in *.
      rewrite length_app.
      repeat split; try lia.
      rewrite I9. destruct rows as [|row rows'] eqn:Erows.
      * rewrite app_nil_r, H9. destruct reader; [reflexivity|].
        unfold r. now rewrite (files_loop_no_rows rest st1 Erows).
      * destruct reader; reflexivity.
Qed.

Lemma files_loop_log (csv_files : list (string * list Row)) (st : State) :
  let r := files_loop csv_files st in
  let scanned_files := firstn (length (fst r)) csv_files in
  map fst (fst r) = map (fun f => "cleaned_" +:+ fst f) scanned_files
  /\ map (fun l => (log_csv_file l, log_issue_id l, log_title l)) (st_log (snd r))
     = map (fun l => (log_csv_file l, log_issue_id l, log_title l)) (st_log st)
       ++ flat_map (fun f => map (fun row => (fst f, row_get row "issue_id",
                                               row_get row "title")) (snd f))
            scanned_files
  /\ (Forall (fun l => In (log_removed_by l) ["bug_keyword"; "search_term"; "image"; "kept"])
        (st_log st) ->
      Forall (fun l => In (log_removed_by l) ["bug_keyword"; "search_term"; "image"; "kept"])
        (st_log (snd r)))
  /\ ((length (fst r) < length csv_files)%nat ->
      exists name partial, last (fst r) = Some (name, WriteFailed partial)).
Proof.
  revert st. induction csv_files as [|[name reader] rest IH]; intros st.
  - cbn. repeat split; try (now rewrite app_nil_r); auto. lia.
  - cbv zeta.
    pose proof (rows_loop_log name reader [] st) as Hlog. cbv zeta in Hlog.
    destruct Hlog as [L1 L2].
    pose proof (files_loop_cons name reader rest st) as Hcons. cbv zeta in Hcons.
    cbn [Cleaning.files_loop] in *.
    rewrite <- (process_single_csv_state name reader st) in *.
    destruct (process_single_csv name reader st) as [out st1]. cbn [snd] in *.
    specialize (IH st1). cbv zeta in IH. destruct IH as (I1 & I2 & I3 & I4).
    destruct out as [|f|f];
      try (destruct (files_loop rest st1) as [more st2] eqn:Hrest);
      cbn [fst snd length firstn flat_map map] in *.
    + repeat split.
      * now rewrite I1.
      * rewrite I2, L1, <- app_assoc. reflexivity.
      * auto.
      * intros Hlt. destruct I4 as (n & partial & Hlast); [lia|].
        exists n, partial. destruct more; [discriminate Hlast | exact Hlast].
    + repeat split.
      * now rewrite I1.
      * rewrite I2, L1, <- app_assoc. reflexivity.
      * auto.
      * intros Hlt. destruct I4 as (n & partial & Hlast); [lia|].
        exists n, partial. destruct more; [discriminate Hlast | exact Hlast].
    + repeat split.
      * rewrite L1, app_nil_r. reflexivity.
      * auto.
      * intros _. eauto.
Qed.

End RowLoop.
(** X13. After [main] has run over the files of [output/], the shared
    counters agree with the rows read and with the log: [total_scanned]
    is the number of rows of the files gone through and is the sum of
    the other four counters; each of these four is the number of log
    lines with its verdict; and the log has one line for each row.  The
    stats file holds the final counters, but is not written at all when
    the files have no row. *)
Theorem cleaning_counters_match_rows_and_log
    (lower strip : string -> string) (World : Type)
    (get_image : World -> string -> World * Cleaning.ImageResponse)
    (csv_files : list (string * list Row)) (w : World)
    (outs : list (string * Cleaning.Outcome)) (st : Cleaning.State World) :
  Cleaning.main lower strip World get_image csv_files w = Some (outs, st) ->
  let c := Cleaning.st_counters World st in
  let log := Cleaning.st_log World st in
  let rows := flat_map snd (firstn (length outs) csv_files) in
  Cleaning.total_scanned c = Z.of_nat (length rows)
  /\ Cleaning.total_scanned c
     = Cleaning.kept c + Cleaning.removed_bug_keyword c
       + Cleaning.removed_search_term c + Cleaning.removed_image c
  /\ Cleaning.kept c = Cleaning.logged_as "kept" log
  /\ Cleaning.removed_bug_keyword c = Cleaning.logged_as "bug_keyword" log
  /\ Cleaning.removed_search_term c = Cleaning.logged_as "search_term" log
  /\ Cleaning.removed_image c = Cleaning.logged_as "image" log
  /\ Z.of_nat (length log) = Cleaning.total_scanned c
  /\ Cleaning.st_stats World st = match rows with [] => None | _ :: _ => Some c end.
Proof.
  intros H.
  set (st0 := {| Cleaning.st_counters := Cleaning.no_counts; Cleaning.st_log := [];
                 Cleaning.st_stats := None; Cleaning.st_world := w;
                 Cleaning.st_requests := [] |}).
  assert (Hrun : Cleaning.files_loop lower strip World get_image csv_files st0 = (outs, st)).
  { destruct csv_files; [discriminate H|]. injection H as H. exact H. }
  pose proof (files_loop_counters lower strip World get_image csv_files st0) as Hc.
  cbv zeta in Hc. rewrite Hrun in Hc. unfold st0 in Hc.
  cbn [fst snd Cleaning.st_counters Cleaning.st_log Cleaning.st_stats Cleaning.no_counts
       Cleaning.total_scanned Cleaning.kept Cleaning.removed_bug_keyword
       Cleaning.removed_search_term Cleaning.removed_image] in Hc.
  destruct Hc as (H1 & H3 & H4 & H5 & H6 & H7 & H8 & H9).
  change (Cleaning.logged_as "kept" []) with 0 in H4.
  change (Cleaning.logged_as "bug_keyword" []) with 0 in H5.
  change (Cleaning.logged_as "search_term" []) with 0 in H6.
  change (Cleaning.logged_as "image" []) with 0 in H7.
  cbn [length] in H8. cbv zeta.
  repeat split; try lia. exact H9.
Qed.

Lemma clean_quarter_file_ok :
  exists outs st,
    Cleaning.main ascii_lower ascii_strip unit Demo.get_image
      [(Demo.quarter_file_name, Demo.quarter_rows)] tt
    = Some (outs, st).
Proof. vm_compute. do 2 eexists. reflexivity. Qed.

Lemma cleaning_counters_match_rows_and_log_witness :
  exists outs st,
    Cleaning.main ascii_lower ascii_strip unit Demo.get_image
      [(Demo.quarter_file_name, Demo.quarter_rows)] tt
    = Some (outs, st)
    /\ let c := Cleaning.st_counters unit st in
       let log := Cleaning.st_log unit st in
       let rows := flat_map snd (firstn (length outs)
                                   [(Demo.quarter_file_name, Demo.quarter_rows)]) in
       Cleaning.total_scanned c = Z.of_nat (length rows)
       /\ Cleaning.total_scanned c
          = Cleaning.kept c + Cleaning.removed_bug_keyword c
            + Cleaning.removed_search_term c + Cleaning.removed_image c
       /\ Cleaning.kept c = Cleaning.logged_as "kept" log
       /\ Cleaning.removed_bug_keyword c = Cleaning.logged_as "bug_keyword" log
       /\ Cleaning.removed_search_term c = Cleaning.logged_as "search_term" log
       /\ Cleaning.removed_image c = Cleaning.logged_as "image" log
       /\ Z.of_nat (length log) = Cleaning.total_scanned c
       /\ Cleaning.st_stats unit st = match rows with [] => None | _ :: _ => Some c end.
Proof.
  destruct clean_quarter_file_ok as (outs & st & Hrun).
  exists outs, st. split; [exact Hrun|].
  exact (cleaning_counters_match_rows_and_log ascii_lower ascii_strip unit Demo.get_image
           [(Demo.quarter_file_name, Demo.quarter_rows)] tt outs st Hrun).
Defined.

(** X14. The log of a run of [main] has, for each file gone through and
    each of its rows, in order, one line with the name of the file and
    the [issue_id] and [title] of the row (empty where the row has no
    such column), and a verdict that is one of [bug_keyword],
    [search_term], [image] and [kept].  The files gone through are the
    first files of the sorted list, each with its cleaned name; all of
    them unless the writing of a cleaned file failed, which ends the
    run. *)
Theorem cleaning_log_has_one_line_per_row
    (lower strip : string -> string) (World : Type)
    (get_image : World -> string -> World * Cleaning.ImageResponse)
    (csv_files : list (string * list Row)) (w : World)
    (outs : list (string * Cleaning.Outcome)) (st : Cleaning.State World) :
  Cleaning.main lower strip World get_image csv_files w = Some (outs, st) ->
  let scanned_files := firstn (length outs) csv_files in
  map fst outs = map (fun f => "cleaned_" +:+ fst f) scanned_files
  /\ map (fun l => (Cleaning.log_csv_file l, Cleaning.log_issue_id l, Cleaning.log_title l))
         (Cleaning.st_log World st)
     = flat_map (fun f => map (fun row => (fst f, row_get row "issue_id",
                                            row_get row "title")) (snd f))
         scanned_files
  /\ Forall (fun l => In (Cleaning.log_removed_by l)
                         ["bug_keyword"; "search_term"; "image"; "kept"])
       (Cleaning.st_log World st)
  /\ ((forall name partial, ~ In (name, Cleaning.WriteFailed partial) outs) ->
      length outs = length csv_files).
Proof.
  intros H.
  set (st0 := {| Cleaning.st_counters := Cleaning.no_counts; Cleaning.st_log := [];
                 Cleaning.st_stats := None; Cleaning.st_world := w;
                 Cleaning.st_requests := [] |}).
  assert (Hrun : Cleaning.files_loop lower strip World get_image csv_files st0 = (outs, st)).
  { destruct csv_files; [discriminate H|]. injection H as H. exact H. }
  pose proof (files_loop_log lower strip World get_image csv_files st0) as Hl.
  cbv zeta in Hl. rewrite Hrun in Hl. unfold st0 in Hl.
  cbn [fst snd Cleaning.st_log map app] in Hl.
  destruct Hl as (H1 & H2 & H3 & H4). cbv zeta.
  split; [exact H1|]. split; [exact H2|]. split; [apply H3; constructor|].
  intros Hno.
  assert (Hle : (length outs <= length csv_files)%nat).
  { apply (f_equal (@length _)) in H1. rewrite !length_map, length_firstn in H1. lia. }
  destruct (Nat.eq_dec (length outs) (length csv_files)) as [Heq | Hne];
    [exact Heq|].
  destruct H4 as (name & partial & Hlast); [lia|].
  exfalso. apply (Hno name partial).
  apply list_elem_of_In. eapply last_Some_elem_of. exact Hlast.
Qed.

Lemma cleaning_log_has_one_line_per_row_witness :
  exists outs st,
    Cleaning.main ascii_lower ascii_strip unit Demo.get_image
      [(Demo.quarter_file_name, Demo.quarter_rows)] tt
    = Some (outs, st)
    /\ let scanned_files := firstn (length outs)
                              [(Demo.quarter_file_name, Demo.quarter_rows)] in
       map fst outs = map (fun f => "cleaned_" +:+ fst f) scanned_files
       /\ map (fun l => (Cleaning.log_csv_file l, Cleaning.log_issue_id l,
                         Cleaning.log_title l))
              (Cleaning.st_log unit st)
          = flat_map (fun f => map (fun row => (fst f, row_get row "issue_id",
                                                 row_get row "title")) (snd f))
              scanned_files
       /\ Forall (fun l => In (Cleaning.log_removed_by l)
                              ["bug_keyword"; "search_term"; "image"; "kept"])
            (Cleaning.st_log unit st)
       /\ ((forall name partial, ~ In (name, Cleaning.WriteFailed partial) outs) ->
           length outs = length [(Demo.quarter_file_name, Demo.quarter_rows)]).
Proof.
  destruct clean_quarter_file_ok as (outs & st & Hrun).
  exists outs, st. split; [exact Hrun|].
  exact (cleaning_log_has_one_line_per_row ascii_lower ascii_strip unit Demo.get_image
           [(Demo.quarter_file_name, Demo.quarter_rows)] tt outs st Hrun).
Defined.

(** X15. The rows that [process_single_csv] keeps are rows of the file
    in the order of the file; each has passed the bug keyword rule and
    the search term rule and has a non-empty [image_urls] cell, and
    [kept] goes up by their number.  No cleaned file is written exactly
    when no row is kept.  Every image URL requested comes from the
    [image_urls] cell of a row that has passed both text rules: a row
    removed by one of these two rules causes no request. *)
Theorem kept_rows_pass_every_rule
    (lower strip : string -> string) (World : Type)
    (get_image : World -> string -> World * Cleaning.ImageResponse)
    (csv_name : string) (reader : list Row) (st : Cleaning.State World) :
  let valid_rows :=
    fst (Cleaning.rows_loop lower strip World get_image csv_name reader [] st) in
  let result := Cleaning.process_single_csv lower strip World get_image csv_name reader st in
  valid_rows `sublist_of` reader
  /\ Forall (fun row => Cleaning.passes_text_rules lower row = true
                        /\ row_get row "image_urls" <> EmptyString) valid_rows
  /\ Cleaning.kept (Cleaning.st_counters World (snd result))
     = Cleaning.kept (Cleaning.st_counters World st) + Z.of_nat (length valid_rows)
  /\ (fst result = Cleaning.NoValidIssues <-> valid_rows = [])
  /\ forall u, In u (Cleaning.st_requests World (snd result)) ->
       In u (Cleaning.st_requests World st)
       \/ exists row, In row reader /\ Cleaning.passes_text_rules lower row = true
                      /\ In u (Cleaning.split_urls strip (row_get row "image_urls")).
Proof.
  cbv zeta. rewrite process_single_csv_state.
  destruct (rows_loop_valid lower strip World get_image csv_name reader [] st)
    as [(added & Hadd & Hsub & Hall) Hreq].
  pose proof (rows_loop_counters lower strip World get_image csv_name reader [] st) as Hc.
  cbv zeta in Hc. destruct Hc as (_ & Hkept & _).
  cbn [app] in Hadd. rewrite <- Hadd in Hsub, Hall.
  split; [exact Hsub|]. split; [exact Hall|].
  split; [cbn [length] in Hkept; lia|]. split; [|exact Hreq].
  unfold Cleaning.process_single_csv.
  destruct (Cleaning.rows_loop lower strip World get_image csv_name reader [] st)
    as [valid_rows st'].
  cbn [fst]. destruct valid_rows as [|first rest]; [tauto|].
  destruct (write_rows _ _) as [written ok]. cbn [fst].
  split; [destruct ok; discriminate | discriminate].
Qed.

(** X16. When the rows of a file all have the same keys, as the rows
    of one reader have, the writing of the cleaned file raises nothing.
    The columns of the cleaned file are the keys without ["body"], in
    their order, and its lines are the rows kept, in order, each with
    the cells of the row under these columns. *)
Theorem cleaned_file_is_the_kept_rows_without_body
    (lower strip : string -> string) (World : Type)
    (get_image : World -> string -> World * Cleaning.ImageResponse)
    (csv_name : string) (reader : list Row) (st : Cleaning.State World)
    (ks : list string) :
  Forall (fun row => keys row = ks) reader ->
  let valid_rows :=
    fst (Cleaning.rows_loop lower strip World get_image csv_name reader [] st) in
  fst (Cleaning.process_single_csv lower strip World get_image csv_name reader st)
  = match valid_rows with
    | [] => Cleaning.NoValidIssues
    | _ :: _ =>
        Cleaning.Saved
          {| fieldnames := without_body ks;
             lines := map (fun row => map (row_get row) (without_body ks)) valid_rows |}
    end
  /\ ~ In "body" (without_body ks)
  /\ (forall c, In c ks -> c <> "body" -> In c (without_body ks))
  /\ (without_body ks) `sublist_of` ks.
Proof.
  intros Hks. cbv zeta.
  rewrite (process_single_csv_uniform lower strip World get_image csv_name reader st ks Hks).
  split; [now destruct (fst _)|]. split; [|split].
  - intros H. apply without_body_In in H. tauto.
  - intros c Hc Hne. apply without_body_In. tauto.
  - apply list_filter_sublist.
Qed.

Lemma quarter_rows_keys : Forall (fun row => keys row = csv_keys) Demo.quarter_rows.
Proof. repeat constructor. Qed.

Lemma cleaned_file_is_the_kept_rows_without_body_witness :
  let st0 := {| Cleaning.st_counters := Cleaning.no_counts; Cleaning.st_log := [];
                Cleaning.st_stats := None; Cleaning.st_world := tt;
                Cleaning.st_requests := [] |} in
  let valid_rows :=
    fst (Cleaning.rows_loop ascii_lower ascii_strip unit Demo.get_image
           Demo.quarter_file_name Demo.quarter_rows [] st0) in
  valid_rows = [Demo.row_kept]
  /\ fst (Cleaning.process_single_csv ascii_lower ascii_strip unit Demo.get_image
            Demo.quarter_file_name Demo.quarter_rows st0)
     = match valid_rows with
       | [] => Cleaning.NoValidIssues
       | _ :: _ =>
           Cleaning.Saved
             {| fieldnames := without_body csv_keys;
                lines := map (fun row => map (row_get row) (without_body csv_keys))
                           valid_rows |}
       end.
Proof.
  intros st0 valid_rows.
  split; [vm_compute; reflexivity|].
  exact (proj1 (cleaned_file_is_the_kept_rows_without_body ascii_lower ascii_strip unit
                  Demo.get_image Demo.quarter_file_name Demo.quarter_rows st0 csv_keys
                  quarter_rows_keys)).
Defined.

(** X17. When the answer for an image URL does not depend on the moment
    of the request, the rows that [process_single_csv] keeps are exactly
    the rows of the file, in order, that pass the two text rules and
    whose [image_urls] cell is not empty and names a valid image; no
    cleaned file is written exactly when there is no such row. *)
Theorem cleaning_keeps_exactly_the_rows_that_pass
    (lower strip : string -> string) (World : Type)
    (get_image : World -> string -> World * Cleaning.ImageResponse)
    (valid : string -> bool)
    (csv_name : string) (reader : list Row) (st : Cleaning.State World) :
  (forall w u, fst (Cleaning.image_is_valid World get_image u w) = valid u) ->
  let passes := fun row =>
    Cleaning.passes_text_rules lower row
    && match row_get row "image_urls" with
       | EmptyString => false
       | _ => existsb valid (Cleaning.split_urls strip (row_get row "image_urls"))
       end in
  fst (Cleaning.rows_loop lower strip World get_image csv_name reader [] st)
  = List.filter passes reader
  /\ (fst (Cleaning.process_single_csv lower strip World get_image csv_name reader st)
      = Cleaning.NoValidIssues
      <-> List.filter passes reader = []).
Proof.
  intros Hstable. cbv zeta.
  pose proof (rows_loop_stable lower strip World get_image valid Hstable
                csv_name reader [] st) as Hrows.
  cbn [app] in Hrows. split; [exact Hrows|]. rewrite <- Hrows.
  unfold Cleaning.process_single_csv.
  destruct (Cleaning.rows_loop lower strip World get_image csv_name reader [] st)
    as [valid_rows st'].
  cbn [fst]. destruct valid_rows as [|first rest]; [tauto|].
  destruct (write_rows _ _) as [written ok]. cbn [fst].
  split; [destruct ok; discriminate | discriminate].
Qed.

Lemma cleaning_keeps_exactly_the_rows_that_pass_witness :
  let st0 := {| Cleaning.st_counters := Cleaning.no_counts; Cleaning.st_log := [];
                Cleaning.st_stats := None; Cleaning.st_world := tt;
                Cleaning.st_requests := [] |} in
  let valid := fun u => fst (Cleaning.image_is_valid unit Demo.get_image u tt) in
  let passes := fun row =>
    Cleaning.passes_text_rules ascii_lower row
    && match row_get row "image_urls" with
       | EmptyString => false
       | _ => existsb valid (Cleaning.split_urls ascii_strip (row_get row "image_urls"))
       end in
  List.filter passes Demo.quarter_rows = [Demo.row_kept]
  /\ fst (Cleaning.rows_loop ascii_lower ascii_strip unit Demo.get_image
            Demo.quarter_file_name Demo.quarter_rows [] st0)
     = List.filter passes Demo.quarter_rows.
Proof.
  intros st0 valid passes.
  split; [vm_compute; reflexivity|].
  exact (proj1 (cleaning_keeps_exactly_the_rows_that_pass ascii_lower ascii_strip unit
                  Demo.get_image valid Demo.quarter_file_name Demo.quarter_rows st0
                  get_image_stable)).
Defined.

(** ** [combine_csv.py]: the merge *)

Section Merging.

Import Combine.

Lemma read_file_fieldnames (f : Reading) (m : Merge) :
  all_fieldnames (read_file f m)
  = all_fieldnames m ∪ list_to_set (without_body (header f)).
Proof.
  unfold read_file. destruct (header f) as [|c cols] eqn:E; [|reflexivity].
  cbn. set_solver.
Qed.

Lemma fold_read_file (csv_files : list Reading) (m0 : Merge) :
  let m := fold_left (fun m f => read_file f m) csv_files m0 in
  merged_rows m
  = merged_rows m0
    ++ map (row_pop "body")
         (flat_map (fun f => match header f with [] => [] | _ :: _ => rows_read f end)
            csv_files)
  /\ forall c, c ∈ all_fieldnames m
               <-> c ∈ all_fieldnames m0
                   \/ exists f, In f csv_files /\ In c (without_body (header f)).
Proof.
  revert m0. induction csv_files as [|f rest IH]; intros m0; cbv zeta.
  - cbn. split; [now rewrite app_nil_r|]. intros c. split; [auto|].
    intros [H | (f & [] & _)]. exact H.
  - cbn [fold_left flat_map]. specialize (IH (read_file f m0)). cbv zeta in IH.
    destruct IH as [IH1 IH2]. split.
    + rewrite IH1, map_app, app_assoc. f_equal.
      unfold read_file. destruct (header f); [cbn; now rewrite app_nil_r | reflexivity].
    + intros c. rewrite IH2, read_file_fieldnames, elem_of_union, elem_of_list_to_set.
      rewrite list_elem_of_In. split.
      * intros [[H | H] | (f' & Hf' & H)]; [now left | right | right].
        -- exists f. split; [now left | exact H].
        -- exists f'. split; [now right | exact H].
      * intros [H | (f' & [<- | Hf'] & H)]; [left; now left | left; now right | right].
        exists f'. split; assumption.
Qed.

Lemma row_lookup_row_set (key value : string) (row : Row) (c : string) :
  row_lookup (row_set key value row) c
  = if String.eqb key c then Some value else row_lookup row c.
Proof.
  induction row as [|[k v] row IH]; cbn [row_set row_lookup].
  - reflexivity.
  - destruct (String.eqb_spec k key) as [-> | Hne]; cbn [row_lookup].
    + destruct (String.eqb key c); reflexivity.
    + rewrite IH. destruct (String.eqb_spec k c) as [-> | Hkc]; [|reflexivity].
      destruct (String.eqb_spec key c); [congruence | reflexivity].
Qed.

Lemma keys_row_set (key value : string) (row : Row) (c : string) :
  In c (keys (row_set key value row)) <-> c = key \/ In c (keys row).
Proof.
  unfold keys. induction row as [|[k v] row IH]; cbn [row_set map fst In].
  - intuition.
  - destruct (String.eqb_spec k key) as [-> | Hne]; cbn [map fst In].
    + intuition.
    + rewrite IH. intuition.
Qed.

Lemma zip_dict_cells (g : string -> string) (cols : list string) (c : string) :
  In c cols -> row_get (zip_dict cols (map g cols)) c = g c.
Proof.
  unfold zip_dict, row_get.
  assert (H : forall row,
             row_lookup (fold_left (fun row item => row_set (fst item) (snd item) row)
                           (combine cols (map g cols)) row) c
             = if list_in c cols then Some (g c) else row_lookup row c).
  { induction cols as [|k cols IH]; intros row; [reflexivity|].
    cbn [map combine fold_left fst snd]. rewrite IH. unfold list_in. cbn [existsb].
    change (existsb (String.eqb c) cols) with (list_in c cols).
    destruct (list_in c cols); [now rewrite orb_true_r|]. rewrite orb_false_r.
    rewrite row_lookup_row_set, String.eqb_sym.
    destruct (String.eqb_spec c k) as [-> | Hne]; reflexivity. }
  intros Hc. rewrite H. apply list_in_In in Hc. now rewrite Hc.
Qed.

Lemma zip_dict_keys (cols line : list string) (c : string) :
  In c (keys (zip_dict cols line)) -> In c cols.
Proof.
  unfold zip_dict.
  assert (H : forall row,
             In c (keys (fold_left (fun row item => row_set (fst item) (snd item) row)
                           (combine cols line) row)) ->
             In c cols \/ In c (keys row)).
  { revert line. induction cols as [|k cols IH]; intros line row; [cbn; auto|].
    destruct line as [|v line]; [cbn; auto|].
    cbn [combine fold_left fst snd]. intros Hc.
    destruct (IH line _ Hc) as [H | H]; [left; now right|].
    apply keys_row_set in H as [-> | H]; [left; now left | now right]. }
  intros Hc. destruct (H [] Hc) as [Hin | []]. exact Hin.
Qed.

Lemma row_pop_absent (key : string) (row : Row) :
  ~ In key (keys row) -> row_pop key row = row.
Proof.
  unfold keys, row_pop. induction row as [|[k v] row IH]; [reflexivity|].
  cbn [map fst In List.filter]. intros H.
  destruct (String.eqb_spec k key) as [-> | Hne]; [tauto|].
  cbn [negb]. rewrite IH; [reflexivity | tauto].
Qed.

Lemma collect_Some (csv_files : list Reading) (m : Merge) :
  collect csv_files = Some m ->
  m = fold_left (fun m f => read_file f m) csv_files
        {| merged_rows := []; all_fieldnames := ∅ |}.
Proof.
  unfold collect. destruct csv_files; [discriminate|]. intros H. now injection H as <-.
Qed.

Lemma merged_columns (csv_files : list Reading) (m : Merge) (cols : list string) :
  collect csv_files = Some m ->
  cols ≡ₚ elements (all_fieldnames m) ->
  NoDup cols
  /\ forall c, In c cols
               <-> c <> "body" /\ exists f, In f csv_files /\ In c (header f).
Proof.
  intros Hm Hcols. apply collect_Some in Hm.
  pose proof (fold_read_file csv_files {| merged_rows := []; all_fieldnames := ∅ |}) as Hf.
  cbv zeta in Hf. rewrite <- Hm in Hf. destruct Hf as [_ Hset]. split.
  - rewrite Hcols. apply NoDup_elements.
  - intros c. rewrite <- list_elem_of_In, Hcols, elem_of_elements, Hset.
    cbn [all_fieldnames]. split.
    + intros [H | (f & Hf & Hc)]; [set_solver|].
      apply without_body_In in Hc. split; [tauto | exists f; tauto].
    + intros (Hne & f & Hf & Hc). right. exists f. split; [exact Hf|].
      apply without_body_In. tauto.
Qed.

Lemma merged_rows_written (csv_files : list Reading) (m : Merge) (cols : list string) :
  collect csv_files = Some m ->
  Forall (fun f => Forall (fun row => forall k, In k (keys row) -> In k (header f))
                     (rows_read f)) csv_files ->
  cols ≡ₚ elements (all_fieldnames m) ->
  let rows := flat_map (fun f => match header f with [] => [] | _ :: _ => rows_read f end)
                csv_files in
  merged_rows m = map (row_pop "body") rows
  /\ write_merged cols m
     = ({| fieldnames := cols; lines := map (fun row => map (row_get row) cols) rows |},
        true).
Proof.
  intros Hm Hreg Hcols. cbv zeta.
  destruct (merged_columns csv_files m cols Hm Hcols) as [_ Hin].
  pose proof (collect_Some _ _ Hm) as Hfold.
  pose proof (fold_read_file csv_files {| merged_rows := []; all_fieldnames := ∅ |}) as Hf.
  cbv zeta in Hf. rewrite <- Hfold in Hf. destruct Hf as [Hrows _].
  cbn [merged_rows app] in Hrows. split; [exact Hrows|].
  unfold write_merged. rewrite Hrows, write_rows_all.
  - f_equal. f_equal. rewrite map_map. apply map_ext. intros row.
    apply map_ext_in. intros c Hc. apply row_get_row_pop. apply Hin in Hc. tauto.
  - apply Forall_forall. intros row Hrow. apply list_elem_of_In, in_map_iff in Hrow.
    destruct Hrow as (row0 & <- & Hrow0).
    apply in_flat_map in Hrow0 as (f & Hf & Hrow0).
    intros k Hk. rewrite keys_row_pop in Hk. apply without_body_In in Hk as [Hk Hne].
    apply Hin. split; [exact Hne|]. exists f. split; [exact Hf|].
    rewrite Forall_forall in Hreg. specialize (Hreg f (proj2 (list_elem_of_In _ _) Hf)).
    rewrite Forall_forall in Hreg.
    destruct (header f) as [|h hs] eqn:Eh; [destruct Hrow0|].
    apply (Hreg row0); [now apply list_elem_of_In | exact Hk].
Qed.

End Merging.

(** X18. The merge of the files of [output/], each read with rows whose
    keys are among the names of its header, writes every row: the
    writing raises nothing.  The rows written are those of the files
    that have a header, in the order of the files; a file without a
    header gives none.  The columns are the names of all the headers but
    ["body"], each once, in whatever order the set gives them; a line
    holds the cells of its row under these columns, empty where the
    file of the row has no such column. *)
Theorem merge_writes_every_row_under_all_columns
    (csv_files : list Combine.Reading) (m : Combine.Merge) (cols : list string) :
  Combine.collect csv_files = Some m ->
  Forall (fun f => Forall (fun row => forall k, In k (keys row) -> In k (Combine.header f))
                     (Combine.rows_read f)) csv_files ->
  cols ≡ₚ elements (Combine.all_fieldnames m) ->
  let rows := flat_map (fun f => match Combine.header f with
                                 | [] => []
                                 | _ :: _ => Combine.rows_read f
                                 end) csv_files in
  Combine.write_merged cols m
  = ({| fieldnames := cols; lines := map (fun row => map (row_get row) cols) rows |}, true)
  /\ Combine.merged_rows m = map (row_pop "body") rows
  /\ NoDup cols
  /\ (forall c, In c cols
                <-> c <> "body" /\ exists f, In f csv_files /\ In c (Combine.header f))
  /\ (forall row c, In row rows -> ~ In c (keys row) -> row_get row c = EmptyString).
Proof.
  intros Hm Hreg Hcols. cbv zeta.
  destruct (merged_rows_written csv_files m cols Hm Hreg Hcols) as [Hrows Hwrite].
  destruct (merged_columns csv_files m cols Hm Hcols) as [Hnd Hin].
  repeat split; try assumption; try (now apply Hin).
  intros row c _ Hc. unfold row_get.
  assert (H : row_lookup row c = None); [|now rewrite H].
  unfold keys in Hc. induction row as [|[k v] row IH]; [reflexivity|].
  cbn [row_lookup map fst In] in *.
  destruct (String.eqb_spec k c); [tauto | apply IH; tauto].
Qed.

Lemma demo_readings_regular :
  Forall (fun f => Forall (fun row => forall k, In k (keys row) -> In k (Combine.header f))
                     (Combine.rows_read f)) [Demo.reading_a; Demo.reading_b].
Proof.
  repeat (apply List.Forall_cons || apply List.Forall_nil); intros k Hk; exact Hk.
Qed.

Lemma merge_writes_every_row_under_all_columns_witness :
  exists m,
    Combine.collect [Demo.reading_a; Demo.reading_b] = Some m
    /\ let cols := elements (Combine.all_fieldnames m) in
       let rows := flat_map (fun f => match Combine.header f with
                                      | [] => []
                                      | _ :: _ => Combine.rows_read f
                                      end) [Demo.reading_a; Demo.reading_b] in
       Combine.write_merged cols m
       = ({| fieldnames := cols; lines := map (fun row => map (row_get row) cols) rows |},
          true)
       /\ Combine.merged_rows m = map (row_pop "body") rows
       /\ NoDup cols.
Proof.
  assert (Hm : exists m, Combine.collect [Demo.reading_a; Demo.reading_b] = Some m)
    by (eexists; reflexivity).
  destruct Hm as (m & Hm). exists m. split; [exact Hm|].
  intros cols rows.
  destruct (merge_writes_every_row_under_all_columns [Demo.reading_a; Demo.reading_b] m cols
              Hm demo_readings_regular (reflexivity _)) as (H1 & H2 & H3 & _).
  split; [exact H1 | split; [exact H2 | exact H3]].
Defined.

Section MergingAgain.

Import Combine.

Lemma collect_app (before after : list Reading) (f : Reading) :
  collect (before ++ f :: after)
  = Some (fold_left (fun m f => read_file f m) (before ++ f :: after)
            {| merged_rows := []; all_fieldnames := ∅ |}).
Proof. destruct before; reflexivity. Qed.

Lemma read_back_rows (cols : list string) (rows : list Row) :
  ~ In "body" cols ->
  let again := map (zip_dict cols) (map (fun row => map (row_get row) cols) rows) in
  map (row_pop "body") again = again
  /\ Forall2 (fun old new => forall c, In c cols -> row_get new c = row_get old c)
       (map (row_pop "body") rows) again.
Proof.
  intros Hbody. cbv zeta. induction rows as [|row rows [IH1 IH2]]; cbn [map].
  - split; constructor.
  - split.
    + rewrite IH1. f_equal. apply row_pop_absent. intros H.
      apply zip_dict_keys in H. contradiction.
    + constructor; [|exact IH2]. intros c Hc.
      rewrite (zip_dict_cells (row_get row) cols c Hc).
      symmetry. apply row_get_row_pop. intros ->. contradiction.
Qed.

End MergingAgain.

(** X19. [merged_issues.csv] is written into [output/], the directory
    that the merge reads.  So a second run over the same files finds
    the merged file among them, wherever the listing puts it, and when
    the first run had a column to write, the second collects every row
    of the first merge twice: once from its file and once from the
    merged file, with the same cells under every column.  The columns
    stay the same. *)
Theorem merging_again_collects_every_row_twice
    (before after : list Combine.Reading) (m : Combine.Merge) (cols : list string) :
  Combine.collect (before ++ after) = Some m ->
  Forall (fun f => Forall (fun row => forall k, In k (keys row) -> In k (Combine.header f))
                     (Combine.rows_read f)) (before ++ after) ->
  cols ≡ₚ elements (Combine.all_fieldnames m) ->
  cols <> [] ->
  let merged_file := Combine.read_back (fst (Combine.write_merged cols m)) in
  let collected := fun files =>
    map (row_pop "body")
      (flat_map (fun f => match Combine.header f with
                          | [] => []
                          | _ :: _ => Combine.rows_read f
                          end) files) in
  exists m',
    Combine.collect (before ++ merged_file :: after) = Some m'
    /\ Combine.all_fieldnames m' = Combine.all_fieldnames m
    /\ Combine.merged_rows m = collected before ++ collected after
    /\ Combine.merged_rows m'
       = collected before ++ Combine.rows_read merged_file ++ collected after
    /\ Forall2 (fun old new => forall c, In c cols -> row_get new c = row_get old c)
         (Combine.merged_rows m) (Combine.rows_read merged_file)
    /\ length (Combine.merged_rows m') = (2 * length (Combine.merged_rows m))%nat.
Proof.
  intros Hm Hreg Hcols Hne. cbv zeta.
  destruct (merged_rows_written _ m cols Hm Hreg Hcols) as [Hrows Hwrite].
  destruct (merged_columns _ m cols Hm Hcols) as [Hnd Hin].
  assert (Hbody : ~ In "body" cols) by (intros H; apply Hin in H; tauto).
  rewrite Hwrite. cbn [fst]. unfold Combine.read_back.
  cbn [fieldnames lines Combine.rows_read].
  set (rows := flat_map _ (before ++ after)) in *.
  set (again := map (zip_dict cols) (map (fun row => map (row_get row) cols) rows)).
  destruct (read_back_rows cols rows Hbody) as [Hpop Hcopy]. fold again in Hpop, Hcopy.
  set (old := {| Combine.header := cols; Combine.rows_read := again |}).
  eexists. split; [apply collect_app|].
  pose proof (fold_read_file (before ++ old :: after)
                {| Combine.merged_rows := []; Combine.all_fieldnames := ∅ |}) as Hf.
  cbv zeta in Hf. destruct Hf as [Hrows' Hset'].
  pose proof (fold_read_file (before ++ after)
                {| Combine.merged_rows := []; Combine.all_fieldnames := ∅ |}) as Hf0.
  cbv zeta in Hf0. rewrite <- (collect_Some _ _ Hm) in Hf0. destruct Hf0 as [_ Hset].
  assert (Hsplit : Combine.merged_rows m
                   = map (row_pop "body")
                       (flat_map (fun f => match Combine.header f with
                                           | [] => []
                                           | _ :: _ => Combine.rows_read f
                                           end) before)
                     ++ map (row_pop "body")
                          (flat_map (fun f => match Combine.header f with
                                              | [] => []
                                              | _ :: _ => Combine.rows_read f
                                              end) after)).
  { rewrite Hrows. unfold rows. now rewrite flat_map_app, map_app. }
  assert (Hnew : Combine.merged_rows
                   (fold_left (fun m f => Combine.read_file f m) (before ++ old :: after)
                      {| Combine.merged_rows := []; Combine.all_fieldnames := ∅ |})
                 = map (row_pop "body")
                     (flat_map (fun f => match Combine.header f with
                                         | [] => []
                                         | _ :: _ => Combine.rows_read f
                                         end) before)
                   ++ again
                   ++ map (row_pop "body")
                        (flat_map (fun f => match Combine.header f with
                                            | [] => []
                                            | _ :: _ => Combine.rows_read f
                                            end) after)).
  { rewrite Hrows'. cbn [Combine.merged_rows app].
    rewrite flat_map_app, map_app. cbn [flat_map]. rewrite map_app. f_equal. f_equal.
    unfold old at 1. cbn [Combine.header Combine.rows_read].
    destruct cols as [|c0 cols0]; [congruence | exact Hpop]. }
  split; [|split; [exact Hsplit | split; [exact Hnew | split]]].
  - apply set_eq. intros c. rewrite Hset', Hset. cbn [Combine.all_fieldnames]. split.
    + intros [H | (f & Hf & Hc)]; [now left|].
      apply in_app_or in Hf as [Hf | [<- | Hf]].
      * right. exists f. split; [apply in_or_app; now left | exact Hc].
      * cbn [Combine.header] in Hc. apply without_body_In in Hc as [Hc _].
        apply Hin in Hc as (Hcb & f & Hf & Hc). right. exists f.
        split; [exact Hf | apply without_body_In; tauto].
      * right. exists f. split; [apply in_or_app; now right | exact Hc].
    + intros [H | (f & Hf & Hc)]; [now left|]. right. exists f. split; [|exact Hc].
      apply in_app_or in Hf as [Hf | Hf]; apply in_or_app; [now left | right; now right].
  - rewrite Hrows. exact Hcopy.
  - rewrite Hnew, Hsplit, !length_app.
    assert (Hlen : length again = length (Combine.merged_rows m)).
    { unfold again. rewrite Hrows, !length_map. reflexivity. }
    rewrite Hlen, Hsplit, !length_app. lia.
Qed.

Lemma merging_again_collects_every_row_twice_witness :
  exists m,
    Combine.collect ([Demo.reading_a] ++ [Demo.reading_b]) = Some m
    /\ let cols := elements (Combine.all_fieldnames m) in
       let merged_file := Combine.read_back (fst (Combine.write_merged cols m)) in
       exists m',
         Combine.collect ([Demo.reading_a] ++ merged_file :: [Demo.reading_b]) = Some m'
         /\ Combine.all_fieldnames m' = Combine.all_fieldnames m
         /\ length (Combine.merged_rows m') = (2 * length (Combine.merged_rows m))%nat.
Proof.
  assert (Hm : exists m, Combine.collect ([Demo.reading_a] ++ [Demo.reading_b]) = Some m)
    by (eexists; reflexivity).
  destruct Hm as (m & Hm). exists m. split; [exact Hm|].
  intros cols merged_file.
  assert (Hne : cols <> []).
  { unfold cols. injection Hm as <-. vm_compute. intros H. discriminate H. }
  destruct (merging_again_collects_every_row_twice [Demo.reading_a] [Demo.reading_b] m cols
              Hm demo_readings_regular (reflexivity _) Hne)
    as (m' & H1 & H2 & _ & _ & _ & H3).
  exists m'. split; [exact H1 | split; [exact H2 | exact H3]].
Defined.
